(** * Ingestion core of the parts harvester: a shallow embedding

    The development follows the scraper (record extraction, identity,
    change tracking, tombstones), the image downloader (asset
    synchronisation) and the orchestration around them.

    Conventions of the embedding
    - JavaScript strings are [string]s, read as the UTF-8 bytes of the text;
      case mapping and the character classes of the regular expressions act
      on the ASCII range and leave other bytes alone.
    - A price is the decimal matched by the price pattern, kept exactly as a
      number of hundredths ([Z]); [parseFloat] is injective on such decimals
      below 2^53 / 100.
    - SQL tables are lists of rows in insertion (rowid) order; a statement
      that violates a constraint of the schema throws, as [db.run] rejects.
    - The file system under the images directory is a finite map from
      relative paths to file contents.
    - Effects are threaded through a small state-and-exception monad over
      the [World] record. *)

From Stdlib Require Import ZArith NArith Lia Bool List Ascii String Permutation.
From stdpp Require Import base option list strings pretty gmap.

Local Open Scope Z_scope.

(* ===================================================================== *)
(** * Strings as JavaScript uses them                                     *)
(* ===================================================================== *)

Definition chars (s : string) : list ascii := list_ascii_of_string s.
Definition str (l : list ascii) : string := string_of_list_ascii l.

Definition code (c : ascii) : N := N_of_ascii c.

Definition isDigit (c : ascii) : bool := (48 <=? code c)%N && (code c <=? 57)%N.
Definition isLower (c : ascii) : bool := (97 <=? code c)%N && (code c <=? 122)%N.
Definition isUpper (c : ascii) : bool := (65 <=? code c)%N && (code c <=? 90)%N.

(** [\s] on the ASCII range: tab, line feed, vertical tab, form feed,
    carriage return and space. *)
Definition isSpace (c : ascii) : bool :=
  ((9 <=? code c)%N && (code c <=? 13)%N) || (code c =? 32)%N.

Definition lowerChar (c : ascii) : ascii :=
  if isUpper c then ascii_of_N (code c + 32) else c.
Definition upperChar (c : ascii) : ascii :=
  if isLower c then ascii_of_N (code c - 32) else c.

Definition toLowerCase (s : string) : string := str (map lowerChar (chars s)).
Definition toUpperCase (s : string) : string := str (map upperChar (chars s)).

Fixpoint dropSpaces (l : list ascii) : list ascii :=
  match l with
  | c :: r => if isSpace c then dropSpaces r else l
  | [] => []
  end.

(** [String.prototype.trim] *)
Definition trim (s : string) : string :=
  str (rev (dropSpaces (rev (dropSpaces (chars s))))).

(** JavaScript truthiness of a string: non-empty. *)
Definition truthy (s : string) : bool :=
  match s with EmptyString => false | _ => true end.

(** [a || b] on strings. *)
Definition orElse (a b : string) : string := if truthy a then a else b.

(** [v || ''] and [v || null] on a nullable column. *)
Definition orEmpty (o : option string) : string := default EmptyString o.
Definition orNull (o : option string) : option string :=
  match o with Some s => if truthy s then Some s else None | None => None end.

Fixpoint prefixOf (p l : list ascii) : bool :=
  match p, l with
  | [], _ => true
  | a :: p', b :: l' => Ascii.eqb a b && prefixOf p' l'
  | _ :: _, [] => false
  end.

Definition startsWith (s p : string) : bool := prefixOf (chars p) (chars s).

(** Index of the first occurrence of [p] in [l], counted from [i]. *)
Fixpoint indexFrom (p l : list ascii) (i : nat) : option nat :=
  if prefixOf p l then Some i
  else match l with
       | [] => None
       | _ :: r => indexFrom p r (S i)
       end.

Definition indexOf (s p : string) : option nat := indexFrom (chars p) (chars s) 0.

(** [String.prototype.includes] *)
Definition includes (s p : string) : bool := bool_decide (is_Some (indexOf s p)).

(** Splitting at the characters of a class, keeping empty pieces, as
    [split(',')] and [split('/')] do. *)
Fixpoint splitAt (sep : ascii -> bool) (l cur : list ascii) : list (list ascii) :=
  match l with
  | [] => [rev cur]
  | c :: r => if sep c then rev cur :: splitAt sep r [] else splitAt sep r (c :: cur)
  end.

Definition split (sep : ascii -> bool) (s : string) : list string :=
  map str (splitAt sep (chars s) []).

(** [s.split(/\s+/).filter(Boolean)]: the maximal runs of non-blank
    characters. *)
Definition words (s : string) : list string :=
  List.filter truthy (split isSpace s).

Definition join (sep : string) (l : list string) : string := String.concat sep l.

(** [replace(/[^a-z0-9]+/g, ' ')]: every maximal run of characters outside
    the class becomes one space. *)
Fixpoint squashNonAlnum (l : list ascii) (inRun : bool) : list ascii :=
  match l with
  | [] => []
  | c :: r =>
      if isLower c || isDigit c then c :: squashNonAlnum r false
      else if inRun then squashNonAlnum r true
      else " "%char :: squashNonAlnum r true
  end.

Definition replaceNonAlnum (s : string) : string := str (squashNonAlnum (chars s) false).

(* ===================================================================== *)
(** * MD5, the hash behind [generateId]                                   *)
(* ===================================================================== *)

Module MD5.

Definition mask32 : Z := 0xFFFFFFFF.
Definition add32 (a b : Z) : Z := Z.land (a + b) mask32.
Definition not32 (a : Z) : Z := Z.lxor a mask32.
Definition rotl32 (x : Z) (n : Z) : Z :=
  Z.land (Z.lor (Z.shiftl x n) (Z.shiftr x (32 - n))) mask32.

Definition K : list Z :=
  [ 0xd76aa478; 0xe8c7b756; 0x242070db; 0xc1bdceee;
    0xf57c0faf; 0x4787c62a; 0xa8304613; 0xfd469501;
    0x698098d8; 0x8b44f7af; 0xffff5bb1; 0x895cd7be;
    0x6b901122; 0xfd987193; 0xa679438e; 0x49b40821;
    0xf61e2562; 0xc040b340; 0x265e5a51; 0xe9b6c7aa;
    0xd62f105d; 0x02441453; 0xd8a1e681; 0xe7d3fbc8;
    0x21e1cde6; 0xc33707d6; 0xf4d50d87; 0x455a14ed;
    0xa9e3e905; 0xfcefa3f8; 0x676f02d9; 0x8d2a4c8a;
    0xfffa3942; 0x8771f681; 0x6d9d6122; 0xfde5380c;
    0xa4beea44; 0x4bdecfa9; 0xf6bb4b60; 0xbebfbc70;
    0x289b7ec6; 0xeaa127fa; 0xd4ef3085; 0x04881d05;
    0xd9d4d039; 0xe6db99e5; 0x1fa27cf8; 0xc4ac5665;
    0xf4292244; 0x432aff97; 0xab9423a7; 0xfc93a039;
    0x655b59c3; 0x8f0ccc92; 0xffeff47d; 0x85845dd1;
    0x6fa87e4f; 0xfe2ce6e0; 0xa3014314; 0x4e0811a1;
    0xf7537e82; 0xbd3af235; 0x2ad7d2bb; 0xeb86d391 ].

Definition S : list Z :=
  [ 7; 12; 17; 22; 7; 12; 17; 22; 7; 12; 17; 22; 7; 12; 17; 22;
    5; 9; 14; 20; 5; 9; 14; 20; 5; 9; 14; 20; 5; 9; 14; 20;
    4; 11; 16; 23; 4; 11; 16; 23; 4; 11; 16; 23; 4; 11; 16; 23;
    6; 10; 15; 21; 6; 10; 15; 21; 6; 10; 15; 21; 6; 10; 15; 21 ].

Record state := mk { sa : Z; sb : Z; sc : Z; sd : Z }.

Definition init : state := mk 0x67452301 0xefcdab89 0x98badcfe 0x10325476.

(** One of the 64 operations on the 16-word block [m]. *)
Definition step (m : list Z) (s : state) (i : nat) : state :=
  let '(mk a b c d) := s in
  let zi := Z.of_nat i in
  let '(f, g) :=
    if (i <? 16)%nat then (Z.lor (Z.land b c) (Z.land (not32 b) d), zi)
    else if (i <? 32)%nat then (Z.lor (Z.land d b) (Z.land (not32 d) c), (5 * zi + 1) mod 16)
    else if (i <? 48)%nat then (Z.lxor (Z.lxor b c) d, (3 * zi + 5) mod 16)
    else (Z.lxor c (Z.lor b (not32 d)), (7 * zi) mod 16) in
  let f' := add32 (add32 (add32 f a) (nth i K 0)) (nth (Z.to_nat g) m 0) in
  mk d (add32 b (rotl32 f' (nth i S 0))) b c.

Definition block (s : state) (m : list Z) : state :=
  let s' := fold_left (step m) (seq 0 64) s in
  mk (add32 (sa s) (sa s')) (add32 (sb s) (sb s'))
     (add32 (sc s) (sc s')) (add32 (sd s) (sd s')).

(** Little-endian bytes of a number, [n] of them. *)
Fixpoint le_bytes (n : nat) (x : Z) : list Z :=
  match n with
  | O => []
  | Datatypes.S n' => Z.land x 255 :: le_bytes n' (Z.shiftr x 8)
  end.

Fixpoint le_word (bs : list Z) : Z :=
  match bs with
  | [] => 0
  | b :: r => b + 256 * le_word r
  end.

Definition pad (msg : list Z) : list Z :=
  let len := Z.of_nat (length msg) in
  let zeros := Z.to_nat ((55 - len) mod 64) in
  msg ++ [128] ++ repeat 0 zeros ++ le_bytes 8 (8 * len).

(** Cuts a byte list into groups of [n]; [fuel] bounds the number of
    groups. *)
Fixpoint chunks (fuel n : nat) (l : list Z) : list (list Z) :=
  match fuel, l with
  | O, _ | _, [] => []
  | Datatypes.S fuel', _ => firstn n l :: chunks fuel' n (skipn n l)
  end.

Definition words_of_block (bytes64 : list Z) : list Z :=
  map le_word (chunks 16 4 bytes64).

Definition digest (msg : list Z) : list Z :=
  let p := pad msg in
  let blocks := map words_of_block (chunks (length p) 64 p) in
  let '(mk a b c d) := fold_left block blocks init in
  le_bytes 4 a ++ le_bytes 4 b ++ le_bytes 4 c ++ le_bytes 4 d.

Definition hexDigit (n : Z) : ascii :=
  ascii_of_N (Z.to_N (if n <? 10 then 48 + n else 87 + n)).

Definition hex (bytes : list Z) : string :=
  str (flat_map (fun b => [hexDigit (Z.shiftr b 4); hexDigit (Z.land b 15)]) bytes).

Definition md5hex (text : string) : string :=
  hex (digest (map (fun c => Z.of_N (code c)) (chars text))).

End MD5.

(** [crypto.createHash('md5').update(text).digest('hex')] *)
Definition generateId (text : string) : string := MD5.md5hex text.

(* ===================================================================== *)
(** * The URL library                                                     *)
(* ===================================================================== *)

(** The WHATWG URL parser and the formatting of local time are
    collaborators of the program; the embedding is parametric in them. *)
Class Platform := {
  (** [decodeURIComponent(new URL(u).pathname)], [None] when either throws *)
  decodedPathname : string -> option string;
  (** [new URL(src, new URL(base)).toString()], [None] when it throws *)
  resolveAgainst : string -> string -> option string;
  (** [u = new URL(s); u.hash = ''; u.toString()], [None] when it throws *)
  withoutHash : string -> option string;
  (** [toDbLocalTimestamp(input)] when the clock shows the given instant *)
  toDbLocalTimestamp : option string -> N -> string;
  (** SQLite's [CURRENT_TIMESTAMP] at the given instant *)
  currentTimestamp : N -> string
}.

(** A parser for plain [scheme://host/path?query#fragment] URLs, used for
    concrete pages. *)
Module SimpleUrl.

Definition isDelim (c : ascii) : bool :=
  Ascii.eqb c "?"%char || Ascii.eqb c "#"%char.

Fixpoint upTo (stop : ascii -> bool) (l : list ascii) : list ascii :=
  match l with
  | [] => []
  | c :: r => if stop c then [] else c :: upTo stop r
  end.

Fixpoint from (stop : ascii -> bool) (l : list ascii) : list ascii :=
  match l with
  | [] => []
  | c :: r => if stop c then l else from stop r
  end.

(** The text after [scheme://], when there is a scheme. *)
Definition afterScheme (u : string) : option (list ascii) :=
  match indexOf u "://" with
  | Some (Datatypes.S i) => Some (skipn (i + 4) (chars u))
  | _ => None
  end.

Definition pathname (u : string) : option string :=
  match afterScheme u with
  | Some rest =>
      let p := upTo isDelim (from (Ascii.eqb "/"%char) rest) in
      Some (str (if p is [] then ["/"%char] else p))
  | None => None
  end.

Definition origin (u : string) : option string :=
  match indexOf u "://", afterScheme u with
  | Some i, Some rest =>
      Some (str (firstn (i + 3) (chars u) ++ upTo (fun c => Ascii.eqb c "/"%char || isDelim c) rest))
  | _, _ => None
  end.

(** Resolution of a path relative to the directory of the base. *)
Definition resolve (src base : string) : option string :=
  match origin base, pathname base with
  | Some o, Some p =>
      if startsWith src "/" then Some (o +:+ src)
      else
        let dir := rev (from (Ascii.eqb "/"%char) (rev (chars p))) in
        Some (o +:+ str dir +:+ src)
  | _, _ => None
  end.

Definition nohash (u : string) : option string :=
  match afterScheme u with
  | Some _ => Some (str (upTo (Ascii.eqb "#"%char) (chars u)))
  | None => None
  end.

Definition lib : Platform :=
  {| decodedPathname := pathname; resolveAgainst := resolve; withoutHash := nohash;
     toDbLocalTimestamp := fun input now => default ("@" +:+ pretty now) input;
     currentTimestamp := fun now => "@" +:+ pretty now |}.

End SimpleUrl.

(* ===================================================================== *)
(** * Data model                                                          *)
(* ===================================================================== *)

(** A row of [parts]. The NOT NULL columns are plain values. *)
Record PartRow := mkPart {
  p_id : string;
  p_motorcycle_id : string;
  p_name : string;
  p_part_number : string;
  p_description : option string;
  p_price : option Z;
  p_currency : option string;
  p_image_url : option string;
  p_image_path : option string;
  p_url : string;
  p_scraped_at : option string;
  p_last_seen : option string;
  p_is_deleted : Z;
  p_deleted_at : option string
}.

Inductive HistoryEvent := updated | deleted | restored.

(** A row of [parts_history]; its own key, a hash over a random UUID, is
    left out. *)
Record HistoryRow := mkHistory {
  h_part_id : string;
  h_motorcycle_id : string;
  h_name : string;
  h_part_number : string;
  h_description : option string;
  h_price : option Z;
  h_currency : option string;
  h_image_url : option string;
  h_image_path : option string;
  h_url : string;
  h_history_event : HistoryEvent;
  h_is_deleted : Z;
  h_deleted_at : option string;
  h_recorded_at : string
}.

(** A row of [part_images]. *)
Record ImageRow := mkImage {
  pi_id : N;
  pi_part_id : string;
  pi_image_url : string;
  pi_image_path : option string;
  pi_sort_order : Z
}.

(** A row of [motorcycles]. *)
Record MotorcycleRow := mkMotorcycle {
  m_id : string;
  m_brand : string;
  m_model : string;
  m_category : string;
  m_url : string;
  m_last_updated : option string
}.

(** A record pushed by the extractor. *)
Record ExtractedPart := mkExtracted {
  name : string;
  partNumber : string;
  description : string;
  price : Z;
  currency : string;
  imageUrl : option string;
  imageUrls : list string
}.

Inductive DownloadStatus := skipped_unchanged | downloaded_new | downloaded_updated.

(** What [downloadImage] resolves to. *)
Record Download := mkDownload {
  filename : string;
  filepath : string;
  size : N;
  status : DownloadStatus;
  previous_filepath : option string
}.

(** An entry of the list [syncPartImages] returns. *)
Record ImageResult := mkImageResult {
  r_url : string;
  r_path : string;
  r_size : N;
  r_status : DownloadStatus;
  r_previousPath : option string
}.

(** Requests and waits, in the order they begin. *)
Inductive NetEvent :=
| GetPage (url : string)
| HeadImage (url : string)
| GetImage (url : string)
| Delay (ms : Z).

Record World := mkWorld {
  parts : list PartRow;
  parts_history : list HistoryRow;
  part_images : list ImageRow;
  motorcycles : list MotorcycleRow;
  files : gmap string (list Byte.byte);
  clock : N;
  network : list NetEvent;
  errors : list string
}.

Definition emptyWorld : World := mkWorld [] [] [] [] ∅ 0%N [] [].

(** A cell of a listing table, an image element, a row and a table as the
    extractor reads them through the DOM. *)
Record Img := mkImg {
  src : option string;
  parentHref : option string;
  alt : option string
}.

Record Row := mkRow {
  cells : list string;
  rowImgs : list Img
}.

Record Table := mkTable {
  rows : list Row;
  tableImgs : list Img
}.

Record Link := mkLink {
  text : string;
  href : string;
  category : string
}.

(** The remote site. *)
Record Remote := mkRemote {
  (** tables of a fetched model page; [None] is a network failure *)
  modelPage : string -> option (list Table);
  (** anchors of a fetched category page, text and href as parsed *)
  categoryPage : string -> option (list (string * option string));
  (** HEAD of an image: [None] a failure, else the content-length header *)
  headImage : string -> option (option string);
  (** body of an image *)
  getImage : string -> option (list Byte.byte)
}.

(* ===================================================================== *)
(** * State and exceptions                                                *)
(* ===================================================================== *)

Inductive Outcome (A : Type) :=
| Ok (a : A)
| Throw (msg : string).
Arguments Ok {A} a.
Arguments Throw {A} msg.

Definition M (A : Type) : Type := World -> Outcome A * World.

Definition ret {A} (a : A) : M A := fun w => (Ok a, w).
Definition throw {A} (msg : string) : M A := fun w => (Throw msg, w).

Definition bind {A B} (m : M A) (k : A -> M B) : M B :=
  fun w => match m w with
           | (Ok a, w') => k a w'
           | (Throw e, w') => (Throw e, w')
           end.

(** [try { body } catch (err) { handler }] *)
Definition tryCatch {A} (body : M A) (handler : string -> M A) : M A :=
  fun w => match body w with
           | (Ok a, w') => (Ok a, w')
           | (Throw e, w') => handler e w'
           end.

Definition gets {A} (f : World -> A) : M A := fun w => (Ok (f w), w).
Definition modify (f : World -> World) : M unit := fun w => (Ok tt, f w).

Notation "'let*' x ':=' m 'in' k" := (bind m (fun x => k))
  (at level 10, x name, m at level 100, k at level 200).
Notation "'let*' ' p ':=' m 'in' k" := (bind m (fun x => let 'p := x in k))
  (at level 10, p strict pattern, m at level 100, k at level 200).
Notation "'run' m 'then' k" := (bind m (fun _ => k))
  (at level 10, m at level 100, k at level 200).

(** [for (const x of xs) body] *)
Fixpoint forEach {A} (xs : list A) (body : A -> M unit) : M unit :=
  match xs with
  | [] => ret tt
  | x :: r => run body x then forEach r body
  end.

Definition world_of {A} (r : Outcome A * World) : World := snd r.

Definition set_parts (f : list PartRow -> list PartRow) (w : World) : World :=
  mkWorld (f (parts w)) (parts_history w) (part_images w) (motorcycles w)
          (files w) (clock w) (network w) (errors w).
Definition set_history (f : list HistoryRow -> list HistoryRow) (w : World) : World :=
  mkWorld (parts w) (f (parts_history w)) (part_images w) (motorcycles w)
          (files w) (clock w) (network w) (errors w).
Definition set_images (f : list ImageRow -> list ImageRow) (w : World) : World :=
  mkWorld (parts w) (parts_history w) (f (part_images w)) (motorcycles w)
          (files w) (clock w) (network w) (errors w).
Definition set_motorcycles (f : list MotorcycleRow -> list MotorcycleRow) (w : World) : World :=
  mkWorld (parts w) (parts_history w) (part_images w) (f (motorcycles w))
          (files w) (clock w) (network w) (errors w).
Definition set_files (f : gmap string (list Byte.byte) -> gmap string (list Byte.byte)) (w : World) : World :=
  mkWorld (parts w) (parts_history w) (part_images w) (motorcycles w)
          (f (files w)) (clock w) (network w) (errors w).
Definition set_clock (f : N -> N) (w : World) : World :=
  mkWorld (parts w) (parts_history w) (part_images w) (motorcycles w)
          (files w) (f (clock w)) (network w) (errors w).
Definition set_network (f : list NetEvent -> list NetEvent) (w : World) : World :=
  mkWorld (parts w) (parts_history w) (part_images w) (motorcycles w)
          (files w) (clock w) (f (network w)) (errors w).
Definition set_errors (f : list string -> list string) (w : World) : World :=
  mkWorld (parts w) (parts_history w) (part_images w) (motorcycles w)
          (files w) (clock w) (network w) (f (errors w)).

(** [console.error] *)
Definition consoleError (line : string) : M unit :=
  modify (set_errors (fun l => l ++ [line])).

(** [Date.now()]: the clock is read and moves on. *)
Definition dateNow : M N :=
  fun w => (Ok (clock w), set_clock N.succ w).

(** A request or a wait begins. *)
Definition begins (e : NetEvent) : M unit :=
  modify (set_network (fun l => l ++ [e])).

(* ===================================================================== *)
(** * Asset synchroniser (imageDownloader.js)                             *)
(* ===================================================================== *)

Definition digitsValue (ds : list ascii) : N :=
  fold_left (fun acc c => (10 * acc + (code c - 48))%N) ds 0%N.

Fixpoint takeDigits (l : list ascii) : list ascii :=
  match l with
  | c :: r => if isDigit c then c :: takeDigits r else []
  | [] => []
  end.

(** [Number.parseInt(raw, 10)] followed by the test
    [Number.isFinite(parsed) && parsed >= 0]. *)
Definition parseNonNegativeInt (raw : string) : option N :=
  let l := dropSpaces (chars raw) in
  let '(negative, l') :=
    match l with
    | c :: r => if Ascii.eqb c "-"%char then (true, r)
                else if Ascii.eqb c "+"%char then (false, r) else (false, l)
    | [] => (false, l)
    end in
  match takeDigits l' with
  | [] => None
  | ds => let v := digitsValue ds in
          if negative && negb (v =? 0)%N then None else Some v
  end.

Definition parseContentLength (header : option string) : option N :=
  match header with
  | Some raw => if truthy raw then parseNonNegativeInt raw else None
  | None => None
  end.

(** The HEAD probe; it takes no cancellation signal. *)
Definition getRemoteImageSize (net : Remote) (imageUrl : string) : M (option N) :=
  run begins (HeadImage imageUrl) then
  match headImage net imageUrl with
  | Some header => ret (parseContentLength header)
  | None => ret None
  end.

Definition fileSize (content : list Byte.byte) : N := N.of_nat (length content).

Definition getLocalFileSize (filepath : string) : M (option N) :=
  gets (fun w => fileSize <$> files w !! filepath).

Definition isSlash (c : ascii) : bool := Ascii.eqb c "/"%char.
Definition isBackslash (c : ascii) : bool := Ascii.eqb c "\"%char.

(** [replace(/\\/g, '/')] *)
Definition slashes (s : string) : string :=
  str (map (fun c => if isBackslash c then "/"%char else c) (chars s)).

Fixpoint dropSlashes (l : list ascii) : list ascii :=
  match l with
  | c :: r => if isSlash c then dropSlashes r else l
  | [] => []
  end.

Definition notDots (seg : string) : bool :=
  negb (String.eqb seg ".") && negb (String.eqb seg "..").

Definition getLocalImagePathFromUrl `{Platform} (imageUrl : string) : option string :=
  match decodedPathname imageUrl with
  | Some pathname =>
      let normalized := slashes pathname in
      let relative :=
        match indexOf (toLowerCase normalized) "/images/" with
        | Some idx => str (skipn (idx + 8) (chars normalized))
        | None => str (dropSlashes (chars normalized))
        end in
      let safeRelative :=
        join "/" (List.filter notDots (List.filter truthy (split isSlash relative))) in
      if truthy safeRelative then Some safeRelative else None
  | None => None
  end.

(** [path.parse] of a relative path: directory, name and extension. *)
Fixpoint breakAt (stop : ascii -> bool) (l : list ascii) : list ascii * option (list ascii) :=
  match l with
  | [] => ([], None)
  | c :: r => if stop c then ([], Some r)
              else let '(a, b) := breakAt stop r in (c :: a, b)
  end.

Definition isDot (c : ascii) : bool := Ascii.eqb c "."%char.

Definition parsePath (p : string) : string * string * string :=
  let '(baseRev, dirRev) := breakAt isSlash (rev (chars p)) in
  let dir := str (rev (default [] dirRev)) in
  match breakAt isDot baseRev with
  | (extRev, Some (c :: nameRev)) =>
      (dir, str (rev (c :: nameRev)), str ("."%char :: rev extRev))
  | _ => (dir, str (rev baseRev), EmptyString)
  end.

(** [path.basename] *)
Definition basename (p : string) : string :=
  str (rev (fst (breakAt isSlash (rev (chars p))))).

Definition decimal (n : N) : string := pretty n.

(** [path.join('_history', parsed.dir, `${parsed.name}__${Date.now()}${parsed.ext}`)] *)
Definition historyRelative (relative : string) (now : N) : string :=
  let '(dir, name, ext) := parsePath relative in
  let file := name +:+ "__" +:+ decimal now +:+ ext in
  if truthy dir then "_history/" +:+ dir +:+ "/" +:+ file else "_history/" +:+ file.

Definition displayPath (relative : string) : string := "images/" +:+ slashes relative.

(** The body GET; it takes no cancellation signal. *)
Definition axiosGetImage (net : Remote) (imageUrl : string) : M (list Byte.byte) :=
  run begins (GetImage imageUrl) then
  match getImage net imageUrl with
  | Some data => ret data
  | None => throw "Request failed"
  end.

Definition copyFile (from to : string) : M unit :=
  fun w => match files w !! from with
           | Some content => (Ok tt, set_files (insert to content) w)
           | None => (Throw "ENOENT: no such file or directory", w)
           end.

Definition writeFile (filepath : string) (data : list Byte.byte) : M unit :=
  modify (set_files (insert filepath data)).

Definition downloadImage `{Platform} (net : Remote) (imageUrl : string) : M (option Download) :=
  tryCatch
    (let* relative :=
       match getLocalImagePathFromUrl imageUrl with
       | Some relative => ret relative
       | None => throw ("Unable to derive local path from URL: " +:+ imageUrl)
       end in
     let filepath := relative in
     let* localSize := getLocalFileSize filepath in
     let* remoteSize := getRemoteImageSize net imageUrl in
     if bool_decide (localSize ≠ None ∧ remoteSize ≠ None ∧ localSize = remoteSize) then
       ret (Some (mkDownload (basename relative) (displayPath relative)
                             (default 0%N localSize) skipped_unchanged None))
     else
       let* data := axiosGetImage net imageUrl in
       if bool_decide (localSize = Some (fileSize data)) then
         ret (Some (mkDownload (basename relative) (displayPath relative)
                               (default 0%N localSize) skipped_unchanged None))
       else
         let* previousFilepath :=
           match localSize with
           | Some _ =>
               let* now := dateNow in
               let history := historyRelative relative now in
               run copyFile filepath history then
               ret (Some ("images/" +:+ slashes history))
           | None => ret None
           end in
         run writeFile filepath data then
         ret (Some (mkDownload (basename relative) (displayPath relative)
                               (fileSize data)
                               (if localSize is None then downloaded_new else downloaded_updated)
                               previousFilepath)))
    (fun message =>
       run consoleError ("Failed to download image from " +:+ imageUrl +:+ ": " +:+ message) then
       ret None).

Definition exampleRemote (body : string -> option (list Byte.byte)) : Remote :=
  mkRemote (fun _ => None) (fun _ => None) (fun _ => None) body.

(* ===================================================================== *)
(** * Persistence: the statements the scraper issues                      *)
(* ===================================================================== *)

(** A JavaScript [Set] of strings, in insertion order. *)
Definition setAdd (s : list string) (x : string) : list string :=
  if bool_decide (x ∈ s) then s else s ++ [x].

Definition newSet (l : list string) : list string := fold_left setAdd l [].

(** [SELECT * FROM parts WHERE motorcycle_id = ? AND part_number = ?] *)
Definition selectPartByNumber (motorcycleId partNumber : string) : M (option PartRow) :=
  gets (fun w =>
    List.find (fun r => String.eqb (p_motorcycle_id r) motorcycleId
                        && String.eqb (p_part_number r) partNumber) (parts w)).

(** [SELECT * FROM parts WHERE motorcycle_id = ? AND name = ?] *)
Definition selectPartByName (motorcycleId name : string) : M (option PartRow) :=
  gets (fun w =>
    List.find (fun r => String.eqb (p_motorcycle_id r) motorcycleId
                        && String.eqb (p_name r) name) (parts w)).

Definition hasPartId (id : string) (rows : list PartRow) : bool :=
  existsb (fun r => String.eqb (p_id r) id) rows.

(** [INSERT INTO parts (id, motorcycle_id, name, part_number, description,
    price, currency, image_url, image_path, url, scraped_at)]; the other
    columns take their defaults. [part_number] is NOT NULL and [id] is the
    primary key. *)
Definition insertPart (id motorcycleId name : string) (partNumber : option string)
    (description : string) (price : Z) (currency : string)
    (image_url image_path : option string) (url scraped_at : string) : M unit :=
  fun w =>
    match partNumber with
    | None => (Throw "SQLITE_CONSTRAINT: NOT NULL constraint failed: parts.part_number", w)
    | Some part_number =>
        if hasPartId id (parts w)
        then (Throw "SQLITE_CONSTRAINT: UNIQUE constraint failed: parts.id", w)
        else (Ok tt, set_parts (fun rows => rows ++
                [mkPart id motorcycleId name part_number (Some description) (Some price)
                        (Some currency) image_url image_path url (Some scraped_at)
                        None 0 None]) w)
    end.

Definition imgBefore (a b : ImageRow) : bool :=
  (pi_sort_order a <? pi_sort_order b)
  || ((pi_sort_order a =? pi_sort_order b) && (pi_id a <? pi_id b)%N).

(** [ORDER BY sort_order ASC, id ASC LIMIT 1] *)
Definition firstImage (l : list ImageRow) : option ImageRow :=
  fold_left (fun best r =>
               match best with
               | None => Some r
               | Some b => if imgBefore r b then Some r else Some b
               end) l None.

(** The sub-select of the closing update: the local path the asset table
    holds for the row's own image URL. *)
Definition storedAssetPath (images : list ImageRow) (r : PartRow) : option string :=
  match p_image_url r with
  | Some url =>
      match firstImage (List.filter (fun i => String.eqb (pi_part_id i) (p_id r)
                                             && String.eqb (pi_image_url i) url
                                             && bool_decide (is_Some (pi_image_path i)))
                                  images) with
      | Some i => pi_image_path i
      | None => None
      end
  | None => None
  end.

Definition touched (images : list ImageRow) (ts : string) (r : PartRow) : PartRow :=
  mkPart (p_id r) (p_motorcycle_id r) (p_name r) (p_part_number r) (p_description r)
         (p_price r) (p_currency r) (p_image_url r)
         (match storedAssetPath images r with Some p => Some p | None => p_image_path r end)
         (p_url r) (p_scraped_at r) (Some ts) 0 None.

(** [UPDATE parts SET image_path = COALESCE((SELECT ...), image_path),
    last_seen = ?, is_deleted = 0, deleted_at = NULL WHERE id = ?] *)
Definition touchPart (ts id : string) : M unit :=
  modify (fun w =>
    set_parts (map (fun r => if String.eqb (p_id r) id
                             then touched (part_images w) ts r else r)) w).

(** [UPDATE parts SET name = ?, description = ?, price = ?, currency = ?,
    image_url = ?, image_path = ?, url = ?, scraped_at = ? WHERE id = ?] *)
Definition updatePart (name description : string) (price : Z) (currency : string)
    (image_url image_path : option string) (url scraped_at id : string) : M unit :=
  modify (set_parts (map (fun r =>
    if String.eqb (p_id r) id
    then mkPart (p_id r) (p_motorcycle_id r) name (p_part_number r) (Some description)
                (Some price) (Some currency) image_url image_path url (Some scraped_at)
                (p_last_seen r) (p_is_deleted r) (p_deleted_at r)
    else r))).

(** [INSERT INTO parts_history (...)]; [url] is NOT NULL. *)
Definition insertHistory (part_id motorcycle_id name part_number : string)
    (description : option string) (price : option Z) (currency : option string)
    (image_url image_path : option string) (url : option string)
    (event : HistoryEvent) (is_deleted : Z) (deleted_at : option string)
    (recorded_at : string) : M unit :=
  fun w =>
    match url with
    | None => (Throw "SQLITE_CONSTRAINT: NOT NULL constraint failed: parts_history.url", w)
    | Some url =>
        (Ok tt, set_history (fun rows => rows ++
           [mkHistory part_id motorcycle_id name part_number description price currency
                      image_url image_path url event is_deleted deleted_at recorded_at]) w)
    end.

Definition nextImageId (images : list ImageRow) : N :=
  N.succ (fold_left N.max (map pi_id images) 0%N).

(** [INSERT OR IGNORE INTO part_images (part_id, image_url, image_path,
    sort_order)], with UNIQUE(part_id, image_url). *)
Definition insertImageOrIgnore (partId imageUrl : string) (imagePath : option string)
    (sortOrder : Z) : M unit :=
  modify (set_images (fun images =>
    if existsb (fun i => String.eqb (pi_part_id i) partId
                         && String.eqb (pi_image_url i) imageUrl) images
    then images
    else images ++ [mkImage (nextImageId images) partId imageUrl imagePath sortOrder])).

(** [UPDATE part_images SET image_path = ? WHERE part_id = ? AND image_url = ?] *)
Definition updateImagePath (imagePath partId imageUrl : string) : M unit :=
  modify (set_images (map (fun i =>
    if String.eqb (pi_part_id i) partId && String.eqb (pi_image_url i) imageUrl
    then mkImage (pi_id i) (pi_part_id i) (pi_image_url i) (Some imagePath) (pi_sort_order i)
    else i))).

(* ===================================================================== *)
(** * Change tracker (scraper.js)                                         *)
(* ===================================================================== *)

Fixpoint syncEach `{Platform} (net : Remote) (partId : string) (downloadImages : bool)
    (urls : list string) (i : Z) (results : list ImageResult) : M (list ImageResult) :=
  match urls with
  | [] => ret results
  | imageUrl :: rest =>
      let* dl := if downloadImages then downloadImage net imageUrl else ret None in
      let found := match dl with
                   | Some d => if truthy (filepath d) then Some d else None
                   | None => None
                   end in
      let imagePath := filepath <$> found in
      run insertImageOrIgnore partId imageUrl imagePath i then
      run match imagePath with
          | Some path => updateImagePath path partId imageUrl
          | None => ret tt
          end then
      let results' :=
        match found with
        | Some d => results ++ [mkImageResult imageUrl (filepath d) (size d) (status d)
                                              (orNull (previous_filepath d))]
        | None => results
        end in
      syncEach net partId downloadImages rest (i + 1) results'
  end.

Definition syncPartImages `{Platform} (net : Remote) (partId : string)
    (imageUrls : list string) (downloadImages : bool) : M (list ImageResult) :=
  let uniqueUrls := newSet (List.filter truthy imageUrls) in
  syncEach net partId downloadImages uniqueUrls 0 [].

Inductive Field := f_price | f_name | f_description | f_image.

(** The keys of the [changes] object. *)
Definition changes (existing : PartRow) (part : ExtractedPart) : list Field :=
  (if bool_decide (default 0 (p_price existing) ≠ price part) then [f_price] else [])
  ++ (if bool_decide (p_name existing ≠ name part) then [f_name] else [])
  ++ (if bool_decide (orEmpty (p_description existing) ≠ description part)
      then [f_description] else [])
  ++ (if bool_decide (orEmpty (p_image_url existing) ≠ orEmpty (imageUrl part))
      then [f_image] else []).

Definition isUpdated (img : ImageResult) : bool :=
  if r_status img is downloaded_updated then true else false.

Definition imageContentChanged (imageResults : list ImageResult) : bool :=
  existsb isUpdated imageResults.

Definition statusChanged (existing : PartRow) : bool :=
  negb (p_is_deleted existing =? 0).

Definition isPrimaryBackup (existing : PartRow) (img : ImageResult) : bool :=
  isUpdated img
  && bool_decide (is_Some (orNull (r_previousPath img)))
  && (bool_decide (orNull (p_image_url existing) = Some (r_url img))
      || bool_decide (orNull (p_image_path existing) = Some (r_path img))).

Definition historyImagePath (existing : PartRow) (imageResults : list ImageResult)
    : option string :=
  match List.find (isPrimaryBackup existing) imageResults with
  | Some img => match orNull (r_previousPath img) with
                | Some p => Some p
                | None => p_image_path existing
                end
  | None => p_image_path existing
  end.

(** [part.partNumber || part.name] *)
Definition idSeed (part : ExtractedPart) : string := orElse (partNumber part) (name part).

Definition partIdOf (motorcycleId : string) (part : ExtractedPart) : string :=
  generateId (motorcycleId +:+ "-" +:+ idSeed part).

Definition orNullS (s : string) : option string := if truthy s then Some s else None.

(** The body of the loop over the unique parts, after the id was pushed. *)
Definition trackPart `{Platform} (net : Remote) (motorcycleId pageUrl scrapeTimestamp : string)
    (downloadImages : bool) (part : ExtractedPart) : M unit :=
  let partId := partIdOf motorcycleId part in
  let* existing :=
    if truthy (partNumber part)
    then selectPartByNumber motorcycleId (partNumber part)
    else selectPartByName motorcycleId (name part) in
  match existing with
  | None =>
      tryCatch
        (let image_path := None in
         let image_url := orNull (imageUrl part) in
         run insertPart partId motorcycleId (name part) (orNullS (partNumber part))
                        (description part) (price part) (currency part)
                        image_url image_path pageUrl scrapeTimestamp then
         let* imageResults := syncPartImages net partId (imageUrls part) downloadImages in
         touchPart scrapeTimestamp partId)
        (fun _ => ret tt)
  | Some existing =>
      tryCatch
        (let changes := changes existing part in
         let* imageResults :=
           syncPartImages net (p_id existing) (imageUrls part) downloadImages in
         let imageContentChanged := imageContentChanged imageResults in
         let statusChanged := statusChanged existing in
         run (if negb (bool_decide (changes = [])) || imageContentChanged || statusChanged then
                let historyImagePath := historyImagePath existing imageResults in
                run insertHistory (p_id existing) (p_motorcycle_id existing) (p_name existing)
                      (p_part_number existing) (p_description existing) (p_price existing)
                      (p_currency existing) (p_image_url existing) historyImagePath
                      (Some (p_url existing))
                      (if statusChanged then restored else updated)
                      (p_is_deleted existing) (orNull (p_deleted_at existing))
                      scrapeTimestamp then
                let image_path := p_image_path existing in
                let image_url := match orNull (imageUrl part) with
                                 | Some u => Some u
                                 | None => p_image_url existing
                                 end in
                updatePart (name part) (description part) (price part) (currency part)
                           image_url image_path pageUrl scrapeTimestamp (p_id existing)
              else ret tt) then
         touchPart scrapeTimestamp (p_id existing))
        (fun message => consoleError ("Error updating existing part: " +:+ message))
  end.

Record ScrapeResult := mkResult {
  count : nat;
  seenPartIds : list string
}.

Fixpoint trackParts `{Platform} (net : Remote) (motorcycleId pageUrl scrapeTimestamp : string)
    (downloadImages : bool) (uniqueParts : list ExtractedPart) (seenPartIds : list string)
    : M (list string) :=
  match uniqueParts with
  | [] => ret seenPartIds
  | part :: rest =>
      let seenPartIds := seenPartIds ++ [partIdOf motorcycleId part] in
      run trackPart net motorcycleId pageUrl scrapeTimestamp downloadImages part then
      trackParts net motorcycleId pageUrl scrapeTimestamp downloadImages rest seenPartIds
  end.

(* --------------------------------------------------------------------- *)
(** ** Tombstone reconciliation                                           *)
(* --------------------------------------------------------------------- *)

(** [ORDER BY name ASC, id ASC] *)
Definition rowBefore (a b : PartRow) : bool :=
  match String.compare (p_name a) (p_name b) with
  | Lt => true
  | Eq => String.leb (p_id a) (p_id b)
  | Gt => false
  end.

Fixpoint insertSorted (r : PartRow) (l : list PartRow) : list PartRow :=
  match l with
  | [] => [r]
  | x :: rest => if rowBefore r x then r :: l else x :: insertSorted r rest
  end.

Definition orderByNameId (l : list PartRow) : list PartRow :=
  fold_right insertSorted [] l.

(** [WHERE motorcycle_id = ? AND id NOT IN (...) AND is_deleted = 0] *)
Definition unseenLive (motorcycleId : string) (seen : list string) (r : PartRow) : bool :=
  String.eqb (p_motorcycle_id r) motorcycleId
  && negb (bool_decide (p_id r ∈ seen))
  && (p_is_deleted r =? 0).

(** [WHERE motorcycle_id = ? AND is_deleted = 0] *)
Definition live (motorcycleId : string) (r : PartRow) : bool :=
  String.eqb (p_motorcycle_id r) motorcycleId && (p_is_deleted r =? 0).

Definition flagDeleted (ts : string) (r : PartRow) : PartRow :=
  mkPart (p_id r) (p_motorcycle_id r) (p_name r) (p_part_number r) (p_description r)
         (p_price r) (p_currency r) (p_image_url r) (p_image_path r) (p_url r)
         (p_scraped_at r) (p_last_seen r) 1 (Some ts).

(** [UPDATE parts SET is_deleted = 1, deleted_at = ? WHERE ...] *)
Definition softDelete (ts : string) (cond : PartRow -> bool) : M unit :=
  modify (set_parts (map (fun r => if cond r then flagDeleted ts r else r))).

Definition markDeletedParts `{Platform} (motorcycleId : string) (seenPartIds : list string)
    (scrapeTimestampInput : option string) : M unit :=
  let* scrapeTimestamp :=
    match orNull scrapeTimestampInput with
    | Some ts => ret ts
    | None => let* now := dateNow in ret (toDbLocalTimestamp None now)
    end in
  let safeSeenPartIds := seenPartIds in
  let* deletedRows :=
    if (0 <? length safeSeenPartIds)%nat
    then gets (fun w => orderByNameId
                          (List.filter (unseenLive motorcycleId safeSeenPartIds) (parts w)))
    else gets (fun w => orderByNameId (List.filter (live motorcycleId) (parts w))) in
  if (length deletedRows =? 0)%nat then ret tt else
  run forEach deletedRows (fun row =>
        insertHistory (p_id row) motorcycleId (p_name row) (p_part_number row)
          (Some (orEmpty (p_description row))) (p_price row)
          (Some (orElse (orEmpty (p_currency row)) "EUR"))
          (orNull (p_image_url row)) (orNull (p_image_path row))
          (orNullS (p_url row))
          deleted (p_is_deleted row) (orNull (p_deleted_at row)) scrapeTimestamp) then
  if (0 <? length safeSeenPartIds)%nat
  then softDelete scrapeTimestamp (unseenLive motorcycleId safeSeenPartIds)
  else softDelete scrapeTimestamp (live motorcycleId).

(* ===================================================================== *)
(** * Record extractor (scraper.js, scrapeParts)                          *)
(* ===================================================================== *)

Definition nbsp1 : ascii := ascii_of_N 194.
Definition nbsp2 : ascii := ascii_of_N 160.

(** [replace(/ /g, ' ')] on the UTF-8 bytes *)
Fixpoint unNbsp (l : list ascii) : list ascii :=
  match l with
  | a :: ((b :: r) as t) =>
      if Ascii.eqb a nbsp1 && Ascii.eqb b nbsp2 then " "%char :: unNbsp r else a :: unNbsp t
  | _ => l
  end.

(** [replace(/\s+/g, ' ')] *)
Fixpoint squashSpaces (l : list ascii) (inRun : bool) : list ascii :=
  match l with
  | [] => []
  | c :: r =>
      if isSpace c then (if inRun then squashSpaces r true else " "%char :: squashSpaces r true)
      else c :: squashSpaces r false
  end.

Definition cleanText (value : string) : string :=
  trim (str (squashSpaces (unNbsp (chars value)) false)).

(** [/^OSA$/i.test(t)] *)
Definition isOsa (t : string) : bool := String.eqb (toUpperCase t) "OSA".

(** [/^\-+$/.test(t)] *)
Definition isDashes (t : string) : bool :=
  truthy t && forallb (Ascii.eqb "-"%char) (chars t).

Definition texts (row : Row) : list string := map cleanText (cells row).

Definition hasOsa (ts : list string) : bool :=
  existsb (fun t => isOsa t || startsWith (toUpperCase t) "OSA") ts.

(** A row at which the inner loop stops: it has cells and one of them is
    exactly the marker. *)
Definition startsBlock (row : Row) : bool := existsb isOsa (texts row).

Fixpoint skipSpaces (l : list ascii) : list ascii :=
  match l with
  | c :: r => if isSpace c then skipSpaces r else l
  | [] => []
  end.

Definition isSep (c : ascii) : bool := Ascii.eqb c ","%char || Ascii.eqb c "."%char.

Definition eur : list ascii := chars "EUR".

(** Hundredths denoted by the digits before and after the separator. *)
Definition hundredths (whole frac : list ascii) : Z :=
  Z.of_N (digitsValue whole) * 100
  + match frac with
    | [d] => Z.of_N (digitsValue [d]) * 10
    | _ => Z.of_N (digitsValue frac)
    end.

(** One attempt of [/(\d+(?:[,\.]\d{1,2})?)\s*EUR/] at the head of [l],
    in the order the matcher tries the alternatives: two fraction digits,
    one, none. Giving back digits of [\d+] cannot succeed, the next
    character being a digit. The result is
    [parseFloat(match[1].replace(',', '.'))]. *)
Definition priceAt (l : list ascii) : option Z :=
  match takeDigits l with
  | [] => None
  | whole =>
      let rest := skipn (length whole) l in
      let plain := if prefixOf eur (skipSpaces rest) then Some (hundredths whole []) else None in
      match rest with
      | sep :: d1 :: after1 =>
          if isSep sep && isDigit d1 then
            match after1 with
            | d2 :: after2 =>
                if isDigit d2 && prefixOf eur (skipSpaces after2)
                then Some (hundredths whole [d1; d2])
                else if prefixOf eur (skipSpaces after1)
                     then Some (hundredths whole [d1]) else plain
            | [] => plain
            end
          else plain
      | _ => plain
      end
  end.

(** Leftmost match. *)
Fixpoint searchPrice (l : list ascii) : option Z :=
  match priceAt l with
  | Some v => Some v
  | None => match l with
            | [] => None
            | _ :: r => searchPrice r
            end
  end.

Definition matchPrice (s : string) : option Z := searchPrice (chars s).

(** [[A-Z0-9._-]] under the [i] flag *)
Definition isPartNumberChar (c : ascii) : bool :=
  isUpper c || isLower c || isDigit c
  || Ascii.eqb c "."%char || Ascii.eqb c "_"%char || Ascii.eqb c "-"%char.

Fixpoint takeClass (cls : ascii -> bool) (l : list ascii) : list ascii :=
  match l with
  | c :: r => if cls c then c :: takeClass cls r else []
  | [] => []
  end.

Definition nonEmpty (l : list ascii) : option string :=
  match l with [] => None | _ => Some (str l) end.

(** One attempt of [/OSANRO\s*[:\-]?\s*([A-Z0-9._-]+)/i] at the head of
    [l]: the optional separator is taken first and given back when the
    rest fails. *)
Definition partNumberAt (l : list ascii) : option string :=
  if prefixOf (chars "OSANRO") (map upperChar l) then
    let rest := skipSpaces (skipn 6 l) in
    match rest with
    | c :: r =>
        if Ascii.eqb c ":"%char || Ascii.eqb c "-"%char then
          match nonEmpty (takeClass isPartNumberChar (skipSpaces r)) with
          | Some m => Some m
          | None => nonEmpty (takeClass isPartNumberChar rest)
          end
        else nonEmpty (takeClass isPartNumberChar rest)
    | [] => None
    end
  else None.

Fixpoint searchPartNumber (l : list ascii) : option string :=
  match partNumberAt l with
  | Some m => Some m
  | None => match l with
            | [] => None
            | _ :: r => searchPartNumber r
            end
  end.

(** [imageAlt.match(/RS\d+/)] *)
Fixpoint searchRs (l : list ascii) : option string :=
  match l with
  | [] => None
  | c :: r =>
      if prefixOf (chars "RS") l then
        match takeDigits (skipn 2 l) with
        | [] => searchRs r
        | ds => Some (str (chars "RS" ++ ds))
        end
      else searchRs r
  end.

Definition A_umlaut : string := str [ascii_of_N 195; ascii_of_N 132].

(** The fields gathered from the rows of a block. *)
Record BlockFields := mkFields {
  b_partNumber : string;
  b_description : string;
  b_price : Z
}.

(** One turn of the inner loop, on a row that does not start a block. *)
Definition readRow (acc : BlockFields) (crow : Row) : BlockFields :=
  if (length (cells crow) =? 0)%nat then acc else
  let ctexts := texts crow in
  let label := toUpperCase (nth 0 ctexts EmptyString) in
  let rowText := trim (join " " ctexts) in
  let partNumber :=
    if negb (truthy (b_partNumber acc)) && includes label "OSANRO" then
      let direct := nth 1 ctexts EmptyString in
      if truthy direct then direct
      else match searchPartNumber (chars rowText) with
           | Some m => if String.eqb m "0" then EmptyString else m
           | None => EmptyString
           end
    else b_partNumber acc in
  let description :=
    if negb (truthy (b_description acc))
       && (includes label ("LIS" +:+ A_umlaut +:+ "TIEDOT") || includes label "LISATIEDOT")
    then orElse (nth 1 ctexts EmptyString) (cleanText (join " " (skipn 1 ctexts)))
    else b_description acc in
  let price :=
    match matchPrice (join " " ctexts) with
    | Some v => v
    | None => b_price acc
    end in
  mkFields partNumber description price.

Fixpoint takeBody (rest : list Row) : list Row :=
  match rest with
  | [] => []
  | crow :: more => if startsBlock crow then [] else crow :: takeBody more
  end.

Definition siteRoot : string := "https://www.purkuosat.net/".

Definition resolveUrl `{Platform} (src base : string) : option string :=
  if negb (truthy src) then None
  else if startsWith src "http" then Some src
  else if startsWith src "//" then Some ("https:" +:+ src)
  else match resolveAgainst src base with
       | Some u => Some u
       | None => Some (siteRoot +:+ str (match chars src with
                                         | c :: r => if isSlash c then r else c :: r
                                         | [] => []
                                         end))
       end.

(** [if (x) imageCandidates.add(resolveUrl(x, pageUrl))] *)
Definition addCandidate `{Platform} (pageUrl : string) (candidates : list string)
    (x : string) : list string :=
  if truthy x then setAdd candidates (orEmpty (resolveUrl x pageUrl)) else candidates.

Record ImageChoice := mkChoice {
  c_imageUrl : string;
  c_imageAlt : string;
  c_candidates : list string
}.

(** Policy 1: the images of the whole table. *)
Definition fromTable `{Platform} (pageUrl : string) (table : Table) : ImageChoice :=
  match tableImgs table with
  | [] => mkChoice EmptyString EmptyString []
  | first :: _ =>
      let candidates :=
        fold_left (fun cs img =>
                     addCandidate pageUrl (addCandidate pageUrl cs (orEmpty (parentHref img)))
                                  (orEmpty (src img)))
                  (tableImgs table) [] in
      mkChoice (nth 0 candidates EmptyString) (orEmpty (alt first)) candidates
  end.

(** Policies 2 and 3: the first image of a row. *)
Definition fromRow `{Platform} (pageUrl : string) (row : Row) (c : ImageChoice) : ImageChoice :=
  match rowImgs row with
  | [] => c
  | img :: _ =>
      let src := orEmpty (src img) in
      let parentHref := orEmpty (parentHref img) in
      mkChoice (if truthy parentHref then parentHref else src) (orEmpty (alt img))
               (addCandidate pageUrl (addCandidate pageUrl (c_candidates c) parentHref) src)
  end.

(** The loop over the rows of the block, left at the first row that has an
    image. *)
Fixpoint fromBody `{Platform} (pageUrl : string) (body : list Row) (c : ImageChoice)
    : ImageChoice :=
  match body with
  | [] => c
  | r2 :: more =>
      match rowImgs r2 with
      | [] => fromBody pageUrl more c
      | _ => fromRow pageUrl r2 c
      end
  end.

Definition chooseImage `{Platform} (pageUrl : string) (table : Table) (row : Row)
    (body : list Row) : ImageChoice :=
  let c1 := fromTable pageUrl table in
  let c2 := if truthy (c_imageUrl c1) then c1 else fromRow pageUrl row c1 in
  if truthy (c_imageUrl c2) then c2 else fromBody pageUrl body c2.

(** A detected block: the marker row and the rows up to the next marker. *)
Record Block := mkBlock {
  marker : Row;
  body : list Row
}.

(** [texts.reverse().find(t => t && !/^\-+$/.test(t)) || ''] *)
Definition blockName (b : Block) : string :=
  default EmptyString
    (List.find (fun t => truthy t && negb (isDashes t)) (rev (texts (marker b)))).

Definition blockFields (b : Block) : BlockFields :=
  fold_left readRow (body b) (mkFields EmptyString EmptyString 0).

Definition blockPrice (b : Block) : Z := b_price (blockFields b).

(** What the block pushes onto [parts]. *)
Definition emit `{Platform} (pageUrl : string) (table : Table) (b : Block)
    : list ExtractedPart :=
  let name := blockName b in
  let f := blockFields b in
  if truthy name && (0 <? b_price f) then
    let c := chooseImage pageUrl table (marker b) (body b) in
    [ mkExtracted (trim name)
        (orElse (b_partNumber f)
                (if truthy (c_imageAlt c)
                 then default EmptyString (searchRs (chars (c_imageAlt c)))
                 else EmptyString))
        (trim (b_description f))
        (b_price f)
        "EUR"
        (if truthy (c_imageUrl c) then resolveUrl (c_imageUrl c) pageUrl else None)
        (c_candidates c) ]
  else [].

(** The loop over the rows of a table; [skip] counts the rows the inner
    loop has consumed ([i = j - 1]). *)
Fixpoint scanRows `{Platform} (pageUrl : string) (table : Table) (rows : list Row)
    (skip : nat) : list ExtractedPart :=
  match rows with
  | [] => []
  | row :: rest =>
      match skip with
      | S k => scanRows pageUrl table rest k
      | O =>
          if (length (cells row) =? 0)%nat then scanRows pageUrl table rest 0
          else if hasOsa (texts row) then
            let body := takeBody rest in
            emit pageUrl table (mkBlock row body)
              ++ scanRows pageUrl table rest (length body)
          else scanRows pageUrl table rest 0
      end
  end.

Definition extractParts `{Platform} (pageUrl : string) (tables : list Table)
    : list ExtractedPart :=
  flat_map (fun table => scanRows pageUrl table (rows table) 0) tables.

(** The candidate blocks of a table, in order. *)
Fixpoint blocksOf (rows : list Row) (skip : nat) : list Block :=
  match rows with
  | [] => []
  | row :: rest =>
      match skip with
      | S k => blocksOf rest k
      | O =>
          if negb (length (cells row) =? 0)%nat && hasOsa (texts row)
          then mkBlock row (takeBody rest) :: blocksOf rest (length (takeBody rest))
          else blocksOf rest 0
      end
  end.

(** Merging of the records that share a key, in a [Map] kept in insertion
    order. *)
Definition merge (current p : ExtractedPart) : ExtractedPart :=
  mkExtracted (name current) (partNumber current) (description current) (price current)
    (currency current)
    (match orNull (imageUrl current) with
     | Some u => imageUrl current
     | None => match orNull (imageUrl p) with Some u => Some u | None => imageUrl current end
     end)
    (newSet (imageUrls current ++ imageUrls p
             ++ match orNull (imageUrl p) with Some u => [u] | None => [] end)).

Fixpoint mapUpdate (key : string) (p : ExtractedPart)
    (m : list (string * ExtractedPart)) : option (list (string * ExtractedPart)) :=
  match m with
  | [] => None
  | (k, current) :: rest =>
      if String.eqb k key then Some ((k, merge current p) :: rest)
      else match mapUpdate key p rest with
           | Some rest' => Some ((k, current) :: rest')
           | None => None
           end
  end.

Definition dedupStep (m : list (string * ExtractedPart)) (p : ExtractedPart)
    : list (string * ExtractedPart) :=
  let key := idSeed p in
  match mapUpdate key p m with
  | Some m' => m'
  | None =>
      m ++ [(key, mkExtracted (name p) (partNumber p) (description p) (price p) (currency p)
                              (imageUrl p) (newSet (imageUrls p)))]
  end.

Definition uniqueParts (parts : list ExtractedPart) : list ExtractedPart :=
  map snd (fold_left dedupStep parts []).

(** The cancellation signal: [None] when the caller passes none, else the
    number of requests and waits after whose beginning it fires. *)
Definition Signal : Type := option nat.

Record Options := mkOptions {
  o_downloadImages : option bool;
  o_signal : Signal;
  o_scrapeTimestamp : option string;
  o_scrapeStartedAt : option string;
  o_maxLinksPerCategory : option Z
}.

(** [{ ...options, scrapeTimestamp }] *)
Definition withTimestamp (options : Options) (scrapeTimestamp : string) : Options :=
  mkOptions (o_downloadImages options) (o_signal options) (Some scrapeTimestamp)
            (o_scrapeStartedAt options) (o_maxLinksPerCategory options).

Definition resolveScrapeTimestamp `{Platform} (options : Options) : M string :=
  match orNull (o_scrapeTimestamp options) with
  | Some ts => ret ts
  | None => let* now := gets clock in
            ret (toDbLocalTimestamp (orNull (o_scrapeStartedAt options)) now)
  end.

(** [options.downloadImages !== false] *)
Definition wantsImages (options : Options) : bool :=
  negb (bool_decide (o_downloadImages options = Some false)).

Definition scrapeParts `{Platform} (net : Remote) (tables : list Table)
    (motorcycleId pageUrl : string) (options : Options) : M ScrapeResult :=
  let downloadImages := wantsImages options in
  let* scrapeTimestamp := resolveScrapeTimestamp options in
  let parts := extractParts pageUrl tables in
  let uniqueParts := uniqueParts parts in
  let* seenPartIds :=
    trackParts net motorcycleId pageUrl scrapeTimestamp downloadImages uniqueParts [] in
  ret (mkResult (length uniqueParts) seenPartIds).

(* ===================================================================== *)
(** * Filters and identity (scraper.js)                                   *)
(* ===================================================================== *)

(** The scrape form of the front end:
    [input.split(',').map(s => s.trim()).filter(Boolean)] *)
Definition brandsOfInput (scrapeBrandsInput : string) : list string :=
  List.filter truthy (map trim (split (Ascii.eqb ","%char) scrapeBrandsInput)).

Definition normalizeFilterList (allowedBrands : option (list string)) : list (list string) :=
  match allowedBrands with
  | None => []
  | Some brands =>
      List.filter (fun tokens => (0 <? length tokens)%nat)
        (map words (map (fun v => trim (replaceNonAlnum (toLowerCase v))) brands))
  end.

Definition matchesAllowedFilter (filters : list (list string))
    (linkText brand model : string) : bool :=
  if (length filters =? 0)%nat then true else
  let haystack :=
    trim (replaceNonAlnum (toLowerCase (linkText +:+ " " +:+ brand +:+ " " +:+ model))) in
  existsb (fun tokens => forallb (fun token => includes haystack token) tokens) filters.

Definition toBrandCase (value : string) : string :=
  let token := trim value in
  if negb (truthy token) then EmptyString
  else if (String.length token <=? 3)%nat then toUpperCase token
  else match token with
       | String c rest => toUpperCase (String c EmptyString) +:+ toLowerCase rest
       | EmptyString => EmptyString
       end.

Definition extractBrandModel (title : string) : string * string :=
  let cleaned := trim (str (squashSpaces (chars title) false)) in
  if negb (truthy cleaned) then ("Unknown"%string, "Unknown"%string) else
  let parts := List.filter truthy (split (Ascii.eqb " "%char) cleaned) in
  let brand := toBrandCase (nth 0 parts EmptyString) in
  let model := trim (join " " (skipn 1 parts)) in
  (orElse brand "Unknown", orElse model "Unknown").

Definition normalizeModelUrl `{Platform} (url : string) : string :=
  match withoutHash (trim url) with
  | Some u => u
  | None => trim url
  end.

(* ===================================================================== *)
(** * Crawl orchestrator (scraper.js)                                     *)
(* ===================================================================== *)

Definition aborted (signal : Signal) (w : World) : bool :=
  match signal with
  | Some n => (n <=? length (network w))%nat
  | None => false
  end.

Definition ensureNotAborted (signal : Signal) : M unit :=
  fun w => if aborted signal w then (Throw "Scrape aborted", w) else (Ok tt, w).

Definition waitOrAbort (ms : Z) (signal : Signal) : M unit :=
  if ms <=? 0 then ret tt else
  fun w => if aborted signal w then (Throw "Scrape aborted", w)
           else begins (Delay ms) w.

(** [axios.get(url, { signal })]: a fired signal cancels the request
    before it is sent. *)
Definition axiosGet {A} (signal : Signal) (url : string) (response : option A) : M A :=
  fun w => if aborted signal w then (Throw "canceled", w)
           else match response with
                | Some data => (Ok data, set_network (fun l => l ++ [GetPage url]) w)
                | None => (Throw "Network Error", set_network (fun l => l ++ [GetPage url]) w)
                end.

Definition updateMotorcycle (f : MotorcycleRow -> MotorcycleRow) (id : string) : M unit :=
  modify (set_motorcycles (map (fun r => if String.eqb (m_id r) id then f r else r))).

(** The vehicle a page belongs to: URL match, then id match, else a new
    row. *)
Definition resolveMotorcycle `{Platform} (link : Link) (brand model listingUrl
    scrapeTimestamp : string) : M string :=
  let motorcycleId := generateId (brand +:+ "-" +:+ model) in
  let* existingByUrl :=
    gets (fun w => List.find (fun r => String.eqb (m_url r) listingUrl) (motorcycles w)) in
  match existingByUrl with
  | Some existingByUrl =>
      let motorcycleId := m_id existingByUrl in
      run (if negb (String.eqb (m_brand existingByUrl) brand)
              || negb (String.eqb (m_model existingByUrl) model)
           then updateMotorcycle
                  (fun r => mkMotorcycle (m_id r) brand model (category link) (m_url r)
                                         (Some scrapeTimestamp)) motorcycleId
           else ret tt) then
      ret motorcycleId
  | None =>
      let* existingById :=
        gets (fun w => List.find (fun r => String.eqb (m_id r) motorcycleId) (motorcycles w)) in
      run match existingById with
          | Some _ =>
              updateMotorcycle
                (fun r => mkMotorcycle (m_id r) brand model (category link) listingUrl
                                       (Some scrapeTimestamp)) motorcycleId
          | None =>
              let* now := gets clock in
              modify (set_motorcycles (fun rows => rows ++
                [mkMotorcycle motorcycleId brand model (category link) listingUrl
                              (Some (currentTimestamp now))]))
          end then
      ret motorcycleId
  end.

Definition scrapeMotorcyclePage `{Platform} (net : Remote) (link : Link)
    (allowedBrands : option (list string)) (options : Options) : M unit :=
  tryCatch
    (let* scrapeTimestamp := resolveScrapeTimestamp options in
     run ensureNotAborted (o_signal options) then
     let listingUrl := normalizeModelUrl (href link) in
     let* response := axiosGet (o_signal options) listingUrl (modelPage net listingUrl) in
     let '(brand, model) := extractBrandModel (text link) in
     let filters := normalizeFilterList allowedBrands in
     if negb (matchesAllowedFilter filters (text link) brand model) then ret tt else
     let* motorcycleId := resolveMotorcycle link brand model listingUrl scrapeTimestamp in
     let* result := scrapeParts net response motorcycleId listingUrl
                                (withTimestamp options scrapeTimestamp) in
     markDeletedParts motorcycleId (seenPartIds result) (Some scrapeTimestamp))
    (fun message =>
       consoleError ("Error scraping " +:+ text link +:+ ": " +:+ message)).

Definition categoryUrl : string := "https://www.purkuosat.net/lista.htm".

Definition O_umlaut : string := str [ascii_of_N 195; ascii_of_N 150].

(** Link texts that are not model pages:
    [/^(PURKUO|Home|TARVIKE|...|Pakoputki)/i] *)
Definition menuWords : list string :=
  [ "PURKUO"; "HOME"; "TARVIKE"; "RENKAAT"; O_umlaut +:+ "LJY"; "OSTAMME"; "MYYNTI";
    "YHTEYSTIEDOT"; "FAQ"; "OHJEET"; "PAKOPUTKI" ]%string.

Definition isMenuText (text : string) : bool :=
  existsb (startsWith (toUpperCase text)) menuWords.

(** The links of the category page, from the anchors inside the main
    column. *)
Definition linksOf (anchors : list (string * option string)) : list Link :=
  flat_map (fun '(rawText, href) =>
              match href with
              | Some href =>
                  let text := trim (str (squashSpaces (chars rawText) false)) in
                  if includes href ".htm" && truthy href
                     && (2 <? String.length text)%nat && negb (isMenuText text)
                  then [mkLink text
                               (if startsWith href "http" then href else siteRoot +:+ href)
                               "motorcycles"]
                  else []
              | None => []
              end) anchors.

(** [Array.from(new Map(links.map(l => [l.href, l])).values())]: a key
    keeps the place of its first entry and the value of its last. *)
Fixpoint mapSet (l : Link) (m : list Link) : list Link :=
  match m with
  | [] => [l]
  | x :: rest => if String.eqb (href x) (href l) then l :: rest else x :: mapSet l rest
  end.

Definition uniqueLinks (links : list Link) : list Link :=
  fold_left (fun m l => mapSet l m) links [].

Definition scrapeCategoryList `{Platform} (net : Remote)
    (allowedBrands : option (list string)) (options : Options) : M unit :=
  let maxLinksPerCategory :=
    match o_maxLinksPerCategory options with
    | Some n => if 0 <? n then Some n else None
    | None => None
    end in
  let downloadImages := wantsImages options in
  let filters := normalizeFilterList allowedBrands in
  let signal := o_signal options in
  let* scrapeTimestamp := resolveScrapeTimestamp options in
  tryCatch
    (forEach [categoryUrl] (fun url =>
       run ensureNotAborted signal then
       let* response := axiosGet signal url (categoryPage net url) in
       let links := linksOf response in
       let uniqueLinks := uniqueLinks links in
       let linksToScrape :=
         match maxLinksPerCategory with
         | Some n => firstn (Z.to_nat n) uniqueLinks
         | None => uniqueLinks
         end in
       forEach linksToScrape (fun link =>
         run ensureNotAborted signal then
         let '(linkBrand, linkModel) := extractBrandModel (text link) in
         if negb (matchesAllowedFilter filters (text link) linkBrand linkModel) then ret tt else
         run scrapeMotorcyclePage net link allowedBrands
               (mkOptions (Some downloadImages) signal (Some scrapeTimestamp) None None) then
         waitOrAbort 500 signal)))
    (fun message =>
       if String.eqb message "Scrape aborted" then ret tt
       else consoleError ("Error scraping categories: " +:+ message)).

(* ===================================================================== *)
(** * Vocabulary of the specification                                     *)
(* ===================================================================== *)

Ltac munfold :=
  unfold bind, ret, throw, gets, modify, tryCatch, consoleError, begins, dateNow in *.

(** The statement [m] keeps the property [P] of the world, whether it
    returns or throws. *)
Definition Preserves {A} (P : World -> Prop) (m : M A) : Prop :=
  forall w, P w -> P (snd (m w)).

(** A statement that never throws. *)
Definition Total {A} (m : M A) : Prop :=
  forall w, exists a, fst (m w) = Ok a.

(** The content-length the probe reports. *)
Definition probedSize (net : Remote) (imageUrl : string) : option N :=
  match headImage net imageUrl with
  | Some header => parseContentLength header
  | None => None
  end.

Definition localSizeOf (w : World) (relative : string) : option N :=
  fileSize <$> files w !! relative.

(** The probe said the local file is current. *)
Definition probeAgrees (net : Remote) (imageUrl relative : string) (w : World) : Prop :=
  localSizeOf w relative ≠ None ∧ probedSize net imageUrl ≠ None
  ∧ localSizeOf w relative = probedSize net imageUrl.

Global Instance probeAgrees_dec net u rel w : Decision (probeAgrees net u rel w).
Proof. unfold probeAgrees. apply _. Defined.

Definition unchangedResult (relative : string) (sz : N) : Download :=
  mkDownload (basename relative) (displayPath relative) sz skipped_unchanged None.

(** The tables of two worlds agree. *)
Definition sameTables (w w' : World) : Prop :=
  parts w' = parts w ∧ parts_history w' = parts_history w
  ∧ part_images w' = part_images w ∧ motorcycles w' = motorcycles w.

(** The stored row a freshly extracted part is matched to. *)
Definition matchedRow (motorcycleId : string) (part : ExtractedPart) (rows : list PartRow)
    : option PartRow :=
  if truthy (partNumber part)
  then List.find (fun r => String.eqb (p_motorcycle_id r) motorcycleId
                           && String.eqb (p_part_number r) (partNumber part)) rows
  else List.find (fun r => String.eqb (p_motorcycle_id r) motorcycleId
                           && String.eqb (p_name r) (name part)) rows.

(** The outcomes [syncPartImages] reports in a world. *)
Definition syncResults `{Platform} (net : Remote) (partId : string) (imageUrls : list string)
    (downloadImages : bool) (w : World) : list ImageResult :=
  match fst (syncPartImages net partId imageUrls downloadImages w) with
  | Ok results => results
  | Throw _ => []
  end.

(** The test that guards the history insert. *)
Definition changeDetected (existing : PartRow) (part : ExtractedPart)
    (imageResults : list ImageResult) : bool :=
  negb (bool_decide (changes existing part = []))
  || imageContentChanged imageResults || statusChanged existing.

(** The history row written for a matched part. *)
Definition snapshot (existing : PartRow) (imageResults : list ImageResult)
    (scrapeTimestamp : string) : HistoryRow :=
  mkHistory (p_id existing) (p_motorcycle_id existing) (p_name existing)
    (p_part_number existing) (p_description existing) (p_price existing)
    (p_currency existing) (p_image_url existing)
    (historyImagePath existing imageResults) (p_url existing)
    (if statusChanged existing then restored else updated)
    (p_is_deleted existing) (orNull (p_deleted_at existing)) scrapeTimestamp.

(** The new values applied to the live row. *)
Definition applied (existing : PartRow) (part : ExtractedPart)
    (pageUrl scrapeTimestamp : string) (r : PartRow) : PartRow :=
  if String.eqb (p_id r) (p_id existing)
  then mkPart (p_id r) (p_motorcycle_id r) (name part) (p_part_number r)
              (Some (description part)) (Some (price part)) (Some (currency part))
              (match orNull (imageUrl part) with
               | Some u => Some u
               | None => p_image_url existing
               end)
              (p_image_path existing) pageUrl (Some scrapeTimestamp)
              (p_last_seen r) (p_is_deleted r) (p_deleted_at r)
  else r.

(** The closing update on the rows. *)
Definition touchRows (images : list ImageRow) (ts id : string) (rows : list PartRow)
    : list PartRow :=
  map (fun r => if String.eqb (p_id r) id then touched images ts r else r) rows.

(** The tables the change tracker reads and the history it appends to. *)
Definition tracked (w : World) : list PartRow * list HistoryRow * list MotorcycleRow :=
  (parts w, parts_history w, motorcycles w).



(** The invariant of the parts table: a soft-deleted row carries the time
    of its deletion. *)
Definition deletionStamped (r : PartRow) : Prop :=
  p_is_deleted r = 1 -> is_Some (p_deleted_at r).

Definition tombstoneInvariant (w : World) : Prop := Forall deletionStamped (parts w).

(** The timestamp tombstone reconciliation stamps. *)
Definition reconciliationTime `{Platform} (scrapeTimestampInput : option string)
    (w : World) : string :=
  match orNull scrapeTimestampInput with
  | Some ts => ts
  | None => toDbLocalTimestamp None (clock w)
  end.

(** The history row archived for a vanished part. *)
Definition tombstone (motorcycleId ts : string) (row : PartRow) : HistoryRow :=
  mkHistory (p_id row) motorcycleId (p_name row) (p_part_number row)
    (Some (orEmpty (p_description row))) (p_price row)
    (Some (orElse (orEmpty (p_currency row)) "EUR"))
    (orNull (p_image_url row)) (orNull (p_image_path row)) (p_url row)
    deleted (p_is_deleted row) (orNull (p_deleted_at row)) ts.

(** The rows of a vehicle carry the address of the page they came from. *)
Definition sourced (motorcycleId : string) (w : World) : Prop :=
  Forall (fun r => p_motorcycle_id r = motorcycleId -> p_url r ≠ EmptyString) (parts w).

(** The parts table after tombstone reconciliation. *)
Definition reconciled (motorcycleId : string) (seen : list string) (ts : string)
    (rows : list PartRow) : list PartRow :=
  map (fun r => if unseenLive motorcycleId seen r then flagDeleted ts r else r) rows.

(** The rows tombstone reconciliation archives: the vehicle's rows that
    were not seen and are not soft-deleted. *)
Definition vanished (motorcycleId : string) (seen : list string) (rows : list PartRow)
    : list PartRow :=
  List.filter (unseenLive motorcycleId seen) rows.

(** The text a filter is matched against. *)
Definition haystackOf (linkText brand model : string) : string :=
  trim (replaceNonAlnum (toLowerCase (linkText +:+ " " +:+ brand +:+ " " +:+ model))).

(** The filter test the crawl applies to the text of a link. *)
Definition allows (filters : list (list string)) (linkText : string) : bool :=
  let '(brand, model) := extractBrandModel linkText in
  matchesAllowedFilter filters linkText brand model.

(** The filters of the allow-list typed into the scrape form. *)
Definition filtersOfInput (scrapeBrandsInput : string) : list (list string) :=
  normalizeFilterList (Some (brandsOfInput scrapeBrandsInput)).

(** The row a first sighting inserts. *)
Definition newRow (motorcycleId pageUrl ts : string) (part : ExtractedPart) : PartRow :=
  mkPart (partIdOf motorcycleId part) motorcycleId (name part) (partNumber part)
         (Some (description part)) (Some (price part)) (Some (currency part))
         (orNull (imageUrl part)) None pageUrl (Some ts) None 0 None.

(** The insert of a first sighting goes through: the part has a part
    number and its id is free. *)
Definition insertable (motorcycleId : string) (part : ExtractedPart) (rows : list PartRow)
    : bool :=
  truthy (partNumber part) && negb (hasPartId (partIdOf motorcycleId part) rows).

(** The stored vehicle that has the address of the page. *)
Definition vehicleAt (listingUrl : string) (w : World) : option MotorcycleRow :=
  List.find (fun r => String.eqb (m_url r) listingUrl) (motorcycles w).

(* ===================================================================== *)
(** * Sample pages, stores and remotes                                    *)
(* ===================================================================== *)

Definition thumbUrl : string :=
  "https://www.purkuosat.net/images/MX12505/pikkukuvat/DSCN3304_small.JPG".

Definition bytes3 : list Byte.byte := [Byte.x00; Byte.x01; Byte.x02].
Definition bytes4 : list Byte.byte := [Byte.x0a; Byte.x0b; Byte.x0c; Byte.x0d].

(** A site that serves no page and the same four bytes for every image,
    with a missing content-length header. *)
Definition imagesOnly : Remote :=
  mkRemote (fun _ => None) (fun _ => None) (fun _ => Some None) (fun _ => Some bytes4).

(** A store that holds three bytes for the thumbnail. *)
Definition worldWithThumb : World :=
  mkWorld [] [] [] [] {[ "MX12505/pikkukuvat/DSCN3304_small.JPG"%string := bytes3 ]}
          1700000000000%N [] [].

Definition pageUrl1 : string := "https://www.purkuosat.net/apriliamx12505.htm".
Definition fullUrl : string := "https://www.purkuosat.net/images/MX12505/DSCN3304.JPG".

Definition link1 : Link := mkLink "Aprilia MX 125" pageUrl1 "motorcycles".

(** A thumbnail inside a link to the full picture. *)
Definition linkedThumb : Img :=
  mkImg (Some "images/MX12505/pikkukuvat/DSCN3304_small.JPG"%string)
        (Some "images/MX12505/DSCN3304.JPG"%string) None.

(** One block: a tank, part number 12345, 45 EUR, one picture. *)
Definition tankTable : Table :=
  mkTable [ mkRow ["OSA"; "Tank"]%string [linkedThumb];
            mkRow ["OSANRO"; "12345"]%string [];
            mkRow ["HINTA"; "45 EUR"]%string [] ]
          [linkedThumb].

(** The site serving [tables] for every model page, and for an image the
    bytes [body] gives; the probe reports no content-length. *)
Definition site (tables : list Table) (body : string -> option (list Byte.byte)) : Remote :=
  mkRemote (fun _ => Some tables) (fun _ => None) (fun _ => Some None) body.

Definition at_ (ts : string) : Options := mkOptions None None (Some ts) None None.

(** First the thumbnail and the full picture have three bytes each; then
    the thumbnail alone is replaced by a picture of four bytes. *)
Definition firstVisit : World :=
  snd (@scrapeMotorcyclePage SimpleUrl.lib (site [tankTable] (fun _ => Some bytes3))
         link1 None (at_ "2026-01-01 10:00:00") emptyWorld).

Definition thumbReplaced : string -> option (list Byte.byte) :=
  fun u => if String.eqb u thumbUrl then Some bytes4 else Some bytes3.

Definition secondVisit : World :=
  snd (@scrapeMotorcyclePage SimpleUrl.lib (site [tankTable] thumbReplaced)
         link1 None (at_ "2026-01-02 10:00:00") firstVisit).

Definition vehicle1 : string := generateId "Aprilia-MX 125".

(** The part the extractor reads from the page. *)
Definition tankPart : ExtractedPart :=
  mkExtracted "Tank" "12345" "" 4500 "EUR" (Some fullUrl) [fullUrl; thumbUrl].

(** The row stored for it by the first visit. *)
Definition tankRow : PartRow :=
  mkPart (generateId (vehicle1 +:+ "-12345")) vehicle1 "Tank" "12345" (Some ""%string)
         (Some 4500) (Some "EUR"%string) (Some fullUrl)
         (Some "images/MX12505/DSCN3304.JPG"%string) pageUrl1
         (Some "2026-01-01 10:00:00"%string) (Some "2026-01-01 10:00:00"%string) 0 None.

(** A tank listed without a part number. *)
Definition namelessTank : ExtractedPart :=
  mkExtracted "Tank" "" "" 4500 "EUR" None [].

(* ===================================================================== *)
(** * Further vocabulary                                                  *)
(* ===================================================================== *)

(** A segment a local path may contain. *)
Definition safeSegment (seg : string) : Prop :=
  seg ≠ EmptyString ∧ seg ≠ "."%string ∧ seg ≠ ".."%string.

(** No character of the list is a separator. *)
Definition noSep (sep : ascii -> bool) (l : list ascii) : Prop :=
  forallb (fun x => negb (sep x)) l = true.

(** The list is empty or begins with a character that is no digit. *)
Definition endsNumber (rest : list ascii) : Prop :=
  match rest with
  | [] => True
  | c :: _ => isDigit c = false
  end.

(** The local copy of an image is as current as the remote lets it be: the
    URL yields no local path, or the probe agrees with the local size, or
    the body cannot be fetched, or the body has the local size. *)
Definition settled `{Platform} (net : Remote) (imageUrl : string) (w : World) : Prop :=
  match getLocalImagePathFromUrl imageUrl with
  | None => True
  | Some relative =>
      probeAgrees net imageUrl relative w
      ∨ getImage net imageUrl = None
      ∨ exists data, getImage net imageUrl = Some data
                     ∧ localSizeOf w relative = Some (fileSize data)
  end.

(** A download that reports nothing new: null or [skipped_unchanged]. *)
Definition quietOutcome (o : Outcome (option Download)) : Prop :=
  o = Ok None
  ∨ exists d, o = Ok (Some d) ∧ status d = skipped_unchanged ∧ previous_filepath d = None.

(** The history log only grew: the rows of [before] are the first rows of
    [after], unchanged and in order. *)
Definition historyExtends (before after : World) : Prop :=
  exists appended, parts_history after = parts_history before ++ appended.

(** No part row was removed or re-identified: the ids of [before] are the
    first ids of [after], in order. *)
Definition partsRetained (before after : World) : Prop :=
  exists added, map p_id (parts after) = map p_id (parts before) ++ added.

(** The primary key of the parts table holds. *)
Definition uniqueIds (w : World) : Prop := NoDup (map p_id (parts w)).

(** A request for an image: the metadata probe or the body download. *)
Definition imageEvent (e : NetEvent) : Prop :=
  match e with
  | HeadImage _ | GetImage _ => True
  | GetPage _ | Delay _ => False
  end.

(** Everything that began after the signal fired is a request for an
    image. *)
Definition onlyImagesAfter (n : nat) (w : World) : Prop :=
  Forall imageEvent (skipn n (network w)).

(** The key of the asset table: UNIQUE(part_id, image_url). *)
Definition imgKey (i : ImageRow) : string * string := (pi_part_id i, pi_image_url i).

(** The asset table after [INSERT OR IGNORE] of a row for the key. *)
Definition withAsset (partId imageUrl : string) (imagePath : option string) (sortOrder : Z)
    (images : list ImageRow) : list ImageRow :=
  if existsb (fun i => String.eqb (pi_part_id i) partId
                       && String.eqb (pi_image_url i) imageUrl) images
  then images
  else images ++ [mkImage (nextImageId images) partId imageUrl imagePath sortOrder].

(** The asset table after the local path of a key was set. *)
Definition withAssetPath (imagePath partId imageUrl : string) (images : list ImageRow)
    : list ImageRow :=
  map (fun i =>
         if String.eqb (pi_part_id i) partId && String.eqb (pi_image_url i) imageUrl
         then mkImage (pi_id i) (pi_part_id i) (pi_image_url i) (Some imagePath)
                      (pi_sort_order i)
         else i) images.

(** The rows of the asset table that belong to other parts. *)
Definition assetsOfOthers (partId : string) (images : list ImageRow) : list ImageRow :=
  List.filter (fun i => negb (String.eqb (pi_part_id i) partId)) images.

(** Every entry of the map is filed under its own key and holds a set of
    images. *)
Definition filed (kv : string * ExtractedPart) : Prop :=
  fst kv = idSeed (snd kv) ∧ NoDup (imageUrls (snd kv)).

(** [s] is what is left of [l] after some characters. *)
Definition isSuffix (s l : list ascii) : Prop := exists a, l = a ++ s.

(** A page request goes to an address of [S]. *)
Definition pageEvent (S : string -> Prop) (e : NetEvent) : Prop :=
  match e with
  | GetPage url => S url
  | _ => True
  end.

(** Every page requested after the first [n] events is one of [S]. *)
Definition pagesWithin (S : string -> Prop) (n : nat) (w : World) : Prop :=
  Forall (pageEvent S) (skipn n (network w)).

(** The addresses a crawl may request: the category page, and the model
    pages of the links of that page that pass the allow-list. *)
Definition listed `{Platform} (net : Remote) (allowedBrands : option (list string)) (url : string)
    : Prop :=
  url = categoryUrl
  ∨ exists anchors link,
      categoryPage net categoryUrl = Some anchors
      ∧ In link (linksOf anchors)
      ∧ allows (normalizeFilterList allowedBrands) (text link) = true
      ∧ url = normalizeModelUrl (href link).

(** The test of the lookup of a freshly extracted part, on one row. *)
Definition matchKey (motorcycleId : string) (part : ExtractedPart) (r : PartRow) : bool :=
  String.eqb (p_motorcycle_id r) motorcycleId
  && (if truthy (partNumber part)
      then String.eqb (p_part_number r) (partNumber part)
      else String.eqb (p_name r) (name part)).



Definition isPage (e : NetEvent) : bool :=
  match e with
  | GetPage _ => true
  | _ => false
  end.

(** The number of page requests among the events after the first [n]. *)
Definition pageCount (n : nat) (w : World) : nat :=
  length (List.filter isPage (skipn n (network w))).

(** A statement that begins at most [j] page requests. *)
Definition Adds {A} (n j : nat) (m : M A) : Prop :=
  forall k w, (pageCount n w <= k)%nat -> (pageCount n (snd (m w)) <= k + j)%nat.

(** The bound on the model pages of one crawl. *)
Definition linkBudget (options : Options) (anchors : list (string * option string)) : nat :=
  let links := length (uniqueLinks (linksOf anchors)) in
  match o_maxLinksPerCategory options with
  | Some n => if 0 <? n then Nat.min (Z.to_nat n) links else links
  | None => links
  end.

(* ===================================================================== *)
(** * Further samples                                                     *)
(* ===================================================================== *)

(** A remote that answers nothing. *)
Definition offline : Remote :=
  mkRemote (fun _ => None) (fun _ => None) (fun _ => None) (fun _ => None).

(** The site of the tank with pictures of three bytes. *)
Definition tankSite : Remote := site [tankTable] (fun _ => Some bytes3).

(** Options of a pass whose signal fires once one request has begun. *)
Definition stopAfterOne : Options :=
  mkOptions None (Some 1%nat) (Some "2026-01-02 10:00:00"%string) None None.

Definition thumbPath : string := "MX12505/pikkukuvat/DSCN3304_small.JPG".

(* ===================================================================== *)
(** * Sanity checks of the embedding                                      *)
(* ===================================================================== *)

Example md5_empty : generateId "" = "d41d8cd98f00b204e9800998ecf8427e"%string.
Proof. vm_compute. reflexivity. Qed.

Example md5_abc : generateId "abc" = "900150983cd24fb0d6963f7d28e17f72"%string.
Proof. vm_compute. reflexivity. Qed.

Example md5_vehicle : generateId "Aprilia-RS 125" = "d1baed1e67e2f32ee71d885e866c980d"%string.
Proof. vm_compute. reflexivity. Qed.

Example md5_two_blocks :
  generateId (str (repeat "a"%char 120)) = "5f61c0ccad4cac44c75ff505e1f1e537"%string.
Proof. vm_compute. reflexivity. Qed.

Example path_of_thumbnail :
  @getLocalImagePathFromUrl SimpleUrl.lib
    "https://www.purkuosat.net/images/MX12505/pikkukuvat/DSCN3304_small.JPG"
  = Some "MX12505/pikkukuvat/DSCN3304_small.JPG"%string.
Proof. vm_compute. reflexivity. Qed.

Example history_path :
  historyRelative "MX12505/pikkukuvat/DSCN3304_small.JPG" 1700000000000
  = "_history/MX12505/pikkukuvat/DSCN3304_small__1700000000000.JPG"%string.
Proof. vm_compute. reflexivity. Qed.

(* ===================================================================== *)
(** * The monad                                                           *)
(* ===================================================================== *)



Lemma preserves_ret {A} P (a : A) : Preserves P (ret a).
Proof. intros w Hw. exact Hw. Qed.

Lemma preserves_throw {A} P e : Preserves P (@throw A e).
Proof. intros w Hw. exact Hw. Qed.

Lemma preserves_gets {A} P (f : World -> A) : Preserves P (gets f).
Proof. intros w Hw. exact Hw. Qed.

Lemma preserves_bind {A B} P (m : M A) (k : A -> M B) :
  Preserves P m -> (forall a, Preserves P (k a)) -> Preserves P (bind m k).
Proof.
  intros Hm Hk w Hw. unfold bind. specialize (Hm w Hw).
  destruct (m w) as [[a|e] w']; simpl in *; [apply Hk|]; assumption.
Qed.

Lemma preserves_tryCatch {A} P (m : M A) (h : string -> M A) :
  Preserves P m -> (forall e, Preserves P (h e)) -> Preserves P (tryCatch m h).
Proof.
  intros Hm Hh w Hw. unfold tryCatch. specialize (Hm w Hw).
  destruct (m w) as [[a|e] w']; simpl in *; [|apply Hh]; assumption.
Qed.

Lemma preserves_forEach {A} P (xs : list A) (body : A -> M unit) :
  (forall x, Preserves P (body x)) -> Preserves P (forEach xs body).
Proof.
  intros Hb. induction xs as [|x xs IH]; simpl.
  - apply preserves_ret.
  - apply preserves_bind; [apply Hb | intros _; exact IH].
Qed.

Lemma preserves_modify P (f : World -> World) :
  (forall w, P w -> P (f w)) -> Preserves P (modify f).
Proof. intros Hf w Hw. apply Hf, Hw. Qed.

Lemma preserves_if {A} P (b : bool) (m1 m2 : M A) :
  Preserves P m1 -> Preserves P m2 -> Preserves P (if b then m1 else m2).
Proof. destruct b; auto. Qed.


Lemma total_ret {A} (a : A) : Total (ret a).
Proof. intros w. eexists. reflexivity. Qed.

Lemma total_gets {A} (f : World -> A) : Total (gets f).
Proof. intros w. eexists. reflexivity. Qed.

Lemma total_modify f : Total (modify f).
Proof. intros w. eexists. reflexivity. Qed.

Lemma total_bind {A B} (m : M A) (k : A -> M B) :
  Total m -> (forall a, Total (k a)) -> Total (bind m k).
Proof.
  intros Hm Hk w. unfold bind. destruct (Hm w) as [a Ha].
  destruct (m w) as [[a'|e] w']; simpl in *; [apply Hk | discriminate].
Qed.

Lemma total_tryCatch {A} (m : M A) (h : string -> M A) :
  (forall e, Total (h e)) -> Total (tryCatch m h).
Proof.
  intros Hh w. unfold tryCatch.
  destruct (m w) as [[a|e] w']; simpl; [eexists; reflexivity | apply Hh].
Qed.

Lemma total_if {A} (b : bool) (m1 m2 : M A) :
  Total m1 -> Total m2 -> Total (if b then m1 else m2).
Proof. destruct b; auto. Qed.

Lemma total_run {A} (m : M A) w : Total m -> exists a, m w = (Ok a, snd (m w)).
Proof.
  intros Hm. destruct (Hm w) as [a Ha]. exists a.
  destruct (m w) as [o w']; simpl in *. congruence.
Qed.

(* ===================================================================== *)
(** * Asset synchroniser                                                  *)
(* ===================================================================== *)


Lemma download_skips `{Platform} net imageUrl relative w :
  getLocalImagePathFromUrl imageUrl = Some relative ->
  probeAgrees net imageUrl relative w ->
  downloadImage net imageUrl w
  = (Ok (Some (unchangedResult relative (default 0%N (localSizeOf w relative)))),
     set_network (fun l => l ++ [HeadImage imageUrl]) w).
Proof.
  intros Hp Ha. unfold downloadImage, tryCatch, bind. rewrite Hp. cbn [ret].
  unfold getLocalFileSize, gets, getRemoteImageSize, bind, begins, modify.
  fold (localSizeOf w relative).
  assert (Hr : (match headImage net imageUrl with
                | Some header => ret (parseContentLength header)
                | None => ret None
                end) (set_network (fun l => l ++ [HeadImage imageUrl]) w)
               = (Ok (probedSize net imageUrl),
                  set_network (fun l => l ++ [HeadImage imageUrl]) w)).
  { unfold probedSize. destruct (headImage net imageUrl); reflexivity. }
  rewrite Hr. rewrite bool_decide_eq_true_2 by exact Ha. reflexivity.
Qed.

Lemma download_transfers `{Platform} net imageUrl relative w :
  getLocalImagePathFromUrl imageUrl = Some relative ->
  ¬ probeAgrees net imageUrl relative w ->
  let w1 := set_network (fun l => l ++ [HeadImage imageUrl; GetImage imageUrl]) w in
  downloadImage net imageUrl w =
  match getImage net imageUrl with
  | None =>
      (Ok None,
       set_errors (fun l => l ++ ["Failed to download image from " +:+ imageUrl
                                  +:+ ": " +:+ "Request failed"]) w1)
  | Some data =>
      if bool_decide (localSizeOf w relative = Some (fileSize data)) then
        (Ok (Some (unchangedResult relative (default 0%N (localSizeOf w relative)))), w1)
      else
        match files w !! relative with
        | Some old =>
            let history := historyRelative relative (clock w) in
            (Ok (Some (mkDownload (basename relative) (displayPath relative)
                                  (fileSize data) downloaded_updated
                                  (Some ("images/" +:+ slashes history)))),
             set_files (fun _ => <[relative := data]> (<[history := old]> (files w)))
                       (set_clock N.succ w1))
        | None =>
            (Ok (Some (mkDownload (basename relative) (displayPath relative)
                                  (fileSize data) downloaded_new None)),
             set_files (fun _ => <[relative := data]> (files w)) w1)
        end
  end.
Proof.
  intros Hp Ha w1. unfold downloadImage, tryCatch, bind. rewrite Hp. cbn [ret].
  unfold getLocalFileSize, gets, getRemoteImageSize, bind, begins, modify.
  fold (localSizeOf w relative).
  assert (Hr : (match headImage net imageUrl with
                | Some header => ret (parseContentLength header)
                | None => ret None
                end) (set_network (fun l => l ++ [HeadImage imageUrl]) w)
               = (Ok (probedSize net imageUrl),
                  set_network (fun l => l ++ [HeadImage imageUrl]) w)).
  { unfold probedSize. destruct (headImage net imageUrl); reflexivity. }
  rewrite Hr. rewrite bool_decide_eq_false_2 by exact Ha.
  unfold axiosGetImage, bind, begins, modify.
  assert (Hw1 : set_network (fun l => l ++ [GetImage imageUrl])
                  (set_network (fun l => l ++ [HeadImage imageUrl]) w) = w1).
  { unfold w1, set_network. simpl. rewrite <- app_assoc. reflexivity. }
  rewrite Hw1.
  destruct (getImage net imageUrl) as [data|]; cbn [ret throw].
  - destruct (bool_decide (localSizeOf w relative = Some (fileSize data))) eqn:Hs.
    + reflexivity.
    + unfold localSizeOf in *. destruct (files w !! relative) as [old|] eqn:Hf; cbn.
      * unfold dateNow, copyFile, writeFile, bind, ret, modify. cbn. rewrite Hf. cbn.
        reflexivity.
      * reflexivity.
  - unfold consoleError, modify, bind, ret. reflexivity.
Qed.



(* ===================================================================== *)
(** * Change tracker: what each statement touches                         *)
(* ===================================================================== *)

Lemma sameTables_refl w : sameTables w w.
Proof. repeat split. Qed.

Lemma sameTables_trans w1 w2 w3 : sameTables w1 w2 -> sameTables w2 w3 -> sameTables w1 w3.
Proof. unfold sameTables. intros (?&?&?&?) (?&?&?&?). repeat split; congruence. Qed.

Lemma download_frame `{Platform} net imageUrl w :
  exists r, downloadImage net imageUrl w = (Ok r, snd (downloadImage net imageUrl w))
            ∧ sameTables w (snd (downloadImage net imageUrl w)).
Proof.
  destruct (getLocalImagePathFromUrl imageUrl) as [relative|] eqn:Hp.
  - destruct (decide (probeAgrees net imageUrl relative w)) as [Ha|Ha].
    + rewrite (download_skips _ _ _ _ Hp Ha). eexists. split; [reflexivity|]. repeat split.
    + pose proof (download_transfers net imageUrl relative w Hp Ha) as E. cbn zeta in E.
      rewrite E. destruct (getImage net imageUrl) as [data|].
      * destruct (bool_decide _).
        -- eexists. split; [reflexivity|]. repeat split.
        -- destruct (files w !! relative); eexists; (split; [reflexivity|]); repeat split.
      * eexists. split; [reflexivity|]. repeat split.
  - unfold downloadImage, tryCatch, bind. rewrite Hp. cbn.
    eexists. split; [reflexivity|]. repeat split.
Qed.

(** Statements built from the primitives keep a property that each
    primitive keeps. *)
Lemma preserves_match_option {A B} P (o : option A) (f : A -> M B) (m : M B) :
  (forall a, Preserves P (f a)) -> Preserves P m ->
  Preserves P (match o with Some a => f a | None => m end).
Proof. destruct o; auto. Qed.

Lemma preserves_direct {A} (P : World -> Prop) (m : M A) :
  (forall w, P w -> P (snd (m w))) -> Preserves P m.
Proof. auto. Qed.

Ltac preserves_step :=
  lazymatch goal with
  | |- Preserves _ (ret _) => apply preserves_ret
  | |- Preserves _ (throw _) => apply preserves_throw
  | |- Preserves _ (gets _) => apply preserves_gets
  | |- Preserves _ (bind _ _) => apply preserves_bind
  | |- Preserves _ (tryCatch _ _) => apply preserves_tryCatch
  | |- Preserves _ (forEach _ _) => apply preserves_forEach
  | |- Preserves _ (match ?o with _ => _ end) => destruct o
  | |- forall _, _ => intro
  end.

Ltac preserves_tac := repeat preserves_step.

Lemma download_tracked `{Platform} net imageUrl c :
  Preserves (fun w => tracked w = c) (downloadImage net imageUrl).
Proof.
  intros w Hw. destruct (download_frame net imageUrl w) as (r & _ & (S1 & S2 & S3 & S4)).
  unfold tracked in *. congruence.
Qed.

Lemma download_total `{Platform} net imageUrl : Total (downloadImage net imageUrl).
Proof.
  intros w. destruct (download_frame net imageUrl w) as (r & E & _).
  exists r. rewrite E. reflexivity.
Qed.

Lemma syncEach_tracked `{Platform} net partId dl c urls : forall i results,
  Preserves (fun w => tracked w = c) (syncEach net partId dl urls i results).
Proof.
  induction urls as [|u urls IH]; intros i results; cbn [syncEach]; preserves_tac.
  - apply download_tracked.
  - apply preserves_modify. intros w Hw. exact Hw.
  - apply preserves_modify. intros w Hw. exact Hw.
  - apply IH.
Qed.

Lemma syncEach_total `{Platform} net partId dl urls : forall i results,
  Total (syncEach net partId dl urls i results).
Proof.
  induction urls as [|u urls IH]; intros i results; cbn [syncEach].
  - apply total_ret.
  - apply total_bind; [apply total_if; [apply download_total | apply total_ret]|].
    intros dl0. apply total_bind; [apply total_modify|]. intros _.
    apply total_bind; [|intros _; apply IH].
    destruct (filepath <$> _); [apply total_modify | apply total_ret].
Qed.

Lemma syncPartImages_frame `{Platform} net partId urls dl w :
  syncPartImages net partId urls dl w
  = (Ok (syncResults net partId urls dl w), snd (syncPartImages net partId urls dl w))
  ∧ tracked (snd (syncPartImages net partId urls dl w)) = tracked w.
Proof.
  split.
  - unfold syncResults.
    destruct (total_run (syncPartImages net partId urls dl) w) as (a & E).
    { apply syncEach_total. }
    rewrite E at 1 2. reflexivity.
  - apply (syncEach_tracked net partId dl (tracked w)). reflexivity.
Qed.

Lemma trackPart_lookup `{Platform} net motorcycleId pageUrl ts dl part w :
  trackPart net motorcycleId pageUrl ts dl part w
  = match matchedRow motorcycleId part (parts w) with
    | None =>
        tryCatch
          (run insertPart (partIdOf motorcycleId part) motorcycleId (name part)
                 (orNullS (partNumber part)) (description part) (price part)
                 (currency part) (orNull (imageUrl part)) None pageUrl ts then
           let* imageResults :=
             syncPartImages net (partIdOf motorcycleId part) (imageUrls part) dl in
           touchPart ts (partIdOf motorcycleId part))
          (fun _ => ret tt) w
    | Some existing =>
        let w1 := snd (syncPartImages net (p_id existing) (imageUrls part) dl w) in
        let results := syncResults net (p_id existing) (imageUrls part) dl w in
        let w2 := if changeDetected existing part results
                  then set_parts (map (applied existing part pageUrl ts))
                         (set_history (fun rows => rows ++ [snapshot existing results ts]) w1)
                  else w1 in
        (Ok tt, set_parts (touchRows (part_images w2) ts (p_id existing)) w2)
    end.
Proof.
  unfold trackPart, matchedRow, bind at 1.
  assert (E : (if truthy (partNumber part)
               then selectPartByNumber motorcycleId (partNumber part)
               else selectPartByName motorcycleId (name part)) w
              = (Ok (if truthy (partNumber part)
                     then List.find (fun r => String.eqb (p_motorcycle_id r) motorcycleId
                            && String.eqb (p_part_number r) (partNumber part)) (parts w)
                     else List.find (fun r => String.eqb (p_motorcycle_id r) motorcycleId
                            && String.eqb (p_name r) (name part)) (parts w)), w)).
  { destruct (truthy (partNumber part)); reflexivity. }
  rewrite E. clear E.
  match goal with |- context [match ?o with Some _ => _ | None => _ end] =>
    destruct o as [existing|] end; [|reflexivity].
  unfold tryCatch, bind at 1.
  destruct (syncPartImages_frame net (p_id existing) (imageUrls part) dl w) as (E & _).
  rewrite E. cbn zeta. fold (changeDetected existing part
     (syncResults net (p_id existing) (imageUrls part) dl w)).
  destruct (changeDetected existing part _); reflexivity.
Qed.

(* ===================================================================== *)
(** * Change tracker: a part matched to a stored row                      *)
(* ===================================================================== *)






(* ===================================================================== *)
(** * Insert of a part without part number                                *)
(* ===================================================================== *)

Lemma trackPart_total `{Platform} net motorcycleId pageUrl ts dl part :
  Total (trackPart net motorcycleId pageUrl ts dl part).
Proof.
  unfold trackPart. apply total_bind.
  - destruct (truthy (partNumber part)); apply total_gets.
  - intros [existing|]; apply total_tryCatch; intros e.
    + unfold consoleError. apply total_modify.
    + apply total_ret.
Qed.

Lemma trackParts_seen `{Platform} net motorcycleId pageUrl ts dl ps : forall seen w,
  fst (trackParts net motorcycleId pageUrl ts dl ps seen w)
  = Ok (seen ++ map (partIdOf motorcycleId) ps).
Proof.
  induction ps as [|p ps IH]; intros seen w; cbn [trackParts map].
  - rewrite app_nil_r. reflexivity.
  - unfold bind.
    destruct (total_run (trackPart net motorcycleId pageUrl ts dl p) w) as ([] & E).
    { apply trackPart_total. }
    rewrite E, IH, <- app_assoc. reflexivity.
Qed.

(** C10. A freshly extracted part that matches no stored row and has no
    part number: the insert supplies NULL for the NOT NULL column and
    throws, the error is swallowed without a log line, nothing of the part
    is stored (the world is as before, part rows and image rows included),
    the loop goes on with the next part, and the part's id is among the ids
    handed to tombstone reconciliation. *)
Theorem nameless_part_is_never_stored `{Platform} net motorcycleId pageUrl ts dl
    part rest seen w :
  partNumber part = EmptyString ->
  matchedRow motorcycleId part (parts w) = None ->
  insertPart (partIdOf motorcycleId part) motorcycleId (name part)
             (orNullS (partNumber part)) (description part) (price part) (currency part)
             (orNull (imageUrl part)) None pageUrl ts w
  = (Throw "SQLITE_CONSTRAINT: NOT NULL constraint failed: parts.part_number", w)
  ∧ trackPart net motorcycleId pageUrl ts dl part w = (Ok tt, w)
  ∧ trackParts net motorcycleId pageUrl ts dl (part :: rest) seen w
    = trackParts net motorcycleId pageUrl ts dl rest
        (seen ++ [partIdOf motorcycleId part]) w
  ∧ exists ids, fst (trackParts net motorcycleId pageUrl ts dl (part :: rest) seen w) = Ok ids
                ∧ partIdOf motorcycleId part ∈ ids.
Proof.
  intros Hn Hm.
  assert (Hi : insertPart (partIdOf motorcycleId part) motorcycleId (name part)
             (orNullS (partNumber part)) (description part) (price part) (currency part)
             (orNull (imageUrl part)) None pageUrl ts w
             = (Throw "SQLITE_CONSTRAINT: NOT NULL constraint failed: parts.part_number", w)).
  { rewrite Hn. reflexivity. }
  assert (Ht : trackPart net motorcycleId pageUrl ts dl part w = (Ok tt, w)).
  { rewrite trackPart_lookup, Hm. unfold tryCatch, bind. rewrite Hi. reflexivity. }
  repeat split.
  - exact Hi.
  - exact Ht.
  - cbn [trackParts]. unfold bind. rewrite Ht. reflexivity.
  - eexists. split; [apply trackParts_seen|].
    cbn [map]. set_solver.
Qed.

Lemma nameless_part_is_never_stored_witness :
  partNumber namelessTank = EmptyString
  ∧ matchedRow vehicle1 namelessTank (parts emptyWorld) = None
  ∧ @trackPart SimpleUrl.lib imagesOnly vehicle1 pageUrl1 "2026-01-01 10:00:00" true
      namelessTank emptyWorld = (Ok tt, emptyWorld).
Proof.
  split; [reflexivity|]. split; [reflexivity|].
  apply (@nameless_part_is_never_stored SimpleUrl.lib imagesOnly vehicle1 pageUrl1
           "2026-01-01 10:00:00" true namelessTank [] [] emptyWorld); reflexivity.
Defined.

(* ===================================================================== *)
(** * Tombstone reconciliation                                            *)
(* ===================================================================== *)

Lemma insertSorted_perm r l : insertSorted r l ≡ₚ r :: l.
Proof.
  induction l as [|x l IH]; cbn; [reflexivity|].
  destruct (rowBefore r x); [reflexivity|].
  rewrite IH. apply perm_swap.
Qed.

Lemma orderByNameId_perm l : orderByNameId l ≡ₚ l.
Proof.
  induction l as [|x l IH]; cbn; [reflexivity|].
  rewrite insertSorted_perm, IH. reflexivity.
Qed.

Lemma unseenLive_nil motorcycleId r : unseenLive motorcycleId [] r = live motorcycleId r.
Proof.
  unfold unseenLive, live. rewrite bool_decide_eq_false_2 by set_solver.
  cbn. rewrite andb_true_r. reflexivity.
Qed.

Lemma filter_unseen_nil motorcycleId rows :
  List.filter (live motorcycleId) rows = List.filter (unseenLive motorcycleId []) rows.
Proof.
  apply List.filter_ext. intros r. symmetry. apply unseenLive_nil.
Qed.

Lemma archive_vanished (motorcycleId ts : string) rows : forall w,
  Forall (fun r => p_url r ≠ EmptyString) rows ->
  forEach rows (fun row =>
    insertHistory (p_id row) motorcycleId (p_name row) (p_part_number row)
      (Some (orEmpty (p_description row))) (p_price row)
      (Some (orElse (orEmpty (p_currency row)) "EUR"))
      (orNull (p_image_url row)) (orNull (p_image_path row))
      (orNullS (p_url row))
      deleted (p_is_deleted row) (orNull (p_deleted_at row)) ts) w
  = (Ok tt, set_history (fun h => h ++ map (tombstone motorcycleId ts) rows) w).
Proof.
  induction rows as [|r rows IH]; intros w Hs; cbn [forEach map].
  - unfold ret, set_history. rewrite app_nil_r. destruct w; reflexivity.
  - inversion Hs as [|? ? Hr Hrest]; subst.
    unfold bind, insertHistory at 1.
    assert (E : orNullS (p_url r) = Some (p_url r)).
    { unfold orNullS. destruct (p_url r); [contradiction|reflexivity]. }
    rewrite E, (IH _ Hrest). unfold set_history. cbn.
    rewrite <- app_assoc. reflexivity.
Qed.

Lemma reconciled_id motorcycleId seen ts rows :
  vanished motorcycleId seen rows = [] -> reconciled motorcycleId seen ts rows = rows.
Proof.
  unfold vanished, reconciled. induction rows as [|r rows IH]; cbn; [reflexivity|].
  destruct (unseenLive motorcycleId seen r); [discriminate|].
  intros Hv. rewrite (IH Hv). reflexivity.
Qed.

Lemma vanished_reconciled motorcycleId seen ts rows :
  vanished motorcycleId seen (reconciled motorcycleId seen ts rows) = [].
Proof.
  unfold vanished, reconciled. induction rows as [|r rows IH]; cbn; [reflexivity|].
  destruct (unseenLive motorcycleId seen r) eqn:E.
  - unfold unseenLive at 1. cbn. rewrite andb_false_r. exact IH.
  - rewrite E. exact IH.
Qed.

Lemma set_parts_id w : set_parts (fun rows => rows) w = w.
Proof. destruct w; reflexivity. Qed.

(** What tombstone reconciliation does to a store whose rows are sourced. *)
Lemma markDeletedParts_run `{Platform} motorcycleId seen tsIn w :
  sourced motorcycleId w ->
  let ts := reconciliationTime tsIn w in
  let after := snd (markDeletedParts motorcycleId seen tsIn w) in
  fst (markDeletedParts motorcycleId seen tsIn w) = Ok tt
  ∧ parts after = reconciled motorcycleId seen ts (parts w)
  ∧ parts_history after
    = parts_history w
      ++ map (tombstone motorcycleId ts) (orderByNameId (vanished motorcycleId seen (parts w)))
  ∧ part_images after = part_images w
  ∧ motorcycles after = motorcycles w
  ∧ files after = files w.
Proof.
  intros Hs ts after. subst after.
  cut (exists W, markDeletedParts motorcycleId seen tsIn w = (Ok tt, W)
         ∧ parts W = reconciled motorcycleId seen ts (parts w)
         ∧ parts_history W
           = parts_history w ++ map (tombstone motorcycleId ts)
                                  (orderByNameId (vanished motorcycleId seen (parts w)))
         ∧ part_images W = part_images w
         ∧ motorcycles W = motorcycles w
         ∧ files W = files w).
  { intros (W & E & HW). rewrite E. cbn. split; [reflexivity|exact HW]. }
  unfold markDeletedParts.
  set (w0 := match orNull tsIn with Some _ => w | None => set_clock N.succ w end).
  assert (E0 : (match orNull tsIn with
                | Some ts => ret ts
                | None => let* now := dateNow in ret (toDbLocalTimestamp None now)
                end) w = (Ok ts, w0)).
  { unfold ts, reconciliationTime, w0. destruct (orNull tsIn); reflexivity. }
  assert (Hw0 : parts w0 = parts w ∧ parts_history w0 = parts_history w
                ∧ part_images w0 = part_images w ∧ motorcycles w0 = motorcycles w
                ∧ files w0 = files w).
  { unfold w0. destruct (orNull tsIn); repeat split. }
  destruct Hw0 as (P1 & P2 & P3 & P4 & P5).
  unfold bind at 1. rewrite E0. cbn zeta.
  set (rows := orderByNameId (vanished motorcycleId seen (parts w))).
  assert (E1 : (if (0 <? length seen)%nat
                then gets (fun w => orderByNameId
                       (List.filter (unseenLive motorcycleId seen) (parts w)))
                else gets (fun w => orderByNameId
                       (List.filter (live motorcycleId) (parts w)))) w0 = (Ok rows, w0)).
  { unfold rows, vanished, gets. destruct seen as [|s seen]; cbn [length Nat.ltb Nat.leb].
    - rewrite P1, filter_unseen_nil. reflexivity.
    - rewrite P1. reflexivity. }
  unfold bind at 1. rewrite E1.
  destruct (Nat.eqb_spec (length rows) 0) as [Hl|Hl].
  - assert (Hr : rows = []) by (destruct rows; [reflexivity|discriminate]).
    assert (Hv : vanished motorcycleId seen (parts w) = []).
    { apply Permutation_nil_r. rewrite <- Hr. symmetry. apply orderByNameId_perm. }
    exists w0. fold rows. rewrite Hr, (reconciled_id _ _ _ _ Hv). cbn.
    rewrite app_nil_r. repeat split; assumption.
  - assert (Hsrc : Forall (fun r => p_url r ≠ EmptyString) rows).
    { apply Forall_forall. intros r Hr. unfold rows in Hr.
      rewrite orderByNameId_perm in Hr. unfold vanished in Hr.
      apply list_elem_of_In, filter_In in Hr as (Hin & Hc).
      unfold sourced in Hs. rewrite Forall_forall in Hs.
      apply (Hs r); [apply list_elem_of_In, Hin|].
      unfold unseenLive in Hc. apply andb_prop in Hc as (Hc & _).
      apply andb_prop in Hc as (Hc & _). apply String.eqb_eq, Hc. }
    unfold bind. rewrite (archive_vanished motorcycleId ts rows w0 Hsrc).
    assert (E2 : forall v,
               (if (0 <? length seen)%nat
                then softDelete ts (unseenLive motorcycleId seen)
                else softDelete ts (live motorcycleId)) v
               = (Ok tt, set_parts (reconciled motorcycleId seen ts) v)).
    { intros v. unfold softDelete, modify, set_parts, reconciled.
      destruct seen as [|s seen]; [|reflexivity]. cbn [length Nat.ltb Nat.leb].
      do 2 f_equal. apply map_ext. intros r. rewrite unseenLive_nil. reflexivity. }
    rewrite E2. eexists. split; [reflexivity|]. cbn. rewrite P1, P2, P3, P4, P5. auto.
Qed.

(* ===================================================================== *)
(** * Row-wise invariants of the parts table                              *)
(* ===================================================================== *)

Lemma preserves_keeping_parts {A} (Q : list PartRow -> Prop) (m : M A) :
  (forall w, parts (snd (m w)) = parts w) -> Preserves (fun w => Q (parts w)) m.
Proof. intros Hk w Hw. rewrite Hk. exact Hw. Qed.

Lemma syncPartImages_parts `{Platform} net partId urls dl w :
  parts (snd (syncPartImages net partId urls dl w)) = parts w.
Proof.
  destruct (syncPartImages_frame net partId urls dl w) as (_ & Ht).
  unfold tracked in Ht. congruence.
Qed.

Lemma insertHistory_parts a b c d e f g h i j k l m n w :
  parts (snd (insertHistory a b c d e f g h i j k l m n w)) = parts w.
Proof. unfold insertHistory. destruct j; reflexivity. Qed.

Section RowInvariant.

Context `{Platform}.
Variable R : PartRow -> Prop.
Variables motorcycleId pageUrl : string.

Hypothesis R_new : forall part ts,
  truthy (partNumber part) = true ->
  R (mkPart (partIdOf motorcycleId part) motorcycleId (name part) (partNumber part)
            (Some (description part)) (Some (price part)) (Some (currency part))
            (orNull (imageUrl part)) None pageUrl (Some ts) None 0 None).
Hypothesis R_applied : forall existing part ts r,
  R r -> R (applied existing part pageUrl ts r).
Hypothesis R_touched : forall images ts r, R r -> R (touched images ts r).
Hypothesis R_flagDeleted : forall ts r, R r -> R (flagDeleted ts r).

Let Inv (w : World) : Prop := Forall R (parts w).

Lemma touchPart_rows ts id : Preserves Inv (touchPart ts id).
Proof.
  apply preserves_modify. intros w Hw. unfold Inv in *. cbn.
  apply Forall_map. eapply Forall_impl; [exact Hw|].
  intros r Hr. cbn. destruct (String.eqb (p_id r) id); auto.
Qed.

Lemma insertPart_rows part ts :
  Preserves Inv
    (insertPart (partIdOf motorcycleId part) motorcycleId (name part)
       (orNullS (partNumber part)) (description part) (price part) (currency part)
       (orNull (imageUrl part)) None pageUrl ts).
Proof.
  intros w Hw. unfold insertPart, orNullS.
  destruct (truthy (partNumber part)) eqn:Ht; [|exact Hw].
  destruct (hasPartId _ _); [exact Hw|].
  unfold Inv in *. cbn. apply Forall_app. split; [exact Hw|].
  constructor; [|constructor]. apply R_new, Ht.
Qed.

Lemma applyPart_rows existing part ts :
  Preserves Inv
    (updatePart (name part) (description part) (price part) (currency part)
       (match orNull (imageUrl part) with
        | Some u => Some u
        | None => p_image_url existing
        end)
       (p_image_path existing) pageUrl ts (p_id existing)).
Proof.
  apply preserves_modify. intros w Hw. unfold Inv in *. cbn.
  apply Forall_map. eapply Forall_impl; [exact Hw|].
  intros r Hr. cbn. apply (R_applied existing part ts) in Hr.
  unfold applied in Hr. exact Hr.
Qed.

Lemma sync_rows net partId urls dl : Preserves Inv (syncPartImages net partId urls dl).
Proof.
  apply (preserves_keeping_parts (Forall R)). apply syncPartImages_parts.
Qed.

Lemma insertHistory_rows a b c d e f g h i j k l m n :
  Preserves Inv (insertHistory a b c d e f g h i j k l m n).
Proof.
  apply (preserves_keeping_parts (Forall R)). apply insertHistory_parts.
Qed.

Lemma consoleError_rows line : Preserves Inv (consoleError line).
Proof. apply preserves_modify. intros w Hw. exact Hw. Qed.

Lemma softDelete_rows ts cond : Preserves Inv (softDelete ts cond).
Proof.
  apply preserves_modify. intros w Hw. unfold Inv in *. cbn.
  apply Forall_map. eapply Forall_impl; [exact Hw|].
  intros r Hr. cbn. destruct (cond r); auto.
Qed.

Lemma trackPart_rows net ts dl part :
  Preserves Inv (trackPart net motorcycleId pageUrl ts dl part).
Proof.
  unfold trackPart, selectPartByNumber, selectPartByName.
  repeat first
    [ preserves_step
    | apply insertPart_rows
    | apply applyPart_rows
    | apply sync_rows
    | apply insertHistory_rows
    | apply touchPart_rows
    | apply consoleError_rows ].
Qed.

Lemma trackParts_rows net ts dl ps : forall seen,
  Preserves Inv (trackParts net motorcycleId pageUrl ts dl ps seen).
Proof.
  induction ps as [|p ps IH]; intros seen; cbn [trackParts].
  - apply preserves_ret.
  - apply preserves_bind; [apply trackPart_rows | intros _; apply IH].
Qed.

Lemma markDeletedParts_rows seen tsIn :
  Preserves Inv (markDeletedParts motorcycleId seen tsIn).
Proof.
  unfold markDeletedParts.
  repeat first
    [ preserves_step
    | apply insertHistory_rows
    | apply softDelete_rows
    | apply (preserves_keeping_parts (Forall R)); intros w; reflexivity ].
Qed.

End RowInvariant.

(* ===================================================================== *)
(** * The tombstone invariant                                             *)
(* ===================================================================== *)

Lemma deletionStamped_new id mid nm pn d p c iu ip u sa :
  deletionStamped (mkPart id mid nm pn d p c iu ip u sa None 0 None).
Proof. unfold deletionStamped. cbn. discriminate. Qed.

Lemma deletionStamped_applied existing part pageUrl ts r :
  deletionStamped r -> deletionStamped (applied existing part pageUrl ts r).
Proof. unfold deletionStamped, applied. destruct (String.eqb _ _); cbn; auto. Qed.

Lemma deletionStamped_touched images ts r : deletionStamped r -> deletionStamped (touched images ts r).
Proof. unfold deletionStamped. cbn. discriminate. Qed.

Lemma deletionStamped_flagDeleted ts r : deletionStamped r -> deletionStamped (flagDeleted ts r).
Proof. unfold deletionStamped. cbn. eauto. Qed.

Lemma stamped_trackParts `{Platform} net motorcycleId pageUrl ts dl ps seen :
  Preserves tombstoneInvariant (trackParts net motorcycleId pageUrl ts dl ps seen).
Proof.
  apply trackParts_rows.
  - intros. apply deletionStamped_new.
  - intros. apply deletionStamped_applied. assumption.
  - intros. apply deletionStamped_touched. assumption.
Qed.

Lemma stamped_markDeletedParts `{Platform} motorcycleId seen tsIn :
  Preserves tombstoneInvariant (markDeletedParts motorcycleId seen tsIn).
Proof. apply markDeletedParts_rows. intros. apply deletionStamped_flagDeleted. assumption. Qed.

Ltac keeps_parts :=
  apply (preserves_keeping_parts (Forall deletionStamped)); intros w;
  repeat match goal with
         | |- context [match ?x with _ => _ end] => destruct x
         | |- context [if ?x then _ else _] => destruct x
         end; reflexivity.

Lemma stamped_resolveScrapeTimestamp `{Platform} options :
  Preserves tombstoneInvariant (resolveScrapeTimestamp options).
Proof. unfold resolveScrapeTimestamp. keeps_parts. Qed.

Lemma stamped_ensureNotAborted signal : Preserves tombstoneInvariant (ensureNotAborted signal).
Proof. unfold ensureNotAborted. keeps_parts. Qed.

Lemma stamped_waitOrAbort ms signal : Preserves tombstoneInvariant (waitOrAbort ms signal).
Proof. unfold waitOrAbort. destruct (ms <=? 0); [apply preserves_ret|]. keeps_parts. Qed.

Lemma stamped_axiosGet {A} signal url (response : option A) :
  Preserves tombstoneInvariant (axiosGet signal url response).
Proof. unfold axiosGet. keeps_parts. Qed.

Lemma stamped_scrapeParts `{Platform} net tables motorcycleId pageUrl options :
  Preserves tombstoneInvariant (scrapeParts net tables motorcycleId pageUrl options).
Proof.
  unfold scrapeParts.
  repeat first [ preserves_step
               | apply stamped_resolveScrapeTimestamp
               | apply stamped_trackParts ].
Qed.

Lemma stamped_resolveMotorcycle `{Platform} link brand model listingUrl ts :
  Preserves tombstoneInvariant (resolveMotorcycle link brand model listingUrl ts).
Proof.
  unfold resolveMotorcycle, updateMotorcycle.
  repeat first [ preserves_step
               | apply preserves_modify; intros w Hw; exact Hw ].
Qed.

Lemma stamped_scrapeMotorcyclePage `{Platform} net link allowedBrands options :
  Preserves tombstoneInvariant (scrapeMotorcyclePage net link allowedBrands options).
Proof.
  unfold scrapeMotorcyclePage. destruct (extractBrandModel (text link)) as [brand model].
  repeat first [ preserves_step
               | apply stamped_resolveScrapeTimestamp
               | apply stamped_ensureNotAborted
               | apply stamped_axiosGet
               | apply stamped_resolveMotorcycle
               | apply stamped_scrapeParts
               | apply stamped_markDeletedParts
               | apply preserves_modify; intros w Hw; exact Hw ].
Qed.

Lemma stamped_scrapeCategoryList `{Platform} net allowedBrands options :
  Preserves tombstoneInvariant (scrapeCategoryList net allowedBrands options).
Proof.
  unfold scrapeCategoryList.
  repeat first [ preserves_step
               | apply stamped_resolveScrapeTimestamp
               | apply stamped_ensureNotAborted
               | apply stamped_axiosGet
               | apply stamped_scrapeMotorcyclePage
               | apply stamped_waitOrAbort
               | apply preserves_modify; intros w Hw; exact Hw
               | match goal with
                 | |- Preserves _ (let '(_, _) := ?x in _) => destruct x
                 end ].
Qed.

Lemma unseenLive_spec motorcycleId seen r :
  unseenLive motorcycleId seen r = true
  <-> (p_motorcycle_id r = motorcycleId ∧ (p_id r ∉ seen) ∧ p_is_deleted r = 0).
Proof.
  unfold unseenLive. rewrite !andb_true_iff, negb_true_iff, bool_decide_eq_false.
  rewrite String.eqb_eq, Z.eqb_eq. tauto.
Qed.

Lemma sourced_reconciled motorcycleId seen ts w w' :
  parts w' = reconciled motorcycleId seen ts (parts w) ->
  sourced motorcycleId w -> sourced motorcycleId w'.
Proof.
  unfold sourced. rewrite !Forall_forall.
  intros E Hs r Hin Hm. rewrite E in Hin. unfold reconciled in Hin.
  apply list_elem_of_fmap in Hin as (r0 & -> & Hin0).
  destruct (unseenLive motorcycleId seen r0); cbn in *; apply (Hs r0 Hin0); exact Hm.
Qed.

(** C8. From a store in which every soft-deleted row carries its deletion
    time, every operation of the core (a crawl, a single model page, the
    extraction and tracking of its parts, tombstone reconciliation) ends in
    such a store. On a vehicle whose rows are sourced, tombstone
    reconciliation returns, flips to [is_deleted = 1] with the pass
    timestamp exactly the rows of the vehicle whose id is not seen and that
    are not soft-deleted, leaves every other row as it is, archives one
    [deleted] history row for each of the flipped rows and no other, and a
    second run with the same seen ids changes neither the parts nor the
    history. *)
Theorem tombstone_reconciliation `{Platform} net link allowedBrands options tables pageUrl
    motorcycleId seen tsIn w :
  tombstoneInvariant w ->
  sourced motorcycleId w ->
  let ts := reconciliationTime tsIn w in
  let after := snd (markDeletedParts motorcycleId seen tsIn w) in
  let again := snd (markDeletedParts motorcycleId seen tsIn after) in
  (tombstoneInvariant (snd (scrapeCategoryList net allowedBrands options w))
   ∧ tombstoneInvariant (snd (scrapeMotorcyclePage net link allowedBrands options w))
   ∧ tombstoneInvariant (snd (scrapeParts net tables motorcycleId pageUrl options w))
   ∧ tombstoneInvariant after)
  ∧ fst (markDeletedParts motorcycleId seen tsIn w) = Ok tt
  ∧ parts after
    = map (fun r => if unseenLive motorcycleId seen r then flagDeleted ts r else r) (parts w)
  ∧ (forall r, unseenLive motorcycleId seen r = true
               <-> (p_motorcycle_id r = motorcycleId ∧ (p_id r ∉ seen)
                    ∧ p_is_deleted r = 0))
  ∧ (forall r, p_is_deleted (flagDeleted ts r) = 1 ∧ p_deleted_at (flagDeleted ts r) = Some ts)
  ∧ (exists archived,
        archived ≡ₚ List.filter (unseenLive motorcycleId seen) (parts w)
        ∧ parts_history after = parts_history w ++ map (tombstone motorcycleId ts) archived
        ∧ Forall (fun h => h_history_event h = deleted)
                 (map (tombstone motorcycleId ts) archived))
  ∧ parts again = parts after
  ∧ parts_history again = parts_history after.
Proof.
  intros Hi Hs ts after again.
  destruct (markDeletedParts_run motorcycleId seen tsIn w Hs) as (E1 & E2 & E3 & _).
  fold after ts in E2, E3.
  assert (Hs' : sourced motorcycleId after) by (eapply sourced_reconciled; eauto).
  destruct (markDeletedParts_run motorcycleId seen tsIn after Hs') as (_ & F2 & F3 & _).
  fold again in F2, F3.
  split; [|split; [|split; [|split; [|split; [|split; [|split]]]]]].
  - repeat split.
    + apply stamped_scrapeCategoryList, Hi.
    + apply stamped_scrapeMotorcyclePage, Hi.
    + apply stamped_scrapeParts, Hi.
    + apply stamped_markDeletedParts, Hi.
  - exact E1.
  - exact E2.
  - intros r. apply unseenLive_spec.
  - intros r. split; reflexivity.
  - exists (orderByNameId (vanished motorcycleId seen (parts w))).
    split; [apply orderByNameId_perm|]. split; [exact E3|].
    apply Forall_forall. intros h Hh. apply list_elem_of_fmap in Hh as (r & -> & _).
    reflexivity.
  - rewrite F2, E2. apply reconciled_id, vanished_reconciled.
  - rewrite F3, E2, vanished_reconciled. cbn. apply app_nil_r.
Qed.

Lemma tombstone_reconciliation_witness :
  let after := snd (@markDeletedParts SimpleUrl.lib vehicle1 []
                      (Some "2026-01-03 10:00:00"%string) firstVisit) in
  tombstoneInvariant firstVisit
  ∧ sourced vehicle1 firstVisit
  ∧ map p_deleted_at (parts after) = [Some "2026-01-03 10:00:00"%string]
  ∧ tombstoneInvariant after.
Proof.
  assert (Hi : tombstoneInvariant firstVisit).
  { vm_compute. repeat constructor. discriminate. }
  assert (Hs : sourced vehicle1 firstVisit).
  { vm_compute. repeat constructor. discriminate. }
  destruct (@tombstone_reconciliation SimpleUrl.lib imagesOnly link1 None
              (at_ "2026-01-03 10:00:00") [] pageUrl1 vehicle1 []
              (Some "2026-01-03 10:00:00"%string) firstVisit Hi Hs)
    as ((_ & _ & _ & Ha) & _ & Hp & _).
  cbv zeta. split; [exact Hi|]. split; [exact Hs|]. split; [|exact Ha].
  rewrite Hp. vm_compute. reflexivity.
Defined.

(* ===================================================================== *)
(** * Allow-list filter                                                   *)
(* ===================================================================== *)

Lemma lower_upper_char c : lowerChar (upperChar c) = lowerChar c.
Proof.
  destruct c as [[] [] [] [] [] [] [] []]; vm_compute; reflexivity.
Qed.

Lemma chars_str l : chars (str l) = l.
Proof. apply list_ascii_of_string_of_list_ascii. Qed.

Lemma str_chars s : str (chars s) = s.
Proof. apply string_of_list_ascii_of_string. Qed.

Lemma toLowerCase_toUpperCase s : toLowerCase (toUpperCase s) = toLowerCase s.
Proof.
  unfold toLowerCase, toUpperCase. rewrite chars_str, map_map. f_equal.
  apply map_ext. intros c. apply lower_upper_char.
Qed.

Lemma chars_app a b : chars (a +:+ b) = chars a ++ chars b.
Proof.
  unfold chars. induction a as [|c a IH]; [reflexivity|].
  change (String c a +:+ b) with (String c (a +:+ b)).
  change (list_ascii_of_string (String c (a +:+ b)))
    with (c :: list_ascii_of_string (a +:+ b)).
  rewrite IH. reflexivity.
Qed.

Lemma str_app a b : str (a ++ b) = str a +:+ str b.
Proof.
  unfold str. induction a as [|c a IH]; [reflexivity|].
  change (string_of_list_ascii ((c :: a) ++ b))
    with (String c (string_of_list_ascii (a ++ b))).
  rewrite IH. reflexivity.
Qed.

Lemma toUpperCase_app a b : toUpperCase (a +:+ b) = toUpperCase a +:+ toUpperCase b.
Proof. unfold toUpperCase. rewrite chars_app, map_app, str_app. reflexivity. Qed.

Lemma toUpperCase_app3 a b c :
  toUpperCase a +:+ " " +:+ toUpperCase b +:+ " " +:+ toUpperCase c
  = toUpperCase (a +:+ " " +:+ b +:+ " " +:+ c).
Proof. rewrite !toUpperCase_app. reflexivity. Qed.

Lemma matchesAllowedFilter_spec filters linkText brand model :
  matchesAllowedFilter filters linkText brand model = true
  <-> filters = []
      ∨ Exists (Forall (fun token => includes (haystackOf linkText brand model) token = true))
               filters.
Proof.
  unfold matchesAllowedFilter. fold (haystackOf linkText brand model).
  destruct filters as [|g filters]; cbn [length Nat.eqb].
  - split; auto.
  - rewrite existsb_exists. split.
    + intros (tokens & Hin & Hall). right. apply Exists_exists. exists tokens.
      split; [apply list_elem_of_In, Hin|].
      apply Forall_forall. intros t Ht. rewrite forallb_forall in Hall.
      apply Hall, list_elem_of_In, Ht.
    + intros [Hn|Hx]; [discriminate|]. apply Exists_exists in Hx as (tokens & Hin & Hall).
      exists tokens. split; [apply list_elem_of_In, Hin|].
      apply forallb_forall. intros t Ht. rewrite Forall_forall in Hall.
      apply Hall, list_elem_of_In, Ht.
Qed.

(** C7. The allow-list is read as comma-separated groups of blank-separated
    tokens; a text passes when the list is absent or empty, or when all the
    tokens of some group occur in the text, letters compared without case
    and every run of other characters read as one blank. The filter
    "aprilia 125,cagiva" has the groups {aprilia, 125} and {cagiva}; it
    passes "Aprilia RS 125 parts" and "Cagiva Mito" and stops "Honda CBR". *)
Theorem allow_list_filter :
  (forall filters linkText brand model,
     matchesAllowedFilter filters linkText brand model = true
     <-> filters = []
         ∨ Exists (Forall (fun token =>
                             includes (haystackOf linkText brand model) token = true))
                  filters)
  ∧ (forall linkText brand model,
       haystackOf (toUpperCase linkText) (toUpperCase brand) (toUpperCase model)
       = haystackOf linkText brand model)
  ∧ (forall brands, normalizeFilterList (Some (map toUpperCase brands))
                    = normalizeFilterList (Some brands))
  ∧ filtersOfInput "aprilia 125,cagiva" = [["aprilia"; "125"]; ["cagiva"]]%string
  ∧ filtersOfInput "APRILIA-125 , Cagiva!" = filtersOfInput "aprilia 125,cagiva"
  ∧ allows (filtersOfInput "aprilia 125,cagiva") "Aprilia RS 125 parts" = true
  ∧ allows (filtersOfInput "aprilia 125,cagiva") "Cagiva Mito" = true
  ∧ allows (filtersOfInput "aprilia 125,cagiva") "Honda CBR" = false
  ∧ (forall linkText, allows (normalizeFilterList None) linkText = true)
  ∧ (forall linkText, allows (filtersOfInput "") linkText = true)
  ∧ (forall linkText, allows (normalizeFilterList (Some [])) linkText = true).
Proof.
  split; [apply matchesAllowedFilter_spec|].
  split.
  { intros. unfold haystackOf. do 2 f_equal.
    rewrite <- (toLowerCase_toUpperCase (linkText +:+ " " +:+ brand +:+ " " +:+ model)).
    f_equal. apply toUpperCase_app3. }
  split.
  { intros brands. unfold normalizeFilterList. do 2 f_equal. rewrite map_map.
    apply map_ext. intros v. rewrite toLowerCase_toUpperCase. reflexivity. }
  repeat split; try (vm_compute; reflexivity);
    intros linkText; unfold allows; destruct (extractBrandModel linkText); reflexivity.
Qed.

(* ===================================================================== *)
(** * Identity                                                            *)
(* ===================================================================== *)

Lemma trackPart_insert `{Platform} net motorcycleId pageUrl ts dl part w :
  matchedRow motorcycleId part (parts w) = None ->
  trackPart net motorcycleId pageUrl ts dl part w
  = if insertable motorcycleId part (parts w) then
      let w1 := set_parts (fun rows => rows ++ [newRow motorcycleId pageUrl ts part]) w in
      let w2 := snd (syncPartImages net (partIdOf motorcycleId part) (imageUrls part) dl w1) in
      (Ok tt, set_parts (touchRows (part_images w2) ts (partIdOf motorcycleId part)) w2)
    else (Ok tt, w).
Proof.
  intros Hm. rewrite trackPart_lookup, Hm. unfold tryCatch, bind at 1.
  unfold insertPart, insertable, orNullS.
  destruct (truthy (partNumber part)); [|reflexivity]. cbn [andb].
  destruct (hasPartId _ _); [reflexivity|]. cbn [negb]. unfold bind.
  fold (newRow motorcycleId pageUrl ts part).
  match goal with |- context [syncPartImages ?n ?i ?u ?d ?v] =>
    destruct (syncPartImages_frame n i u d v) as (E & _) end.
  rewrite E. reflexivity.
Qed.

Lemma touchRows_ids images ts id rows : map p_id (touchRows images ts id rows) = map p_id rows.
Proof.
  unfold touchRows. rewrite map_map. apply map_ext. intros r.
  destruct (String.eqb (p_id r) id); reflexivity.
Qed.

Lemma applied_ids existing part pageUrl ts rows :
  map p_id (map (applied existing part pageUrl ts) rows) = map p_id rows.
Proof.
  rewrite map_map. apply map_ext. intros r. unfold applied.
  destruct (String.eqb (p_id r) (p_id existing)); reflexivity.
Qed.

(** The ids of the parts table after one part was tracked. *)
Lemma trackPart_ids `{Platform} net motorcycleId pageUrl ts dl part w :
  map p_id (parts (snd (trackPart net motorcycleId pageUrl ts dl part w)))
  = map p_id (parts w)
    ++ (if matchedRow motorcycleId part (parts w) then []
        else if insertable motorcycleId part (parts w)
             then [partIdOf motorcycleId part] else []).
Proof.
  destruct (matchedRow motorcycleId part (parts w)) as [existing|] eqn:Hm.
  - rewrite trackPart_lookup, Hm. cbn zeta. cbn [snd parts set_parts].
    rewrite touchRows_ids, app_nil_r.
    destruct (changeDetected _ _ _); cbn [parts set_parts set_history];
      rewrite ?applied_ids; apply f_equal, syncPartImages_parts.
  - rewrite (trackPart_insert _ _ _ _ _ _ _ Hm).
    destruct (insertable motorcycleId part (parts w)); [|cbn; rewrite app_nil_r; reflexivity].
    cbn zeta. cbn [snd parts set_parts]. rewrite touchRows_ids, syncPartImages_parts.
    cbn. rewrite map_app. reflexivity.
Qed.

Lemma toBrandCase_spec value :
  let token := trim value in
  (token = EmptyString -> toBrandCase value = EmptyString)
  ∧ (token ≠ EmptyString -> (String.length token <= 3)%nat ->
     toBrandCase value = toUpperCase token)
  ∧ (forall c rest, token = String c rest -> (3 < String.length token)%nat ->
     toBrandCase value = String (upperChar c) (toLowerCase rest)).
Proof.
  intros token. unfold toBrandCase. fold token. repeat split.
  - intros ->. reflexivity.
  - intros Hn Hl. destruct token; [contradiction|]. cbn [truthy negb].
    apply Nat.leb_le in Hl. rewrite Hl. reflexivity.
  - intros c rest -> Hl. cbn [truthy negb].
    apply Nat.leb_gt in Hl. rewrite Hl. reflexivity.
Qed.

Lemma resolveMotorcycle_id `{Platform} link brand model listingUrl ts w :
  fst (resolveMotorcycle link brand model listingUrl ts w)
  = Ok (match vehicleAt listingUrl w with
        | Some existing => m_id existing
        | None => generateId (brand +:+ "-" +:+ model)
        end).
Proof.
  unfold resolveMotorcycle, vehicleAt, bind at 1, gets at 1.
  destruct (List.find _ (motorcycles w)) as [existing|].
  - unfold bind, updateMotorcycle, modify, ret.
    destruct (negb _ || negb _); reflexivity.
  - unfold bind at 1, gets at 1.
    destruct (List.find _ (motorcycles w)); reflexivity.
Qed.


(* ===================================================================== *)
(** * Local paths of images                                               *)
(* ===================================================================== *)

Lemma splitAt_plain sep a : forall cur,
  noSep sep a -> splitAt sep a cur = [rev cur ++ a].
Proof.
  induction a as [|x a IH]; intros cur Ha; cbn.
  - rewrite app_nil_r. reflexivity.
  - unfold noSep in Ha. cbn in Ha. apply andb_prop in Ha as (Hx & Ha).
    apply negb_true_iff in Hx. rewrite Hx, (IH _ Ha). cbn.
    rewrite <- app_assoc. reflexivity.
Qed.

Lemma splitAt_sep sep a c rest : forall cur,
  noSep sep a -> sep c = true ->
  splitAt sep (a ++ c :: rest) cur = (rev cur ++ a) :: splitAt sep rest [].
Proof.
  induction a as [|x a IH]; intros cur Ha Hc; cbn.
  - rewrite Hc, app_nil_r. reflexivity.
  - unfold noSep in Ha. cbn in Ha. apply andb_prop in Ha as (Hx & Ha).
    apply negb_true_iff in Hx. rewrite Hx, (IH _ Ha Hc). cbn.
    rewrite <- app_assoc. reflexivity.
Qed.

Lemma splitAt_pieces sep l : forall cur,
  noSep sep cur -> Forall (noSep sep) (splitAt sep l cur).
Proof.
  induction l as [|x l IH]; intros cur Hc; cbn.
  - constructor; [|constructor]. unfold noSep in *.
    rewrite forallb_forall in *. intros y Hy. apply Hc, in_rev, Hy.
  - destruct (sep x) eqn:Hx.
    + constructor; [|apply IH; reflexivity]. unfold noSep in *.
      rewrite forallb_forall in *. intros y Hy. apply Hc, in_rev, Hy.
    + apply IH. unfold noSep in *. cbn. rewrite Hx, Hc. reflexivity.
Qed.

Lemma join_cons sep x y l : join sep (x :: y :: l) = x +:+ sep +:+ join sep (y :: l).
Proof. reflexivity. Qed.

(** Splitting undoes joining when no piece holds the separator. *)
Lemma split_join segs :
  segs ≠ [] -> Forall (fun s => noSep isSlash (chars s)) segs ->
  split isSlash (join "/" segs) = segs.
Proof.
  unfold split. induction segs as [|x segs IH]; intros Hn Hs; [contradiction|].
  inversion Hs as [|? ? Hx Hrest]; subst.
  destruct segs as [|y segs].
  - cbn [join String.concat]. rewrite (splitAt_plain _ _ _ Hx). cbn. rewrite str_chars.
    reflexivity.
  - rewrite join_cons, !chars_app.
    change (chars "/") with ["/"%char]. cbn [app].
    rewrite (splitAt_sep isSlash (chars x) "/"%char _ [] Hx eq_refl).
    cbn [map rev app]. rewrite str_chars. f_equal. apply IH; [discriminate|exact Hrest].
Qed.

Lemma notDots_spec seg : notDots seg = true <-> seg ≠ "."%string ∧ seg ≠ ".."%string.
Proof.
  unfold notDots. rewrite andb_true_iff, !negb_true_iff, !String.eqb_neq. tauto.
Qed.

Lemma truthy_spec s : truthy s = true <-> s ≠ EmptyString.
Proof. destruct s; cbn; split; congruence. Qed.

(** X1. The local path derived from an image URL is never empty, and no
    segment of it is empty, [.] or [..]: the path is relative and cannot
    leave the images directory. *)
Theorem local_path_is_safe `{Platform} imageUrl relative :
  getLocalImagePathFromUrl imageUrl = Some relative ->
  relative ≠ EmptyString ∧ Forall safeSegment (split isSlash relative).
Proof.
  unfold getLocalImagePathFromUrl.
  destruct (decodedPathname imageUrl) as [pathname|]; [|discriminate].
  set (raw := match indexOf _ _ with Some idx => _ | None => _ end).
  set (segs := List.filter notDots (List.filter truthy (split isSlash raw))).
  destruct (truthy (join "/" segs)) eqn:Ht; [|discriminate].
  intros E. injection E as <-. split; [apply truthy_spec, Ht|].
  assert (Hn : segs ≠ []) by (intros E; rewrite E in Ht; discriminate).
  assert (Hs : Forall (fun s => noSep isSlash (chars s)) segs).
  { apply Forall_forall. intros s Hin. unfold segs in Hin.
    apply list_elem_of_In, filter_In in Hin as (Hin & _).
    apply filter_In in Hin as (Hin & _). unfold split in Hin.
    apply in_map_iff in Hin as (p & <- & Hp). rewrite chars_str.
    pose proof (splitAt_pieces isSlash (chars raw) [] eq_refl) as Hall.
    rewrite Forall_forall in Hall. apply Hall, list_elem_of_In, Hp. }
  rewrite (split_join segs Hn Hs).
  apply Forall_forall. intros s Hin. unfold segs in Hin.
  apply list_elem_of_In, filter_In in Hin as (Hin & Hd).
  apply filter_In in Hin as (_ & Ht').
  apply notDots_spec in Hd. apply truthy_spec in Ht'. unfold safeSegment. tauto.
Qed.

Lemma local_path_is_safe_witness :
  @getLocalImagePathFromUrl SimpleUrl.lib thumbUrl
  = Some "MX12505/pikkukuvat/DSCN3304_small.JPG"%string
  ∧ Forall safeSegment (split isSlash "MX12505/pikkukuvat/DSCN3304_small.JPG").
Proof.
  split; [vm_compute; reflexivity|].
  apply (@local_path_is_safe SimpleUrl.lib thumbUrl). vm_compute. reflexivity.
Defined.

(* ===================================================================== *)
(** * The content-length header                                           *)
(* ===================================================================== *)


Lemma takeDigits_app ds rest :
  Forall (fun c => isDigit c = true) ds -> endsNumber rest -> takeDigits (ds ++ rest) = ds.
Proof.
  intros Hd Hr. induction Hd as [|c ds Hc Hd IH]; cbn.
  - destruct rest as [|c rest]; [reflexivity|]. cbn in Hr. cbn. rewrite Hr. reflexivity.
  - rewrite Hc, IH. reflexivity.
Qed.




(* ===================================================================== *)
(** * Downloads that change nothing                                       *)
(* ===================================================================== *)

Lemma download_without_path `{Platform} net imageUrl w :
  getLocalImagePathFromUrl imageUrl = None ->
  downloadImage net imageUrl w
  = (Ok None,
     set_errors (fun l => l ++ ["Failed to download image from " +:+ imageUrl +:+ ": "
                                +:+ "Unable to derive local path from URL: " +:+ imageUrl]) w).
Proof. intros Hp. unfold downloadImage, tryCatch, bind. rewrite Hp. reflexivity. Qed.

(** X3. [downloadImage] never throws and never touches a table. For a URL
    that yields no local path it resolves to null, sends no request, writes
    no file and logs one error. *)
Theorem download_is_contained `{Platform} net imageUrl w :
  (exists r, fst (downloadImage net imageUrl w) = Ok r)
  ∧ sameTables w (snd (downloadImage net imageUrl w))
  ∧ (getLocalImagePathFromUrl imageUrl = None ->
     fst (downloadImage net imageUrl w) = Ok None
     ∧ network (snd (downloadImage net imageUrl w)) = network w
     ∧ files (snd (downloadImage net imageUrl w)) = files w
     ∧ errors (snd (downloadImage net imageUrl w))
       = errors w ++ ["Failed to download image from " +:+ imageUrl +:+ ": "
                      +:+ "Unable to derive local path from URL: " +:+ imageUrl]).
Proof.
  destruct (download_frame net imageUrl w) as (r & E & S).
  split; [exists r; rewrite E; reflexivity|]. split; [exact S|].
  intros Hp. rewrite (download_without_path net imageUrl w Hp). cbn. auto.
Qed.

(** X4. A transfer that fails leaves every file as it was, makes no backup
    and resolves to null. *)
Theorem failed_transfer_keeps_files `{Platform} net imageUrl relative w :
  getLocalImagePathFromUrl imageUrl = Some relative ->
  ¬ probeAgrees net imageUrl relative w ->
  getImage net imageUrl = None ->
  fst (downloadImage net imageUrl w) = Ok None
  ∧ files (snd (downloadImage net imageUrl w)) = files w
  ∧ clock (snd (downloadImage net imageUrl w)) = clock w.
Proof.
  intros Hp Ha Hg. pose proof (download_transfers net imageUrl relative w Hp Ha) as E.
  cbn zeta in E. rewrite E, Hg. cbn. auto.
Qed.

Lemma failed_transfer_keeps_files_witness :
  @getLocalImagePathFromUrl SimpleUrl.lib thumbUrl = Some thumbPath
  ∧ getImage offline thumbUrl = None
  ∧ fst (@downloadImage SimpleUrl.lib offline thumbUrl worldWithThumb) = Ok None
  ∧ files (snd (@downloadImage SimpleUrl.lib offline thumbUrl worldWithThumb))
    = files worldWithThumb.
Proof.
  split; [vm_compute; reflexivity|]. split; [reflexivity|].
  destruct (@failed_transfer_keeps_files SimpleUrl.lib offline thumbUrl thumbPath
              worldWithThumb) as (E & F & _).
  - vm_compute. reflexivity.
  - apply (bool_decide_eq_false_1 (probeAgrees offline thumbUrl thumbPath worldWithThumb)).
    vm_compute. reflexivity.
  - reflexivity.
  - split; [exact E|exact F].
Defined.

(* ===================================================================== *)
(** * Synchronising again                                                 *)
(* ===================================================================== *)

Lemma probeAgrees_files net imageUrl relative w w' :
  files w' = files w ->
  probeAgrees net imageUrl relative w' <-> probeAgrees net imageUrl relative w.
Proof. intros E. unfold probeAgrees, localSizeOf. rewrite E. reflexivity. Qed.

Lemma settled_files `{Platform} net imageUrl w w' :
  files w' = files w -> settled net imageUrl w -> settled net imageUrl w'.
Proof.
  intros E. unfold settled. destruct (getLocalImagePathFromUrl imageUrl); [|auto].
  rewrite (probeAgrees_files _ _ _ _ _ E). unfold localSizeOf. rewrite E. auto.
Qed.

Lemma settled_quiet `{Platform} net imageUrl w :
  settled net imageUrl w ->
  files (snd (downloadImage net imageUrl w)) = files w
  ∧ clock (snd (downloadImage net imageUrl w)) = clock w
  ∧ quietOutcome (fst (downloadImage net imageUrl w)).
Proof.
  unfold settled. destruct (getLocalImagePathFromUrl imageUrl) as [relative|] eqn:Hp.
  - intros Hs.
    destruct (decide (probeAgrees net imageUrl relative w)) as [Ha|Ha].
    + rewrite (download_skips _ _ _ _ Hp Ha). cbn. split; [reflexivity|].
      split; [reflexivity|]. right. eexists. repeat split.
    + pose proof (download_transfers net imageUrl relative w Hp Ha) as E. cbn zeta in E.
      rewrite E. destruct Hs as [Hs|[Hs|(data & Hd & Hs)]]; [contradiction| |].
      * rewrite Hs. cbn. split; [reflexivity|]. split; [reflexivity|]. left. reflexivity.
      * rewrite Hd, bool_decide_eq_true_2 by exact Hs. cbn.
        split; [reflexivity|]. split; [reflexivity|]. right. eexists. repeat split.
  - intros _. rewrite (download_without_path net imageUrl w Hp). cbn.
    split; [reflexivity|]. split; [reflexivity|]. left. reflexivity.
Qed.

Lemma download_settles `{Platform} net imageUrl w :
  settled net imageUrl (snd (downloadImage net imageUrl w)).
Proof.
  unfold settled. destruct (getLocalImagePathFromUrl imageUrl) as [relative|] eqn:Hp; [|exact I].
  destruct (decide (probeAgrees net imageUrl relative w)) as [Ha|Ha].
  - left. rewrite (download_skips _ _ _ _ Hp Ha). cbn.
    apply (probeAgrees_files net imageUrl relative w); [reflexivity|exact Ha].
  - pose proof (download_transfers net imageUrl relative w Hp Ha) as E. cbn zeta in E.
    rewrite E. destruct (getImage net imageUrl) as [data|] eqn:Hd; [|auto].
    right. right. exists data. split; [reflexivity|].
    destruct (bool_decide_reflect (localSizeOf w relative = Some (fileSize data))) as [Hs|Hs].
    + exact Hs.
    + unfold localSizeOf in *. destruct (files w !! relative); cbn;
        rewrite lookup_insert_eq; reflexivity.
Qed.

(** X5. Synchronising an image a second time, right after the first and
    against the same remote, reports nothing new (null or
    [skipped_unchanged], no backup path) and writes no file. *)
Theorem resync_is_quiet `{Platform} net imageUrl w :
  let first := snd (downloadImage net imageUrl w) in
  files (snd (downloadImage net imageUrl first)) = files first
  ∧ quietOutcome (fst (downloadImage net imageUrl first)).
Proof.
  intros first.
  destruct (settled_quiet net imageUrl first (download_settles net imageUrl w))
    as (Hf & _ & Hq).
  split; assumption.
Qed.

(* ===================================================================== *)
(** * Invariants of a whole crawl                                         *)
(* ===================================================================== *)

Ltac unfold_statements :=
  unfold ensureNotAborted, waitOrAbort, axiosGet, resolveScrapeTimestamp, consoleError,
    begins, dateNow, updateMotorcycle, insertImageOrIgnore, updateImagePath, touchPart,
    updatePart, insertPart, insertHistory, softDelete, copyFile, writeFile,
    getLocalFileSize, modify, gets, ret, throw, bind in *.

(** Closes [Preserves P m] for a statement [m] that leaves alone what [P]
    looks at. *)
Ltac keeps :=
  let w := fresh "w" in
  let Hw := fresh "Hw" in
  intros w Hw; unfold_statements;
  repeat match goal with
         | |- context [match ?x with _ => _ end] => destruct x
         end;
  cbn in *; exact Hw.

Section CrawlInvariant.

Context `{Platform}.
Variable P : World -> Prop.
Variable signal : Signal.

Hypothesis P_request : forall e,
  (if e is GetPage _ then False else if e is Delay _ then False else True) ->
  Preserves P (begins e).
Hypothesis P_axiosGet : forall A url (response : option A),
  Preserves P (axiosGet signal url response).
Hypothesis P_waitOrAbort : forall ms, Preserves P (waitOrAbort ms signal).
Hypothesis P_consoleError : forall line, Preserves P (consoleError line).
Hypothesis P_dateNow : Preserves P dateNow.
Hypothesis P_files : forall f, Preserves P (modify (set_files f)).
Hypothesis P_images : forall f, Preserves P (modify (set_images f)).
Hypothesis P_motorcycles : forall f, Preserves P (modify (set_motorcycles f)).
Hypothesis P_insertPart : forall a b c d e f g h i j k,
  Preserves P (insertPart a b c d e f g h i j k).
Hypothesis P_touchPart : forall ts id, Preserves P (touchPart ts id).
Hypothesis P_updatePart : forall a b c d e f g h i,
  Preserves P (updatePart a b c d e f g h i).
Hypothesis P_insertHistory : forall a b c d e f g h i j k l m n,
  Preserves P (insertHistory a b c d e f g h i j k l m n).
Hypothesis P_softDelete : forall ts cond, Preserves P (softDelete ts cond).

Lemma crawl_copyFile from to : Preserves P (copyFile from to).
Proof.
  intros w Hw. unfold copyFile. destruct (files w !! from) as [content|]; [|exact Hw].
  apply (P_files (insert to content) w Hw).
Qed.

Lemma crawl_downloadImage net imageUrl : Preserves P (downloadImage net imageUrl).
Proof.
  unfold downloadImage, getLocalFileSize, getRemoteImageSize, axiosGetImage, writeFile.
  repeat first
    [ preserves_step
    | apply P_request; exact I
    | apply P_consoleError
    | apply P_dateNow
    | apply crawl_copyFile
    | apply P_files ].
Qed.

Lemma crawl_syncEach net partId dl urls : forall i results,
  Preserves P (syncEach net partId dl urls i results).
Proof.
  induction urls as [|u urls IH]; intros i results; cbn [syncEach].
  - apply preserves_ret.
  - unfold insertImageOrIgnore, updateImagePath.
    repeat first
      [ preserves_step
      | apply crawl_downloadImage
      | apply P_images
      | apply IH ].
Qed.

Lemma crawl_syncPartImages net partId urls dl :
  Preserves P (syncPartImages net partId urls dl).
Proof. apply crawl_syncEach. Qed.

Lemma crawl_trackPart net motorcycleId pageUrl ts dl part :
  Preserves P (trackPart net motorcycleId pageUrl ts dl part).
Proof.
  unfold trackPart, selectPartByNumber, selectPartByName.
  repeat first
    [ preserves_step
    | apply P_insertPart
    | apply P_updatePart
    | apply crawl_syncPartImages
    | apply P_insertHistory
    | apply P_touchPart
    | apply P_consoleError ].
Qed.

Lemma crawl_trackParts net motorcycleId pageUrl ts dl ps : forall seen,
  Preserves P (trackParts net motorcycleId pageUrl ts dl ps seen).
Proof.
  induction ps as [|p ps IH]; intros seen; cbn [trackParts].
  - apply preserves_ret.
  - apply preserves_bind; [apply crawl_trackPart | intros _; apply IH].
Qed.

Lemma crawl_markDeletedParts motorcycleId seen tsIn :
  Preserves P (markDeletedParts motorcycleId seen tsIn).
Proof.
  unfold markDeletedParts.
  repeat first
    [ preserves_step
    | apply P_insertHistory
    | apply P_softDelete
    | apply P_dateNow ].
Qed.

Lemma crawl_resolveScrapeTimestamp options : Preserves P (resolveScrapeTimestamp options).
Proof. unfold resolveScrapeTimestamp. repeat preserves_step. Qed.

Lemma crawl_scrapeParts net tables motorcycleId pageUrl options :
  Preserves P (scrapeParts net tables motorcycleId pageUrl options).
Proof.
  unfold scrapeParts.
  repeat first [ preserves_step
               | apply crawl_resolveScrapeTimestamp
               | apply crawl_trackParts ].
Qed.

Lemma crawl_resolveMotorcycle link brand model listingUrl ts :
  Preserves P (resolveMotorcycle link brand model listingUrl ts).
Proof.
  unfold resolveMotorcycle, updateMotorcycle.
  repeat first [ preserves_step | apply P_motorcycles ].
Qed.

Lemma crawl_ensureNotAborted s : Preserves P (ensureNotAborted s).
Proof. intros w Hw. unfold ensureNotAborted. destruct (aborted s w); exact Hw. Qed.

Lemma crawl_scrapeMotorcyclePage net link allowedBrands options :
  o_signal options = signal ->
  Preserves P (scrapeMotorcyclePage net link allowedBrands options).
Proof.
  intros Hs. unfold scrapeMotorcyclePage. rewrite Hs.
  destruct (extractBrandModel (text link)) as [brand model].
  repeat first [ preserves_step
               | apply crawl_resolveScrapeTimestamp
               | apply crawl_ensureNotAborted
               | apply P_axiosGet
               | apply crawl_resolveMotorcycle
               | apply crawl_scrapeParts
               | apply crawl_markDeletedParts
               | apply P_consoleError ].
Qed.

Lemma crawl_scrapeCategoryList net allowedBrands options :
  o_signal options = signal ->
  Preserves P (scrapeCategoryList net allowedBrands options).
Proof.
  intros Hs. unfold scrapeCategoryList. rewrite Hs.
  repeat first [ preserves_step
               | apply crawl_resolveScrapeTimestamp
               | apply crawl_ensureNotAborted
               | apply P_axiosGet
               | apply crawl_scrapeMotorcyclePage; reflexivity
               | apply P_waitOrAbort
               | apply P_consoleError
               | match goal with
                 | |- Preserves _ (let '(_, _) := ?x in _) => destruct x
                 end ].
Qed.

End CrawlInvariant.

(** X6. The history log is append-only: whatever a crawl or the scrape of
    one model page does, the history rows present before are still the
    first rows afterwards, unchanged and in order. *)
Theorem history_is_append_only `{Platform} net link allowedBrands options w :
  historyExtends w (snd (scrapeCategoryList net allowedBrands options w))
  ∧ historyExtends w (snd (scrapeMotorcyclePage net link allowedBrands options w)).
Proof.
  assert (H0 : historyExtends w w) by (exists []; rewrite app_nil_r; reflexivity).
  split.
  - apply (crawl_scrapeCategoryList (historyExtends w) (o_signal options));
      try reflexivity; try exact H0; intros; try keeps.
    intros v (s & Hv). unfold insertHistory. destruct j; [|exists s; exact Hv].
    eexists. cbn. rewrite Hv, <- app_assoc. reflexivity.
  - apply (crawl_scrapeMotorcyclePage (historyExtends w) (o_signal options));
      try reflexivity; try exact H0; intros; try keeps.
    intros v (s & Hv). unfold insertHistory. destruct j; [|exists s; exact Hv].
    eexists. cbn. rewrite Hv, <- app_assoc. reflexivity.
Qed.

Lemma map_ids_touch (f : PartRow -> PartRow) (c : PartRow -> bool) rows :
  (forall r, p_id (f r) = p_id r) ->
  map p_id (map (fun r => if c r then f r else r) rows) = map p_id rows.
Proof.
  intros Hf. rewrite map_map. apply map_ext. intros r. destruct (c r); [apply Hf|reflexivity].
Qed.

Lemma hasPartId_false id rows : hasPartId id rows = false -> id ∉ map p_id rows.
Proof.
  unfold hasPartId. intros Hn Hin. apply list_elem_of_In, in_map_iff in Hin as (r & <- & Hr).
  assert (Ht : existsb (fun r0 => String.eqb (p_id r0) (p_id r)) rows = true).
  { apply existsb_exists. exists r. split; [exact Hr|apply String.eqb_refl]. }
  congruence.
Qed.

Lemma ids_statements (Q : list string -> Prop) :
  (forall ts id, Preserves (fun w => Q (map p_id (parts w))) (touchPart ts id))
  ∧ (forall a b c d e f g h i,
       Preserves (fun w => Q (map p_id (parts w))) (updatePart a b c d e f g h i))
  ∧ (forall ts cond, Preserves (fun w => Q (map p_id (parts w))) (softDelete ts cond)).
Proof.
  repeat split; intros; intros w Hw; cbn;
    rewrite (map_ids_touch _ _ (parts w)) by reflexivity; exact Hw.
Qed.

(** X7. No operation of a crawl removes a part row or changes its id, and
    the primary key stays unique: the ids present before are the first ids
    afterwards, in order, and ids that were pairwise distinct stay so. *)
Theorem parts_are_never_removed `{Platform} net link allowedBrands options w :
  partsRetained w (snd (scrapeCategoryList net allowedBrands options w))
  ∧ partsRetained w (snd (scrapeMotorcyclePage net link allowedBrands options w))
  ∧ (uniqueIds w ->
     uniqueIds (snd (scrapeCategoryList net allowedBrands options w))
     ∧ uniqueIds (snd (scrapeMotorcyclePage net link allowedBrands options w))).
Proof.
  assert (H0 : partsRetained w w) by (exists []; rewrite app_nil_r; reflexivity).
  assert (Hins1 : forall a b c d e f g h i j k,
             Preserves (partsRetained w) (insertPart a b c d e f g h i j k)).
  { intros. intros v (s & Hv). unfold insertPart. destruct d; [|exists s; exact Hv].
    destruct (hasPartId a (parts v)); [exists s; exact Hv|].
    eexists. cbn. rewrite map_app, Hv, <- app_assoc. reflexivity. }
  assert (Hins2 : forall a b c d e f g h i j k,
             Preserves uniqueIds (insertPart a b c d e f g h i j k)).
  { intros. intros v Hv. unfold insertPart. destruct d; [|exact Hv].
    destruct (hasPartId a (parts v)) eqn:Hh; [exact Hv|].
    unfold uniqueIds in *. cbn. rewrite map_app. cbn.
    apply NoDup_app. split; [exact Hv|]. split.
    - intros x Hx Hx'. apply list_elem_of_singleton in Hx'. subst x.
      exact (hasPartId_false _ _ Hh Hx).
    - apply NoDup_singleton. }
  destruct (ids_statements (fun ids => exists s, ids = map p_id (parts w) ++ s))
    as (T1 & U1 & S1).
  destruct (ids_statements (@NoDup string)) as (T2 & U2 & S2).
  split; [|split].
  - apply (crawl_scrapeCategoryList (partsRetained w) (o_signal options));
      try reflexivity; try exact H0; try exact Hins1; try exact T1; try exact U1;
      try exact S1; intros; keeps.
  - apply (crawl_scrapeMotorcyclePage (partsRetained w) (o_signal options));
      try reflexivity; try exact H0; try exact Hins1; try exact T1; try exact U1;
      try exact S1; intros; keeps.
  - intros Hu. split.
    + apply (crawl_scrapeCategoryList uniqueIds (o_signal options));
        try reflexivity; try exact Hu; try exact Hins2; try exact T2; try exact U2;
        try exact S2; intros; keeps.
    + apply (crawl_scrapeMotorcyclePage uniqueIds (o_signal options));
        try reflexivity; try exact Hu; try exact Hins2; try exact T2; try exact U2;
        try exact S2; intros; keeps.
Qed.

(* ===================================================================== *)
(** * Cancellation                                                        *)
(* ===================================================================== *)

Lemma skipn_snoc {A} n (l : list A) x :
  (length l < n)%nat -> skipn n (l ++ [x]) = [].
Proof.
  intros Hl. apply skipn_all2. rewrite length_app. cbn. lia.
Qed.

Lemma onlyImages_begins n e : imageEvent e -> Preserves (onlyImagesAfter n) (begins e).
Proof.
  intros He w Hw. unfold onlyImagesAfter in *. cbn.
  rewrite skipn_app. apply Forall_app. split; [exact Hw|].
  destruct (n - length (network w))%nat; cbn; [repeat constructor; exact He|].
  rewrite skipn_nil. constructor.
Qed.

Lemma onlyImages_axiosGet {A} n url (response : option A) :
  Preserves (onlyImagesAfter n) (axiosGet (Some n) url response).
Proof.
  intros w Hw. unfold axiosGet, aborted.
  destruct (Nat.leb_spec n (length (network w))) as [Hl|Hl]; [exact Hw|].
  unfold onlyImagesAfter.
  destruct response; cbn; rewrite (skipn_snoc _ _ _ Hl); constructor.
Qed.

Lemma onlyImages_waitOrAbort n ms : Preserves (onlyImagesAfter n) (waitOrAbort ms (Some n)).
Proof.
  intros w Hw. unfold waitOrAbort. destruct (ms <=? 0); [exact Hw|]. unfold aborted.
  destruct (Nat.leb_spec n (length (network w))) as [Hl|Hl]; [exact Hw|].
  unfold onlyImagesAfter. cbn. rewrite (skipn_snoc _ _ _ Hl). constructor.
Qed.

(** X8. Once the cancellation signal has fired, no page request and no wait
    begins during a crawl or the scrape of a model page: every request that
    begins after the firing is the probe or the download of an image. *)
Theorem cancellation_stops_pages_and_waits `{Platform} net link allowedBrands options n w :
  o_signal options = Some n ->
  onlyImagesAfter n w ->
  onlyImagesAfter n (snd (scrapeCategoryList net allowedBrands options w))
  ∧ onlyImagesAfter n (snd (scrapeMotorcyclePage net link allowedBrands options w)).
Proof.
  intros Hs Hw. split.
  - apply (crawl_scrapeCategoryList (onlyImagesAfter n) (Some n));
      try exact Hs; try exact Hw; intros;
      try apply onlyImages_axiosGet; try apply onlyImages_waitOrAbort; try keeps.
    apply onlyImages_begins. destruct e; try contradiction; exact I.
  - apply (crawl_scrapeMotorcyclePage (onlyImagesAfter n) (Some n));
      try exact Hs; try exact Hw; intros;
      try apply onlyImages_axiosGet; try apply onlyImages_waitOrAbort; try keeps.
    apply onlyImages_begins. destruct e; try contradiction; exact I.
Qed.

Lemma cancellation_stops_pages_and_waits_witness :
  o_signal stopAfterOne = Some 1%nat
  ∧ onlyImagesAfter 1 emptyWorld
  ∧ onlyImagesAfter 1
      (snd (@scrapeMotorcyclePage SimpleUrl.lib tankSite link1 None stopAfterOne emptyWorld)).
Proof.
  split; [reflexivity|].
  assert (H0 : onlyImagesAfter 1 emptyWorld) by constructor.
  split; [exact H0|].
  apply (@cancellation_stops_pages_and_waits SimpleUrl.lib tankSite link1 None stopAfterOne
           1%nat emptyWorld eq_refl H0).
Defined.

(* ===================================================================== *)
(** * No error is fatal                                                   *)
(* ===================================================================== *)

(** X9. Neither entry point throws: a failure of the network, of the
    cancellation check or of a statement ends in the catch of
    [scrapeMotorcyclePage] or of [scrapeCategoryList], and the call returns. *)
Theorem entry_points_never_throw `{Platform} net link allowedBrands options w :
  fst (scrapeMotorcyclePage net link allowedBrands options w) = Ok tt
  ∧ fst (scrapeCategoryList net allowedBrands options w) = Ok tt.
Proof.
  split.
  - destruct (total_tryCatch
                (let* scrapeTimestamp := resolveScrapeTimestamp options in
                 run ensureNotAborted (o_signal options) then
                 let listingUrl := normalizeModelUrl (href link) in
                 let* response := axiosGet (o_signal options) listingUrl
                                    (modelPage net listingUrl) in
                 let '(brand, model) := extractBrandModel (text link) in
                 let filters := normalizeFilterList allowedBrands in
                 if negb (matchesAllowedFilter filters (text link) brand model) then ret tt
                 else
                   let* motorcycleId :=
                     resolveMotorcycle link brand model listingUrl scrapeTimestamp in
                   let* result := scrapeParts net response motorcycleId listingUrl
                                    (withTimestamp options scrapeTimestamp) in
                   markDeletedParts motorcycleId (seenPartIds result) (Some scrapeTimestamp))
                (fun message =>
                   consoleError ("Error scraping " +:+ text link +:+ ": " +:+ message))
                (fun e => total_modify _) w) as ([] & E).
    exact E.
  - unfold scrapeCategoryList.
    match goal with |- fst (bind ?m ?k ?w) = _ =>
      assert (Ht : Total (bind m k)) end.
    { apply total_bind.
      - unfold resolveScrapeTimestamp. destruct (orNull _); [apply total_ret|].
        apply total_bind; [apply total_gets|intros; apply total_ret].
      - intros ts. apply total_tryCatch. intros e.
        destruct (String.eqb e "Scrape aborted"); [apply total_ret|apply total_modify]. }
    destruct (Ht w) as ([] & E). exact E.
Qed.

(* ===================================================================== *)
(** * The asset table                                                     *)
(* ===================================================================== *)

Lemma download_images `{Platform} net imageUrl w :
  part_images (snd (downloadImage net imageUrl w)) = part_images w.
Proof. destruct (download_frame net imageUrl w) as (_ & _ & (_ & _ & E & _)). exact E. Qed.

Section AssetInvariant.

Context `{Platform}.
Variable Q : list ImageRow -> Prop.
Variable partId : string.

Hypothesis Q_withAsset : forall imageUrl imagePath sortOrder images,
  Q images -> Q (withAsset partId imageUrl imagePath sortOrder images).
Hypothesis Q_withAssetPath : forall imagePath imageUrl images,
  Q images -> Q (withAssetPath imagePath partId imageUrl images).

Lemma syncEach_assets net dl urls : forall i results,
  Preserves (fun w => Q (part_images w)) (syncEach net partId dl urls i results).
Proof.
  induction urls as [|u urls IH]; intros i results; cbn [syncEach].
  - apply preserves_ret.
  - apply preserves_bind.
    + destruct dl; [|apply preserves_ret].
      intros w Hw. rewrite download_images. exact Hw.
    + intros dl0. apply preserves_bind.
      * intros w Hw. cbn. apply Q_withAsset, Hw.
      * intros _. apply preserves_bind; [|intros _; apply IH].
        destruct (filepath <$> _); [|apply preserves_ret].
        intros w Hw. cbn. apply Q_withAssetPath, Hw.
Qed.

End AssetInvariant.

Lemma withAsset_keys partId imageUrl imagePath sortOrder images :
  map imgKey (withAsset partId imageUrl imagePath sortOrder images)
  = map imgKey images
    ++ (if bool_decide ((partId, imageUrl) ∈ map imgKey images) then []
        else [(partId, imageUrl)]).
Proof.
  unfold withAsset.
  destruct (existsb _ images) eqn:E.
  - rewrite bool_decide_eq_true_2; [rewrite app_nil_r; reflexivity|].
    apply existsb_exists in E as (i & Hi & Hk). apply andb_prop in Hk as (K1 & K2).
    apply String.eqb_eq in K1, K2. apply list_elem_of_In, in_map_iff.
    exists i. split; [|exact Hi]. unfold imgKey. congruence.
  - rewrite bool_decide_eq_false_2; [rewrite map_app; reflexivity|].
    intros Hin. apply list_elem_of_In, in_map_iff in Hin as (i & Hk & Hi).
    assert (Ht : existsb (fun i => String.eqb (pi_part_id i) partId
                                   && String.eqb (pi_image_url i) imageUrl) images = true).
    { apply existsb_exists. exists i. split; [exact Hi|].
      unfold imgKey in Hk. injection Hk as -> ->. rewrite !String.eqb_refl. reflexivity. }
    congruence.
Qed.

Lemma withAssetPath_keys imagePath partId imageUrl images :
  map imgKey (withAssetPath imagePath partId imageUrl images) = map imgKey images.
Proof.
  unfold withAssetPath. rewrite map_map. apply map_ext. intros i.
  destruct (_ && _); reflexivity.
Qed.

Lemma syncEach_covers `{Platform} net partId dl urls : forall i results w u,
  u ∈ urls ->
  (partId, u) ∈ map imgKey (part_images (snd (syncEach net partId dl urls i results w))).
Proof.
  induction urls as [|x urls IH]; intros i results w u Hu; [apply elem_of_nil in Hu; contradiction|].
  cbn [syncEach]. unfold bind at 1.
  destruct (total_run (if dl then downloadImage net x else ret None) w) as (dl0 & E).
  { destruct dl; [apply download_total|apply total_ret]. }
  rewrite E. unfold bind at 1. cbn [insertImageOrIgnore modify fst snd].
  unfold bind at 1.
  set (w1 := set_images _ _).
  assert (Hk1 : (partId, x) ∈ map imgKey (part_images w1)).
  { unfold w1. cbn. fold (withAsset partId x
       (filepath <$> match dl0 with
                     | Some d => if truthy (filepath d) then Some d else None
                     | None => None
                     end) i (part_images (snd ((if dl then downloadImage net x else ret None) w)))).
    rewrite withAsset_keys. destruct (bool_decide_reflect
       ((partId, x) ∈ map imgKey (part_images (snd ((if dl then downloadImage net x
                                                     else ret None) w))))) as [Hin|Hin].
    - rewrite app_nil_r. exact Hin.
    - apply elem_of_app. right. apply list_elem_of_singleton. reflexivity. }
  set (m2 := match filepath <$> _ with Some path => _ | None => _ end).
  assert (Hk2 : exists w2, m2 w1 = (Ok tt, w2)
                 ∧ map imgKey (part_images w2) = map imgKey (part_images w1)).
  { unfold m2. destruct (filepath <$> _) as [path|].
    - eexists. split; [reflexivity|]. cbn. apply withAssetPath_keys.
    - eexists. split; [reflexivity|]. reflexivity. }
  destruct Hk2 as (w2 & E2 & K2). rewrite E2.
  apply elem_of_cons in Hu as [->|Hu].
  - apply (syncEach_assets (fun imgs => (partId, x) ∈ map imgKey imgs) partId).
    + intros. rewrite withAsset_keys. apply elem_of_app. left. assumption.
    + intros. rewrite withAssetPath_keys. assumption.
    + rewrite K2. exact Hk1.
  - apply IH, Hu.
Qed.

Lemma setAdd_elem s x y : y ∈ setAdd s x <-> y ∈ s ∨ y = x.
Proof.
  unfold setAdd. destruct (bool_decide_reflect (x ∈ s)) as [Hx|Hx].
  - split; [auto|]. intros [Hy| ->]; assumption.
  - rewrite elem_of_app, list_elem_of_singleton. reflexivity.
Qed.

Lemma setAdd_NoDup s x : NoDup s -> NoDup (setAdd s x).
Proof.
  intros Hs. unfold setAdd. destruct (bool_decide_reflect (x ∈ s)) as [Hx|Hx]; [exact Hs|].
  apply NoDup_app. split; [exact Hs|]. split; [|apply NoDup_singleton].
  intros y Hy Hy'. apply list_elem_of_singleton in Hy'. subst y. contradiction.
Qed.

Lemma fold_setAdd_elem l : forall acc y,
  y ∈ fold_left setAdd l acc <-> y ∈ acc ∨ y ∈ l.
Proof.
  induction l as [|x l IH]; intros acc y; cbn.
  - rewrite elem_of_nil. tauto.
  - rewrite IH, setAdd_elem, elem_of_cons. tauto.
Qed.

Lemma fold_setAdd_NoDup l : forall acc, NoDup acc -> NoDup (fold_left setAdd l acc).
Proof.
  induction l as [|x l IH]; intros acc Ha; cbn; [exact Ha|].
  apply IH, setAdd_NoDup, Ha.
Qed.

Lemma newSet_elem l y : y ∈ newSet l <-> y ∈ l.
Proof. unfold newSet. rewrite fold_setAdd_elem, elem_of_nil. tauto. Qed.

Lemma newSet_NoDup l : NoDup (newSet l).
Proof. apply fold_setAdd_NoDup, NoDup_nil_2. Qed.

Lemma withAsset_others partId imageUrl imagePath sortOrder images :
  assetsOfOthers partId (withAsset partId imageUrl imagePath sortOrder images)
  = assetsOfOthers partId images.
Proof.
  unfold withAsset, assetsOfOthers. destruct (existsb _ images); [reflexivity|].
  rewrite List.filter_app. cbn. rewrite String.eqb_refl. cbn. apply app_nil_r.
Qed.

Lemma withAssetPath_others imagePath partId imageUrl images :
  assetsOfOthers partId (withAssetPath imagePath partId imageUrl images)
  = assetsOfOthers partId images.
Proof.
  unfold withAssetPath, assetsOfOthers. induction images as [|i images IH]; [reflexivity|].
  cbn [map List.filter]. rewrite IH.
  destruct (String.eqb (pi_part_id i) partId) eqn:E; cbn [andb negb].
  - destruct (String.eqb (pi_image_url i) imageUrl); cbn; rewrite E; reflexivity.
  - rewrite E. reflexivity.
Qed.

(** X10. The asset table is upserted: after the images of a part were
    synchronised, every non-empty URL handed in has a row under the part,
    the key (part, URL) is still unique when it was so before, no row
    vanished or changed its key, and the rows of other parts are
    untouched. *)
Theorem asset_rows_are_upserted `{Platform} net partId imageUrls dl w :
  let after := snd (syncPartImages net partId imageUrls dl w) in
  (forall u, u ∈ imageUrls -> u ≠ EmptyString ->
             (partId, u) ∈ map imgKey (part_images after))
  ∧ (NoDup (map imgKey (part_images w)) -> NoDup (map imgKey (part_images after)))
  ∧ (exists added,
       map imgKey (part_images after) = map imgKey (part_images w) ++ added)
  ∧ assetsOfOthers partId (part_images after) = assetsOfOthers partId (part_images w).
Proof.
  intros after. subst after. unfold syncPartImages. split; [|split; [|split]].
  - intros u Hu Hn. apply syncEach_covers. apply newSet_elem.
    apply list_elem_of_In, filter_In. split; [apply list_elem_of_In, Hu|].
    apply truthy_spec, Hn.
  - apply (syncEach_assets (fun imgs => NoDup (map imgKey imgs)) partId).
    + intros u p i imgs Hi. rewrite withAsset_keys.
      destruct (bool_decide_reflect ((partId, u) ∈ map imgKey imgs)) as [Hin|Hin].
      * rewrite app_nil_r. exact Hi.
      * apply NoDup_app. split; [exact Hi|]. split; [|apply NoDup_singleton].
        intros k Hk Hk'. apply list_elem_of_singleton in Hk'. subst k. contradiction.
    + intros p u imgs Hi. rewrite withAssetPath_keys. exact Hi.
  - apply (syncEach_assets
             (fun imgs => exists added, map imgKey imgs = map imgKey (part_images w) ++ added)
             partId).
    + intros u p i imgs (a & Ha). rewrite withAsset_keys, Ha, <- app_assoc. eauto.
    + intros p u imgs (a & Ha). rewrite withAssetPath_keys. eauto.
    + exists []. rewrite app_nil_r. reflexivity.
  - apply (syncEach_assets
             (fun imgs => assetsOfOthers partId imgs = assetsOfOthers partId (part_images w))
             partId).
    + intros. rewrite withAsset_others. assumption.
    + intros. rewrite withAssetPath_others. assumption.
    + reflexivity.
Qed.

Lemma syncEach_off `{Platform} net partId urls : forall i results w,
  let after := snd (syncEach net partId false urls i results w) in
  fst (syncEach net partId false urls i results w) = Ok results
  ∧ files after = files w ∧ network after = network w
  ∧ errors after = errors w ∧ clock after = clock w.
Proof.
  induction urls as [|u urls IH]; intros i results w; cbn [syncEach].
  - cbn. auto.
  - unfold bind, ret, insertImageOrIgnore, modify. cbn.
    match goal with |- context [syncEach _ _ _ _ ?i' ?r' ?w'] =>
      destruct (IH i' r' w') as (E & F1 & F2 & F3 & F4) end.
    cbn zeta in *. rewrite E, F1, F2, F3, F4. cbn. auto.
Qed.

(** X11. With image downloading disabled the synchronisation of a part's
    images sends no request, reads no clock, writes no file and logs
    nothing; it reports no outcome, so no image content change is ever
    detected. *)
Theorem sync_without_downloads `{Platform} net partId imageUrls w :
  let after := snd (syncPartImages net partId imageUrls false w) in
  fst (syncPartImages net partId imageUrls false w) = Ok []
  ∧ imageContentChanged (syncResults net partId imageUrls false w) = false
  ∧ files after = files w ∧ network after = network w
  ∧ errors after = errors w ∧ clock after = clock w.
Proof.
  intros after. subst after. unfold syncResults, syncPartImages.
  destruct (syncEach_off net partId (newSet (List.filter truthy imageUrls)) 0 [] w)
    as (E & F). cbn zeta in F. rewrite E. cbn. split; [reflexivity|]. split; [reflexivity|].
  exact F.
Qed.

(* ===================================================================== *)
(** * What tracking leaves in the parts table                             *)
(* ===================================================================== *)

Lemma touchRows_absent images ts id rows :
  hasPartId id rows = false -> touchRows images ts id rows = rows.
Proof.
  unfold hasPartId, touchRows. induction rows as [|r rows IH]; cbn; [reflexivity|].
  intros Hh. apply orb_false_elim in Hh as (Hr & Hrest). rewrite Hr, (IH Hrest). reflexivity.
Qed.

(** X12. A part matched to a stored row, changed or not: afterwards every
    row with the id of the matched row carries [last_seen] = pass timestamp,
    [is_deleted] = 0 and no [deleted_at]; each row keeps its place, its id,
    its vehicle and its part number, and rows with another id are exactly
    as before. When a change was detected the matched row also carries the
    name, description, price and currency of the part, the page URL and
    [scraped_at] = pass timestamp; otherwise these columns are as
    before. *)
Theorem matched_part_is_stamped `{Platform} net motorcycleId pageUrl ts dl part existing w :
  matchedRow motorcycleId part (parts w) = Some existing ->
  let after := snd (trackPart net motorcycleId pageUrl ts dl part w) in
  let changed :=
    changeDetected existing part
      (syncResults net (p_id existing) (imageUrls part) dl w) in
  Forall2 (fun r r' =>
             p_id r' = p_id r ∧ p_motorcycle_id r' = p_motorcycle_id r
             ∧ p_part_number r' = p_part_number r
             ∧ (p_id r ≠ p_id existing -> r' = r)
             ∧ (p_id r = p_id existing ->
                p_last_seen r' = Some ts ∧ p_is_deleted r' = 0 ∧ p_deleted_at r' = None
                ∧ (p_name r', p_description r', p_price r', p_currency r', p_url r',
                   p_scraped_at r')
                  = if changed
                    then (name part, Some (description part), Some (price part),
                          Some (currency part), pageUrl, Some ts)
                    else (p_name r, p_description r, p_price r, p_currency r, p_url r,
                          p_scraped_at r)))
          (parts w) (parts after).
Proof.
  intros Hm after changed. subst after. rewrite trackPart_lookup, Hm. cbn zeta.
  fold changed. cbn [snd parts set_parts].
  set (imgs := part_images _).
  assert (Hp : parts (if changed
                      then set_parts (map (applied existing part pageUrl ts))
                             (set_history (fun rows => rows ++
                                [snapshot existing
                                   (syncResults net (p_id existing) (imageUrls part) dl w) ts])
                                (snd (syncPartImages net (p_id existing) (imageUrls part) dl w)))
                      else snd (syncPartImages net (p_id existing) (imageUrls part) dl w))
               = if changed then map (applied existing part pageUrl ts) (parts w)
                 else parts w).
  { destruct changed; cbn; rewrite syncPartImages_parts; reflexivity. }
  rewrite Hp. clear Hp. clearbody changed imgs. clear Hm.
  unfold touchRows. generalize (parts w). intros l. induction l as [|r rows IH].
  - destruct changed; constructor.
  - assert (Hrow : forall r', r' = (if changed then applied existing part pageUrl ts r else r) ->
        let r'' := if String.eqb (p_id r') (p_id existing) then touched imgs ts r' else r' in
        p_id r'' = p_id r ∧ p_motorcycle_id r'' = p_motorcycle_id r
        ∧ p_part_number r'' = p_part_number r
        ∧ (p_id r ≠ p_id existing -> r'' = r)
        ∧ (p_id r = p_id existing ->
           p_last_seen r'' = Some ts ∧ p_is_deleted r'' = 0 ∧ p_deleted_at r'' = None
           ∧ (p_name r'', p_description r'', p_price r'', p_currency r'', p_url r'',
              p_scraped_at r'')
             = if changed
               then (name part, Some (description part), Some (price part),
                     Some (currency part), pageUrl, Some ts)
               else (p_name r, p_description r, p_price r, p_currency r, p_url r,
                     p_scraped_at r))).
    { intros r' ->. unfold applied.
      destruct (String.eqb_spec (p_id r) (p_id existing)) as [E|E].
      - destruct changed; cbn; rewrite ?E, String.eqb_refl; cbn;
          repeat split; auto; try contradiction.
      - destruct changed; cbn; apply String.eqb_neq in E; rewrite ?E; cbn;
          apply String.eqb_neq in E; repeat split; auto; try contradiction. }
    destruct changed; cbn [map]; (constructor; [apply (Hrow _ eq_refl)|exact IH]).
Qed.

Lemma matched_part_is_stamped_witness :
  matchedRow vehicle1 tankPart (parts firstVisit) = Some tankRow
  ∧ Forall2 (fun r r' => p_id r' = p_id r ∧ p_motorcycle_id r' = p_motorcycle_id r
                         ∧ p_part_number r' = p_part_number r)
            (parts firstVisit)
            (parts (snd (@trackPart SimpleUrl.lib tankSite vehicle1 pageUrl1
                           "2026-01-02 10:00:00" true tankPart firstVisit))).
Proof.
  assert (Hm : matchedRow vehicle1 tankPart (parts firstVisit) = Some tankRow)
    by (vm_compute; reflexivity).
  split; [exact Hm|].
  eapply Forall2_impl;
    [apply (@matched_part_is_stamped SimpleUrl.lib tankSite vehicle1 pageUrl1
              "2026-01-02 10:00:00" true tankPart tankRow firstVisit Hm)|].
  cbv beta. intros r r' (H1 & H2 & H3 & _). auto.
Defined.

Lemma hasPartId_spec id rows : hasPartId id rows = true <-> id ∈ map p_id rows.
Proof.
  unfold hasPartId. rewrite existsb_exists, list_elem_of_In, in_map_iff. split.
  - intros (r & Hr & E). apply String.eqb_eq in E. eauto.
  - intros (r & E & Hr). exists r. split; [exact Hr|]. apply String.eqb_eq, E.
Qed.

Lemma insertable_spec motorcycleId part rows :
  insertable motorcycleId part rows = true
  <-> partNumber part ≠ EmptyString ∧ partIdOf motorcycleId part ∉ map p_id rows.
Proof.
  unfold insertable. rewrite andb_true_iff, negb_true_iff, truthy_spec.
  rewrite <- hasPartId_spec. destruct (hasPartId _ rows); split; intros (A & B);
    split; auto; try discriminate. exfalso. apply B. reflexivity.
Qed.

(** X13. A part matched to no stored row. When it has a part number and its
    id is free, exactly one row is appended: it carries the derived id, the
    vehicle, the extracted name, part number, description, price and
    currency, the page URL, [scraped_at] = [last_seen] = pass timestamp and
    [is_deleted] = 0, and all rows stored before are as they were. When the
    part number is missing or the id is taken the insert fails and the
    world is left exactly as it was. In both cases no history row is
    written. *)
Theorem first_sighting `{Platform} net motorcycleId pageUrl ts dl part w :
  matchedRow motorcycleId part (parts w) = None ->
  let after := snd (trackPart net motorcycleId pageUrl ts dl part w) in
  parts_history after = parts_history w
  ∧ (insertable motorcycleId part (parts w) = true
     <-> partNumber part ≠ EmptyString ∧ partIdOf motorcycleId part ∉ map p_id (parts w))
  ∧ (insertable motorcycleId part (parts w) = true ->
     exists r, parts after = parts w ++ [r]
       ∧ (p_id r, p_motorcycle_id r, p_name r, p_part_number r)
         = (partIdOf motorcycleId part, motorcycleId, name part, partNumber part)
       ∧ (p_description r, p_price r, p_currency r, p_image_url r)
         = (Some (description part), Some (price part), Some (currency part),
            orNull (imageUrl part))
       ∧ (p_url r, p_scraped_at r, p_last_seen r, p_is_deleted r, p_deleted_at r)
         = (pageUrl, Some ts, Some ts, 0, None))
  ∧ (insertable motorcycleId part (parts w) = false -> after = w).
Proof.
  intros Hm after. subst after. rewrite (trackPart_insert _ _ _ _ _ _ _ Hm).
  split; [|split; [apply insertable_spec|split]].
  - destruct (insertable motorcycleId part (parts w)); [|reflexivity].
    cbn zeta. cbn [snd parts_history set_parts].
    match goal with |- context [syncPartImages ?n ?i ?u ?d ?v] =>
      destruct (syncPartImages_frame n i u d v) as (_ & Ht) end.
    unfold tracked in Ht. injection Ht as _ Hh _. rewrite Hh. reflexivity.
  - intros Hi. rewrite Hi. cbn zeta. cbn [snd parts set_parts].
    rewrite syncPartImages_parts. cbn [parts set_parts].
    set (imgs := part_images _). unfold touchRows. rewrite map_app.
    fold (touchRows imgs ts (partIdOf motorcycleId part) (parts w)).
    rewrite touchRows_absent.
    + cbn [map newRow p_id]. rewrite String.eqb_refl. eexists. split; [reflexivity|].
      cbn. auto.
    + unfold insertable in Hi. apply andb_prop in Hi as (_ & Hi).
      apply negb_true_iff in Hi. exact Hi.
  - intros Hi. rewrite Hi. reflexivity.
Qed.

Lemma first_sighting_witness :
  matchedRow vehicle1 tankPart (parts emptyWorld) = None
  ∧ parts_history (snd (@trackPart SimpleUrl.lib tankSite vehicle1 pageUrl1
                          "2026-01-01 10:00:00" true tankPart emptyWorld))
    = parts_history emptyWorld.
Proof.
  split; [reflexivity|].
  apply (@first_sighting SimpleUrl.lib tankSite vehicle1 pageUrl1 "2026-01-01 10:00:00" true
           tankPart emptyWorld eq_refl).
Defined.

(* ===================================================================== *)
(** * Record extractor                                                    *)
(* ===================================================================== *)

Lemma scanRows_blocks `{Platform} pageUrl table rows : forall skip,
  scanRows pageUrl table rows skip
  = flat_map (emit pageUrl table) (blocksOf rows skip).
Proof.
  induction rows as [|row rest IH]; intros skip; cbn [scanRows blocksOf]; [reflexivity|].
  destruct skip as [|k]; [|apply IH].
  destruct (length (cells row) =? 0)%nat; cbn [negb andb]; [apply IH|].
  destruct (hasOsa (texts row)); [|apply IH].
  cbn [flat_map]. rewrite IH. reflexivity.
Qed.

Lemma hundredths_nonneg whole frac : 0 <= hundredths whole frac.
Proof. unfold hundredths. destruct frac as [|d [|e frac]]; lia. Qed.

Lemma priceAt_nonneg l v : priceAt l = Some v -> 0 <= v.
Proof.
  unfold priceAt. destruct (takeDigits l) as [|c whole]; [discriminate|].
  intros E.
  repeat match type of E with
         | context [match ?x with _ => _ end] => destruct x
         end; try discriminate; injection E as <-; apply hundredths_nonneg.
Qed.

Lemma searchPrice_nonneg l v : searchPrice l = Some v -> 0 <= v.
Proof.
  induction l as [|c l IH]; cbn [searchPrice].
  - destruct (priceAt []) eqn:E; [|discriminate]. intros [= <-]. eapply priceAt_nonneg, E.
  - destruct (priceAt (c :: l)) eqn:E; [|exact IH]. intros [= <-]. eapply priceAt_nonneg, E.
Qed.

Lemma readRow_nonneg acc crow : 0 <= b_price acc -> 0 <= b_price (readRow acc crow).
Proof.
  intros Ha. unfold readRow. destruct (length (cells crow) =? 0)%nat; [exact Ha|].
  cbn [b_price]. unfold matchPrice.
  destruct (searchPrice _) eqn:E; [eapply searchPrice_nonneg, E|exact Ha].
Qed.

Lemma blockPrice_nonneg b : 0 <= blockPrice b.
Proof.
  unfold blockPrice, blockFields.
  assert (Hg : forall rs acc, 0 <= b_price acc -> 0 <= b_price (fold_left readRow rs acc)).
  { intros rs. induction rs as [|r rs IH]; intros acc Ha; cbn; [exact Ha|].
    apply IH, readRow_nonneg, Ha. }
  apply Hg. cbn. lia.
Qed.

(** X14. The records read from a page are those of its blocks, table by
    table and block by block. A block gives one record, with the trimmed
    name, the price and the currency EUR, when its name is not empty and
    its price is positive; any other block gives none. A price is never
    negative, so the blocks dropped for their price are those without a
    price. *)
Theorem extraction_by_blocks `{Platform} pageUrl tables :
  extractParts pageUrl tables
  = flat_map (fun table => flat_map (emit pageUrl table) (blocksOf (rows table) 0)) tables
  ∧ (forall table b,
       (blockName b ≠ EmptyString ∧ 0 < blockPrice b ->
        exists p, emit pageUrl table b = [p]
                  ∧ name p = trim (blockName b) ∧ price p = blockPrice b
                  ∧ currency p = "EUR"%string)
       ∧ (¬ (blockName b ≠ EmptyString ∧ 0 < blockPrice b) -> emit pageUrl table b = [])
       ∧ 0 <= blockPrice b).
Proof.
  split.
  - unfold extractParts. induction tables as [|t tables IH]; cbn; [reflexivity|].
    rewrite scanRows_blocks, IH. reflexivity.
  - intros table b. unfold emit. fold (blockPrice b).
    destruct (truthy (blockName b)) eqn:Hn; destruct (Z.ltb_spec 0 (blockPrice b)) as [Hp|Hp];
      cbn [andb]; (split; [|split; [|apply blockPrice_nonneg]]).
    + intros _. eexists. split; [reflexivity|]. cbn. auto.
    + intros Hx. exfalso. apply Hx. split; [apply truthy_spec, Hn|exact Hp].
    + intros (_ & Hx). lia.
    + reflexivity.
    + intros (Hx & _). apply truthy_spec in Hx. congruence.
    + reflexivity.
    + intros (Hx & _). apply truthy_spec in Hx. congruence.
    + reflexivity.
Qed.

Lemma mapUpdate_keys key p m :
  match mapUpdate key p m with
  | Some m' => key ∈ map fst m ∧ map fst m' = map fst m
  | None => key ∉ map fst m
  end.
Proof.
  induction m as [|[k current] rest IH]; cbn [mapUpdate map fst].
  - apply not_elem_of_nil.
  - destruct (String.eqb_spec k key) as [E|E].
    + subst. split; [apply elem_of_cons; auto|reflexivity].
    + destruct (mapUpdate key p rest) as [rest'|].
      * destruct IH as (Hin & Hk). split; [apply elem_of_cons; auto|].
        cbn. rewrite Hk. reflexivity.
      * apply not_elem_of_cons. split; [congruence|exact IH].
Qed.

Lemma dedupStep_keys m p : map fst (dedupStep m p) = setAdd (map fst m) (idSeed p).
Proof.
  unfold dedupStep, setAdd. pose proof (mapUpdate_keys (idSeed p) p m) as Hk.
  destruct (mapUpdate (idSeed p) p m) as [m'|].
  - destruct Hk as (Hin & Hk). rewrite bool_decide_eq_true_2 by exact Hin. exact Hk.
  - rewrite bool_decide_eq_false_2 by exact Hk. rewrite map_app. reflexivity.
Qed.

Lemma dedup_keys l : forall m,
  map fst (fold_left dedupStep l m) = fold_left setAdd (map idSeed l) (map fst m).
Proof.
  induction l as [|p l IH]; intros m; cbn; [reflexivity|].
  rewrite IH, dedupStep_keys. reflexivity.
Qed.

Lemma mapUpdate_filed key p m :
  Forall filed m ->
  match mapUpdate key p m with
  | Some m' => Forall filed m'
  | None => True
  end.
Proof.
  induction m as [|[k current] rest IH]; intros Hm; cbn [mapUpdate]; [exact I|].
  inversion Hm as [|? ? Hc Hrest]; subst.
  destruct (String.eqb k key).
  - constructor; [|exact Hrest]. destruct Hc as (Hc & _). split; [exact Hc|].
    cbn. apply newSet_NoDup.
  - specialize (IH Hrest). destruct (mapUpdate key p rest); [|exact I].
    constructor; assumption.
Qed.

Lemma dedup_filed l : forall m, Forall filed m -> Forall filed (fold_left dedupStep l m).
Proof.
  induction l as [|p l IH]; intros m Hm; cbn; [exact Hm|].
  apply IH. unfold dedupStep. pose proof (mapUpdate_filed (idSeed p) p m Hm) as Hu.
  destruct (mapUpdate (idSeed p) p m); [exact Hu|].
  apply Forall_app. split; [exact Hm|]. constructor; [|constructor].
  split; [reflexivity|]. cbn. apply newSet_NoDup.
Qed.

(** X15. Deduplication keeps one record per key (the part number, else the
    name), in the order in which the keys first appear on the page: the
    keys of the unique parts are pairwise distinct, every extracted record
    has its key among them, and the image list of every unique part has no
    duplicates. *)
Theorem unique_parts_by_key parts :
  map idSeed (uniqueParts parts) = newSet (map idSeed parts)
  ∧ NoDup (map idSeed (uniqueParts parts))
  ∧ (forall p, p ∈ parts -> idSeed p ∈ map idSeed (uniqueParts parts))
  ∧ Forall (fun q => NoDup (imageUrls q)) (uniqueParts parts).
Proof.
  assert (Hf : Forall filed (fold_left dedupStep parts [])).
  { apply dedup_filed. constructor. }
  assert (Hk : map idSeed (uniqueParts parts) = newSet (map idSeed parts)).
  { unfold uniqueParts, newSet.
    change (@nil string) with (map fst (@nil (string * ExtractedPart))).
    rewrite <- (dedup_keys parts []).
    rewrite map_map. apply map_ext_in. intros kv Hin.
    rewrite Forall_forall in Hf. symmetry. apply (Hf kv), list_elem_of_In, Hin. }
  split; [exact Hk|]. split; [rewrite Hk; apply newSet_NoDup|]. split.
  - intros p Hp. rewrite Hk. apply newSet_elem, list_elem_of_fmap. eauto.
  - unfold uniqueParts. apply Forall_map. eapply Forall_impl; [exact Hf|].
    intros kv (_ & Hn). exact Hn.
Qed.

(* --------------------------------------------------------------------- *)
(** ** The price pattern                                                  *)
(* --------------------------------------------------------------------- *)

Lemma isSuffix_refl l : isSuffix l l.
Proof. exists []. reflexivity. Qed.

Lemma isSuffix_cons c s l : isSuffix (c :: s) l -> isSuffix s l.
Proof. intros (a & ->). exists (a ++ [c]). rewrite <- app_assoc. reflexivity. Qed.

Lemma isSuffix_trans s t l : isSuffix s t -> isSuffix t l -> isSuffix s l.
Proof. intros (a & ->) (b & ->). exists (b ++ a). rewrite app_assoc. reflexivity. Qed.

Lemma skipSpaces_suffix l : isSuffix (skipSpaces l) l.
Proof.
  induction l as [|c l IH]; cbn; [apply isSuffix_refl|].
  destruct (isSpace c); [|apply isSuffix_refl].
  eapply isSuffix_trans; [exact IH|]. exists [c]. reflexivity.
Qed.

Lemma skipn_suffix n (l : list ascii) : isSuffix (skipn n l) l.
Proof. exists (firstn n l). symmetry. apply firstn_skipn. Qed.

Lemma indexFrom_suffix p s l : forall i,
  prefixOf p s = true -> isSuffix s l -> is_Some (indexFrom p l i).
Proof.
  intros i Hp (a & ->). revert i. induction a as [|c a IH]; intros i.
  - cbn [app]. destruct s; cbn [indexFrom]; rewrite Hp; eauto.
  - cbn [app indexFrom]. destruct (prefixOf p (c :: a ++ s)); [eauto|apply IH].
Qed.

Lemma priceAt_needs_eur l v : priceAt l = Some v ->
  exists s, prefixOf eur s = true ∧ isSuffix s l.
Proof.
  unfold priceAt. destruct (takeDigits l) as [|c whole] eqn:Hd; [discriminate|].
  set (rest := skipn (length (c :: whole)) l).
  assert (Hr : isSuffix rest l) by apply skipn_suffix.
  assert (Hplain : forall v, (if prefixOf eur (skipSpaces rest)
                              then Some (hundredths (c :: whole) []) else None) = Some v ->
                   exists s, prefixOf eur s = true ∧ isSuffix s l).
  { intros v0 E. destruct (prefixOf eur (skipSpaces rest)) eqn:Hp; [|discriminate].
    eexists. split; [exact Hp|]. eapply isSuffix_trans; [apply skipSpaces_suffix|exact Hr]. }
  destruct rest as [|sep [|d1 after1]] eqn:Hrest; try apply Hplain.
  destruct (isSep sep && isDigit d1); [|apply Hplain].
  assert (H1 : isSuffix after1 l).
  { apply (isSuffix_cons d1), (isSuffix_cons sep), Hr. }
  destruct after1 as [|d2 after2]; [apply Hplain|].
  destruct (isDigit d2 && prefixOf eur (skipSpaces after2)) eqn:H2.
  - intros _. apply andb_prop in H2 as (_ & H2). eexists. split; [exact H2|].
    eapply isSuffix_trans; [apply skipSpaces_suffix|]. apply (isSuffix_cons d2), H1.
  - destruct (prefixOf eur (skipSpaces (d2 :: after2))) eqn:H3; [|apply Hplain].
    intros _. eexists. split; [exact H3|].
    eapply isSuffix_trans; [apply skipSpaces_suffix|exact H1].
Qed.

Lemma searchPrice_needs_eur l v : searchPrice l = Some v ->
  exists s, prefixOf eur s = true ∧ isSuffix s l.
Proof.
  induction l as [|c l IH]; cbn [searchPrice].
  - destruct (priceAt []) eqn:E; [|discriminate]. intros _. eapply priceAt_needs_eur, E.
  - destruct (priceAt (c :: l)) eqn:E.
    + intros _. eapply priceAt_needs_eur, E.
    + intros Hs. destruct (IH Hs) as (s & Hp & Hsuf). exists s. split; [exact Hp|].
      eapply isSuffix_trans; [exact Hsuf|]. exists [c]. reflexivity.
Qed.

Lemma skipSpaces_app sp x :
  Forall (fun c => isSpace c = true) sp ->
  (match x with [] => True | c :: _ => isSpace c = false end) ->
  skipSpaces (sp ++ x) = x.
Proof.
  intros Hs Hx. induction Hs as [|c sp Hc Hs IH]; cbn.
  - destruct x as [|c x]; [reflexivity|]. cbn. rewrite Hx. reflexivity.
  - rewrite Hc. exact IH.
Qed.

Lemma skipn_length_app {A} (a b : list A) : skipn (length a) (a ++ b) = b.
Proof. induction a; cbn; auto. Qed.

Lemma space_not_digit c : isSpace c = true -> isDigit c = false ∧ isSep c = false.
Proof.
  destruct c as [[] [] [] [] [] [] [] []]; vm_compute; intros; try discriminate; auto.
Qed.

(** X16. The price pattern. A text without the letters EUR has no price. A
    run of digits followed by blanks and EUR is read as that many whole
    units; with a comma or a point and two more digits before the blanks it
    is read as units and hundredths, the comma and the point giving the
    same price. *)
Theorem price_pattern :
  (forall s, includes s "EUR" = false -> matchPrice s = None)
  ∧ (forall whole sp rest,
       whole ≠ [] -> Forall (fun c => isDigit c = true) whole ->
       Forall (fun c => isSpace c = true) sp ->
       matchPrice (str (whole ++ sp ++ eur ++ rest))
       = Some (Z.of_N (digitsValue whole) * 100))
  ∧ (forall whole sep d1 d2 sp rest,
       whole ≠ [] -> Forall (fun c => isDigit c = true) whole ->
       isSep sep = true -> isDigit d1 = true -> isDigit d2 = true ->
       Forall (fun c => isSpace c = true) sp ->
       matchPrice (str (whole ++ sep :: d1 :: d2 :: sp ++ eur ++ rest))
       = Some (Z.of_N (digitsValue whole) * 100 + Z.of_N (digitsValue [d1; d2]))).
Proof.
  split; [|split].
  - intros s Hi. unfold matchPrice. destruct (searchPrice (chars s)) as [v|] eqn:E; [|reflexivity].
    destruct (searchPrice_needs_eur _ _ E) as (t & Hp & Hsuf).
    unfold includes, indexOf in Hi. apply bool_decide_eq_false in Hi.
    exfalso. apply Hi. eapply indexFrom_suffix; eassumption.
  - intros whole sp rest Hn Hd Hs. unfold matchPrice. rewrite chars_str.
    assert (Hx : endsNumber (sp ++ eur ++ rest)).
    { destruct Hs as [|c sp Hc Hs]; [reflexivity|]. cbn. apply space_not_digit, Hc. }
    assert (E : priceAt (whole ++ sp ++ eur ++ rest)
                = Some (Z.of_N (digitsValue whole) * 100)).
    { unfold priceAt. rewrite (takeDigits_app whole _ Hd Hx).
      destruct whole as [|c whole]; [contradiction|].
      rewrite skipn_length_app.
      assert (Hp : prefixOf eur (skipSpaces (sp ++ eur ++ rest)) = true).
      { rewrite (skipSpaces_app sp (eur ++ rest) Hs); reflexivity. }
      rewrite Hp. unfold hundredths. rewrite Z.add_0_r.
      destruct Hs as [|x sp Hx' Hs].
      - reflexivity.
      - cbn [app]. destruct (space_not_digit x Hx') as (_ & Hsep).
        destruct (sp ++ eur ++ rest); [reflexivity|]. rewrite Hsep. reflexivity. }
    destruct (whole ++ sp ++ eur ++ rest); cbn [searchPrice]; rewrite E; reflexivity.
  - intros whole sep d1 d2 sp rest Hn Hd Hsep H1 H2 Hs. unfold matchPrice. rewrite chars_str.
    assert (Hx : endsNumber (sep :: d1 :: d2 :: sp ++ eur ++ rest)).
    { cbn. destruct sep as [[] [] [] [] [] [] [] []]; vm_compute in Hsep; try discriminate;
        reflexivity. }
    assert (E : priceAt (whole ++ sep :: d1 :: d2 :: sp ++ eur ++ rest)
                = Some (Z.of_N (digitsValue whole) * 100 + Z.of_N (digitsValue [d1; d2]))).
    { unfold priceAt. rewrite (takeDigits_app whole _ Hd Hx).
      destruct whole as [|c whole]; [contradiction|].
      rewrite skipn_length_app. rewrite Hsep, H1, H2. cbn [andb].
      rewrite (skipSpaces_app sp (eur ++ rest) Hs) by reflexivity.
      reflexivity. }
    destruct (whole ++ sep :: d1 :: d2 :: sp ++ eur ++ rest); cbn [searchPrice];
      rewrite E; reflexivity.
Qed.

(* ===================================================================== *)
(** * Vehicle resolution                                                  *)
(* ===================================================================== *)

Lemma find_updated_same {A} (q c : A -> bool) (g : A -> A) l e :
  (forall r, q (g r) = q r) -> c e = true ->
  List.find q l = Some e ->
  List.find q (map (fun r => if c r then g r else r) l) = Some (g e).
Proof.
  intros Hq Hc. induction l as [|r l IH]; cbn; [discriminate|].
  destruct (q r) eqn:Hr.
  - intros [= ->]. rewrite Hc, Hq, Hr. reflexivity.
  - intros Hf. destruct (c r); rewrite ?Hq, Hr; apply IH, Hf.
Qed.

Lemma find_updated_new {A} (q c : A -> bool) (g : A -> A) l :
  (forall r, q (g r) = true) ->
  List.find q l = None -> (exists r, In r l ∧ c r = true) ->
  exists r0, In r0 l ∧ c r0 = true
             ∧ List.find q (map (fun r => if c r then g r else r) l) = Some (g r0).
Proof.
  intros Hq. induction l as [|r l IH]; cbn; [intros _ (r & [] & _)|].
  destruct (q r) eqn:Hr; [discriminate|]. intros Hf Hex.
  destruct (c r) eqn:Hc.
  - exists r. rewrite Hq. auto.
  - rewrite Hr. destruct IH as (r0 & Hin & Hc0 & E); [exact Hf| |eauto].
    destruct Hex as (x & [->|Hin] & Hx); [congruence|eauto].
Qed.

Lemma find_appended {A} (q : A -> bool) l x :
  List.find q l = None -> q x = true -> List.find q (l ++ [x]) = Some x.
Proof.
  intros Hf Hx. induction l as [|r l IH]; cbn in *; [rewrite Hx; reflexivity|].
  destruct (q r); [discriminate|]. apply IH, Hf.
Qed.

Lemma resolve_known `{Platform} link brand model listingUrl ts w r :
  vehicleAt listingUrl w = Some r -> m_brand r = brand -> m_model r = model ->
  resolveMotorcycle link brand model listingUrl ts w = (Ok (m_id r), w).
Proof.
  intros Hv Hb Hm. unfold resolveMotorcycle, bind at 1, gets at 1.
  unfold vehicleAt in Hv. rewrite Hv, Hb, Hm, !String.eqb_refl. reflexivity.
Qed.

(** X17. Resolving the vehicle of a page: the id is that of the first
    stored vehicle with the address of the page, else the hash of
    [brand-model]. Afterwards the first vehicle with that address has this
    id and the brand and model of the link; no parts, history or stored
    vehicle id is touched, at most one vehicle is added, and resolving the
    same page again changes nothing. *)
Theorem vehicle_resolution `{Platform} link brand model listingUrl ts ts' w :
  let id := match vehicleAt listingUrl w with
            | Some existing => m_id existing
            | None => generateId (brand +:+ "-" +:+ model)
            end in
  let after := snd (resolveMotorcycle link brand model listingUrl ts w) in
  fst (resolveMotorcycle link brand model listingUrl ts w) = Ok id
  ∧ (exists r, vehicleAt listingUrl after = Some r
               ∧ m_id r = id ∧ m_brand r = brand ∧ m_model r = model)
  ∧ resolveMotorcycle link brand model listingUrl ts' after = (Ok id, after)
  ∧ (exists added, map m_id (motorcycles after) = map m_id (motorcycles w) ++ added
                   ∧ (added = [] ∨ added = [id]))
  ∧ parts after = parts w ∧ parts_history after = parts_history w.
Proof.
  intros id after.
  assert (Hexists : exists r, vehicleAt listingUrl after = Some r
             ∧ m_id r = id ∧ m_brand r = brand ∧ m_model r = model).
  { subst after id. unfold resolveMotorcycle, vehicleAt, bind at 1, gets at 1.
    destruct (List.find _ (motorcycles w)) as [e|] eqn:Hf.
    - destruct (String.eqb_spec (m_brand e) brand) as [Eb|Eb];
        [destruct (String.eqb_spec (m_model e) model) as [Em|Em]|]; cbn [negb orb].
      + cbn. rewrite Hf. eauto.
      + unfold bind, updateMotorcycle, modify, ret. cbn.
        rewrite (find_updated_same (fun r => String.eqb (m_url r) listingUrl)
                   (fun r => String.eqb (m_id r) (m_id e))
                   (fun r => mkMotorcycle (m_id r) brand model (category link) (m_url r)
                                          (Some ts)) _ e
                   (fun r => eq_refl) (String.eqb_refl _) Hf). eauto.
      + unfold bind, updateMotorcycle, modify, ret. cbn.
        rewrite (find_updated_same (fun r => String.eqb (m_url r) listingUrl)
                   (fun r => String.eqb (m_id r) (m_id e))
                   (fun r => mkMotorcycle (m_id r) brand model (category link) (m_url r)
                                          (Some ts)) _ e
                   (fun r => eq_refl) (String.eqb_refl _) Hf). eauto.
    - unfold bind at 1, gets at 1.
      destruct (List.find (fun r => String.eqb (m_id r) _) (motorcycles w)) as [e|] eqn:Hi.
      + unfold bind, updateMotorcycle, modify, ret. cbn.
        destruct (find_updated_new
                    (fun r => String.eqb (m_url r) listingUrl)
                    (fun r => String.eqb (m_id r) (generateId (brand +:+ "-" +:+ model)))
                    (fun r => mkMotorcycle (m_id r) brand model (category link) listingUrl
                                           (Some ts))
                    (motorcycles w)) as (r0 & Hin & Hc & E).
        * intros r. cbn. apply String.eqb_refl.
        * exact Hf.
        * apply find_some in Hi. eauto.
        * rewrite E. eexists. split; [reflexivity|]. cbn.
          apply String.eqb_eq in Hc. auto.
      + unfold bind, gets, modify, ret. cbn.
        rewrite (find_appended _ _ _ Hf); [eauto|]. cbn. apply String.eqb_refl. }
  split; [apply resolveMotorcycle_id|]. split; [exact Hexists|]. split.
  - destruct Hexists as (r & Hv & Hid & Hb & Hm). rewrite <- Hid.
    apply resolve_known; assumption.
  - subst after id.
    unfold resolveMotorcycle, vehicleAt, bind, gets, updateMotorcycle, modify, ret.
    destruct (List.find _ (motorcycles w)) as [e|] eqn:Hf.
    + destruct (negb _ || negb _); cbn.
      * split; [|auto]. exists []. rewrite app_nil_r. split; [|auto].
        rewrite map_map. apply map_ext. intros r. destruct (String.eqb _ _); reflexivity.
      * split; [|auto]. exists []. rewrite app_nil_r. auto.
    + destruct (List.find (fun r => String.eqb (m_id r) _) (motorcycles w)) as [e|] eqn:Hi;
        cbn.
      * split; [|auto]. exists []. rewrite app_nil_r. split; [|auto].
        rewrite map_map. apply map_ext. intros r. destruct (String.eqb _ _); reflexivity.
      * split; [|auto].
        eexists. rewrite map_app. split; [reflexivity|]. right. reflexivity.
Qed.

(* ===================================================================== *)
(** * The pages a crawl requests                                          *)
(* ===================================================================== *)

Lemma preserves_forEach_in {A} (P : World -> Prop) (xs : list A) (body : A -> M unit) :
  (forall x, In x xs -> Preserves P (body x)) -> Preserves P (forEach xs body).
Proof.
  induction xs as [|x xs IH]; intros Hb; cbn [forEach].
  - apply preserves_ret.
  - apply preserves_bind; [apply Hb; left; reflexivity|].
    intros _. apply IH. intros y Hy. apply Hb. right. exact Hy.
Qed.

Lemma preserves_axiosGet_bind {A B} (P : World -> Prop) signal url (response : option A)
    (k : A -> M B) :
  Preserves P (axiosGet signal url response) ->
  (forall data, response = Some data -> Preserves P (k data)) ->
  Preserves P (bind (axiosGet signal url response) k).
Proof.
  intros Hg Hk w Hw. specialize (Hg w Hw). unfold bind, axiosGet in *.
  destruct (aborted signal w); [exact Hg|].
  destruct response as [data|]; [|exact Hg].
  cbn in *. apply (Hk data eq_refl _ Hg).
Qed.

Lemma pages_event S n e : pageEvent S e -> Preserves (pagesWithin S n) (begins e).
Proof.
  intros He w Hw. unfold pagesWithin in *. cbn.
  rewrite skipn_app. apply Forall_app. split; [exact Hw|].
  destruct (n - length (network w))%nat; cbn; [repeat constructor; exact He|].
  rewrite skipn_nil. constructor.
Qed.

Lemma pages_axiosGet {A} S n signal url (response : option A) :
  S url -> Preserves (pagesWithin S n) (axiosGet signal url response).
Proof.
  intros Hu w Hw. unfold axiosGet. destruct (aborted signal w); [exact Hw|].
  destruct response; apply (pages_event S n (GetPage url) Hu w Hw).
Qed.

Lemma pages_waitOrAbort S n ms signal : Preserves (pagesWithin S n) (waitOrAbort ms signal).
Proof.
  intros w Hw. unfold waitOrAbort. destruct (ms <=? 0); [exact Hw|].
  destruct (aborted signal w); [exact Hw|].
  apply (pages_event S n (Delay ms) I w Hw).
Qed.

Lemma pages_scrapeMotorcyclePage `{Platform} S n net link allowedBrands options :
  S (normalizeModelUrl (href link)) ->
  Preserves (pagesWithin S n) (scrapeMotorcyclePage net link allowedBrands options).
Proof.
  intros Hu. unfold scrapeMotorcyclePage.
  destruct (extractBrandModel (text link)) as [brand model].
  repeat first
    [ apply crawl_resolveScrapeTimestamp
    | apply crawl_ensureNotAborted
    | apply pages_axiosGet; exact Hu
    | apply crawl_resolveMotorcycle
    | apply crawl_scrapeParts
    | apply crawl_markDeletedParts
    | preserves_step ];
    try keeps.
  apply pages_event. destruct e; try contradiction; exact I.
Qed.

Lemma mapSet_In l m x : In x (mapSet l m) -> x = l ∨ In x m.
Proof.
  induction m as [|y m IH]; cbn; [intros [<-|[]]; auto|].
  destruct (String.eqb _ _); cbn; intros [<-|Hx]; auto. destruct (IH Hx); auto.
Qed.

Lemma uniqueLinks_In links x : In x (uniqueLinks links) -> In x links.
Proof.
  unfold uniqueLinks.
  assert (G : forall m, In x (fold_left (fun m l => mapSet l m) links m) -> In x m ∨ In x links).
  { induction links as [|l links IH]; cbn; intros m Hx; [auto|].
    destruct (IH _ Hx) as [Hm|Hl]; [|auto].
    destruct (mapSet_In _ _ _ Hm); auto. }
  intros Hx. destruct (G [] Hx) as [[]|Hl]. exact Hl.
Qed.

(** X18. A crawl requests no page outside of the listing: each page request
    that a crawl begins goes to the category page or to the normalised
    address of a link of that page that passes the allow-list; a model page
    that the allow-list excludes is never fetched. *)
Theorem crawl_requests_listed_pages `{Platform} net allowedBrands options w :
  pagesWithin (listed net allowedBrands) (length (network w))
              (snd (scrapeCategoryList net allowedBrands options w)).
Proof.
  assert (H0 : pagesWithin (listed net allowedBrands) (length (network w)) w).
  { unfold pagesWithin. rewrite skipn_all. constructor. }
  revert H0. generalize (length (network w)). intros n.
  generalize w. change (Preserves (pagesWithin (listed net allowedBrands) n)
                                  (scrapeCategoryList net allowedBrands options)).
  unfold scrapeCategoryList.
  apply preserves_bind; [apply crawl_resolveScrapeTimestamp|]. intros scrapeTimestamp.
  apply preserves_tryCatch; [|intros message; destruct (String.eqb _ _); keeps].
  apply preserves_forEach_in. intros url [<-|[]].
  apply preserves_bind; [apply crawl_ensureNotAborted|]. intros _.
  apply preserves_axiosGet_bind; [apply pages_axiosGet; left; reflexivity|].
  intros anchors Hpage.
  apply preserves_forEach_in. intros link Hlink.
  assert (Hin : In link (linksOf anchors)).
  { apply uniqueLinks_In. destruct (o_maxLinksPerCategory options) as [m|]; [|exact Hlink].
    destruct (0 <? m); [|exact Hlink]. rewrite <- (firstn_skipn (Z.to_nat m)). apply in_or_app. left. exact Hlink. }
  apply preserves_bind; [apply crawl_ensureNotAborted|]. intros _.
  destruct (extractBrandModel (text link)) as [linkBrand linkModel] eqn:Hbm.
  destruct (matchesAllowedFilter _ _ _ _) eqn:Hallow; cbn [negb]; [|apply preserves_ret].
  apply preserves_bind; [|intros _; apply pages_waitOrAbort].
  apply pages_scrapeMotorcyclePage. right. exists anchors, link.
  repeat split; try assumption. unfold allows. rewrite Hbm. exact Hallow.
Qed.

Lemma resolveScrapeTimestamp_reads `{Platform} options w :
  exists ts, resolveScrapeTimestamp options w = (Ok ts, w).
Proof.
  unfold resolveScrapeTimestamp. destruct (orNull _); eexists; reflexivity.
Qed.

(** X19. A model page that is not scraped leaves the database and the image
    files as they were: when the signal has fired before the call, when the
    page cannot be fetched, and when the allow-list excludes the link (the
    page is then fetched and dropped). *)
Theorem page_not_scraped `{Platform} net link allowedBrands options w :
  aborted (o_signal options) w = true
  ∨ modelPage net (normalizeModelUrl (href link)) = None
  ∨ allows (normalizeFilterList allowedBrands) (text link) = false ->
  let after := snd (scrapeMotorcyclePage net link allowedBrands options w) in
  sameTables w after ∧ files after = files w.
Proof.
  intros Hc. unfold allows in Hc. cbn zeta.
  set (Q := fun v => sameTables w v ∧ files v = files w).
  change (Q (snd (scrapeMotorcyclePage net link allowedBrands options w))).
  assert (Qw : Q w) by (repeat split).
  assert (Qe : forall line v, Q v -> Q (set_errors line v)) by (intros ? ? Hv; exact Hv).
  assert (Qn : forall e v, Q v -> Q (set_network e v)) by (intros ? ? Hv; exact Hv).
  clearbody Q.
  unfold scrapeMotorcyclePage, tryCatch, bind at 1.
  destruct (resolveScrapeTimestamp_reads options w) as (ts & ->).
  unfold bind at 1, ensureNotAborted, consoleError, modify.
  destruct (aborted (o_signal options) w) eqn:Hab; [apply Qe, Qw|].
  unfold bind at 1, axiosGet. rewrite Hab.
  destruct (modelPage net _) as [page|]; [|apply Qe, Qn, Qw].
  destruct (extractBrandModel (text link)) as [brand model].
  destruct (matchesAllowedFilter _ _ _ _); [|apply Qn, Qw].
  destruct Hc as [Hc|[Hc|Hc]]; discriminate.
Qed.

Lemma page_not_scraped_witness :
  allows (normalizeFilterList (Some ["honda"%string])) (text link1) = false
  ∧ sameTables emptyWorld
      (snd (@scrapeMotorcyclePage SimpleUrl.lib tankSite link1 (Some ["honda"%string])
              (at_ "2026-01-01 10:00:00") emptyWorld)).
Proof.
  assert (Ha : allows (normalizeFilterList (Some ["honda"%string])) (text link1) = false)
    by (vm_compute; reflexivity).
  split; [exact Ha|].
  apply (@page_not_scraped SimpleUrl.lib tankSite link1 (Some ["honda"%string])
           (at_ "2026-01-01 10:00:00") emptyWorld). right. right. exact Ha.
Defined.

(* ===================================================================== *)
(** * A second pass over an unchanged part                                *)
(* ===================================================================== *)













(* ===================================================================== *)
(** * The links of a crawl and its page budget                            *)
(* ===================================================================== *)






Lemma pageCount_event n e w :
  (pageCount n (set_network (fun l => l ++ [e]) w)
   <= pageCount n w + (if isPage e then 1 else 0))%nat.
Proof.
  unfold pageCount. cbn. rewrite skipn_app, List.filter_app, length_app.
  apply Nat.add_le_mono_l.
  destruct (n - length (network w))%nat; cbn; [destruct (isPage e); cbn; lia|].
  rewrite skipn_nil. cbn. lia.
Qed.

Lemma adds_keeps {A} n (m : M A) :
  (forall k, Preserves (fun w => (pageCount n w <= k)%nat) m) -> Adds n 0 m.
Proof. intros Hm k w Hw. rewrite Nat.add_0_r. apply (Hm k w Hw). Qed.

Lemma adds_weaken {A} n i j (m : M A) : (i <= j)%nat -> Adds n i m -> Adds n j m.
Proof. intros Hij Hm k w Hw. specialize (Hm k w Hw). lia. Qed.

Lemma adds_bind {A B} n i j (m : M A) (f : A -> M B) :
  Adds n i m -> (forall a, Adds n j (f a)) -> Adds n (i + j) (bind m f).
Proof.
  intros Hm Hf k w Hw. specialize (Hm k w Hw). unfold bind.
  destruct (m w) as [[a|e] w']; cbn in *; [|lia].
  specialize (Hf a _ _ Hm). lia.
Qed.

Lemma adds_axiosGet_bind {A B} n j signal url (response : option A) (f : A -> M B) :
  (forall data, response = Some data -> Adds n j (f data)) ->
  Adds n (1 + j) (bind (axiosGet signal url response) f).
Proof.
  intros Hf k w Hw. unfold bind, axiosGet.
  destruct (aborted signal w); cbn; [lia|].
  pose proof (pageCount_event n (GetPage url) w) as He. cbn in He.
  destruct response as [data|]; cbn; [|lia].
  assert (H1 : (pageCount n (set_network (fun l => l ++ [GetPage url]) w) <= k + 1)%nat) by lia.
  specialize (Hf data eq_refl _ _ H1). lia.
Qed.

Lemma adds_tryCatch {A} n i (m : M A) (h : string -> M A) :
  Adds n i m -> (forall e, Adds n 0 (h e)) -> Adds n i (tryCatch m h).
Proof.
  intros Hm Hh k w Hw. specialize (Hm k w Hw). unfold tryCatch.
  destruct (m w) as [[a|e] w']; cbn in *; [exact Hm|].
  specialize (Hh e _ _ Hm). lia.
Qed.

Lemma adds_forEach {A} n (xs : list A) (body : A -> M unit) :
  (forall x, Adds n 1 (body x)) -> Adds n (length xs) (forEach xs body).
Proof.
  intros Hb. induction xs as [|x xs IH]; cbn [forEach length].
  - intros k w Hw. cbn. lia.
  - apply (adds_bind n 1 (length xs)); [apply Hb|intros _; exact IH].
Qed.

Lemma pages_keeps_event n k e :
  isPage e = false -> Preserves (fun w => (pageCount n w <= k)%nat) (begins e).
Proof.
  intros He w Hw. pose proof (pageCount_event n e w) as Hc. rewrite He in Hc.
  cbn in *. lia.
Qed.

Lemma pages_keeps_wait n k ms signal :
  Preserves (fun w => (pageCount n w <= k)%nat) (waitOrAbort ms signal).
Proof.
  intros w Hw. unfold waitOrAbort. destruct (ms <=? 0); [exact Hw|].
  destruct (aborted signal w); [exact Hw|].
  apply (pages_keeps_event n k (Delay ms) eq_refl w Hw).
Qed.

Lemma adds_scrapeMotorcyclePage `{Platform} n net link allowedBrands options :
  Adds n 1 (scrapeMotorcyclePage net link allowedBrands options).
Proof.
  unfold scrapeMotorcyclePage.
  apply adds_tryCatch; [|intros e; apply adds_keeps; intros k; keeps].
  apply (adds_bind n 0 1); [apply adds_keeps; intros k; apply crawl_resolveScrapeTimestamp|].
  intros ts.
  apply (adds_bind n 0 1); [apply adds_keeps; intros k; apply crawl_ensureNotAborted|].
  intros _. apply (adds_axiosGet_bind n 0). intros page _.
  apply adds_keeps. intros k.
  destruct (extractBrandModel (text link)) as [brand model].
  repeat first
    [ apply crawl_resolveMotorcycle
    | apply crawl_scrapeParts
    | apply crawl_markDeletedParts
    | preserves_step ];
    try keeps.
  apply pages_keeps_event. destruct e; try contradiction; reflexivity.
Qed.

(** X22. The page budget of a crawl: it begins at most one request for the
    category page and one for each link it follows, and it follows at most
    [maxLinksPerCategory] links when that option is a positive number. *)
Theorem crawl_page_budget `{Platform} net allowedBrands options w :
  let after := snd (scrapeCategoryList net allowedBrands options w) in
  let anchors := default [] (categoryPage net categoryUrl) in
  (pageCount (length (network w)) after <= 1 + linkBudget options anchors)%nat
  ∧ (forall n, o_maxLinksPerCategory options = Some n -> 0 < n ->
               (pageCount (length (network w)) after <= 1 + Z.to_nat n)%nat).
Proof.
  intros after anchors.
  assert (Hmain : (pageCount (length (network w)) after <= 1 + linkBudget options anchors)%nat).
  { subst after anchors.
    assert (H0 : (pageCount (length (network w)) w <= 0)%nat).
    { unfold pageCount. rewrite skipn_all. cbn. lia. }
    revert H0. generalize (length (network w)). intros n H0.
    enough (Ha : Adds n (1 + linkBudget options (default [] (categoryPage net categoryUrl)))
                      (scrapeCategoryList net allowedBrands options))
      by apply (Ha 0%nat w H0).
    clear H0. unfold scrapeCategoryList.
    apply (adds_bind n 0);
      [apply adds_keeps; intros k; apply crawl_resolveScrapeTimestamp|]. intros ts.
    apply adds_tryCatch;
      [|intros message; apply adds_keeps; intros k; destruct (String.eqb _ _); keeps].
    cbn [forEach].
    rewrite <- (Nat.add_0_r (1 + linkBudget _ _)). apply adds_bind;
      [|intros _; apply adds_keeps; intros k; apply preserves_ret].
    apply (adds_bind n 0);
      [apply adds_keeps; intros k; apply crawl_ensureNotAborted|]. intros _.
    apply adds_axiosGet_bind. intros page ->. cbn [default]. unfold id.
    eapply adds_weaken; [|apply adds_forEach].
    - unfold linkBudget. destruct (o_maxLinksPerCategory options) as [m|]; [|lia].
      destruct (0 <? m); [|lia]. rewrite length_firstn. lia.
    - intros link.
      rewrite <- (Nat.add_0_l 1).
      apply adds_bind; [apply adds_keeps; intros k; apply crawl_ensureNotAborted|]. intros _.
      destruct (extractBrandModel (text link)) as [linkBrand linkModel].
      destruct (negb _).
      + apply (adds_weaken n 0); [lia|]. apply adds_keeps. intros k. apply preserves_ret.
      + rewrite <- (Nat.add_0_r 1). apply adds_bind; [apply adds_scrapeMotorcyclePage|].
        intros _. apply adds_keeps. intros k. apply pages_keeps_wait. }
  split; [exact Hmain|]. intros n Hn Hpos.
  etransitivity; [exact Hmain|]. apply Nat.add_le_mono_l.
  unfold linkBudget. rewrite Hn. apply Z.ltb_lt in Hpos. rewrite Hpos. apply Nat.le_min_l.
Qed.

(* ===================================================================== *)
(** * A part that vanishes and comes back                                 *)
(* ===================================================================== *)


Lemma matchKey_flagDeleted motorcycleId part ts r :
  matchKey motorcycleId part (flagDeleted ts r) = matchKey motorcycleId part r.
Proof. reflexivity. Qed.



(* ===================================================================== *)
(** * The brand token and the vehicle id                                  *)
(* ===================================================================== *)






